(** * A reference-counted pool of asynchronous context managers

    Shallow embedding of [asyncio_contextmanager_pool/__init__.py]:
    the key deriver [reduce_args], the [_Holder] wrapper with its
    reference count and lazy first entry, and the [Pool] with its
    instance and timer dictionaries.  Coroutines are cut at their
    [await]s; the event loop (clock, timer handles, created tasks) is
    part of the state, and a run of the program is a list of labels. *)

From stdpp Require Import gmap strings list fin_maps sorting.

Open Scope Z_scope.

(** ** Python values and call arguments *)

(** The hashable values that occur as arguments in this development. *)
Inductive PyVal : Type :=
| PyNone
| PyInt (n : Z)
| PyStr (s : string).

#[global] Instance PyVal_eq_dec : EqDecision PyVal.
Proof. solve_decision. Defined.

(** The arguments of a call: positional arguments in call order, and
    the keyword dictionary in the order the caller supplied the names
    (a Python dict keeps insertion order and has no repeated key). *)
Record Args : Type := MkArgs {
  a_args : list PyVal;
  a_kwargs : list (string * PyVal);
}.

#[global] Instance Args_eq_dec : EqDecision Args.
Proof. solve_decision. Defined.

(** [kwargs[k]] *)
Fixpoint dict_getitem (kwargs : list (string * PyVal)) (k : string) : option PyVal :=
  match kwargs with
  | [] => None
  | (k', v) :: rest => if decide (k' = k) then Some v else dict_getitem rest k
  end.

(** [sorted(kwargs)]: the names in increasing order, strings compared
    character by character. *)
Definition sorted (keys : list string) : list string :=
  merge_sort String.le keys.

(** ** Key derivation *)

Section KeyDeriver.
(** The built-in [hash] applied to a tuple. *)
Variable hash : list PyVal → Z.

(** The body of the loop [for k in kwargs_keys]: two appends.  Every
    [k] comes from the dictionary itself, so the lookup finds it. *)
Definition append_kwarg (kwargs : list (string * PyVal))
    (hash_values : list PyVal) (k : string) : list PyVal :=
  match dict_getitem kwargs k with
  | Some v => hash_values ++ [PyStr k; v]
  | None => hash_values ++ [PyStr k]
  end.

(** The list [hash_values] when the loop of [reduce_args] ends. *)
Definition hash_values (args : list PyVal) (kwargs : list (string * PyVal))
    : list PyVal :=
  let kwargs_keys := sorted kwargs.*1 in
  foldl (append_kwarg kwargs) args kwargs_keys.

Definition reduce_args (a : Args) : Z :=
  hash (hash_values (a_args a) (a_kwargs a)).
End KeyDeriver.

(** ** Objects on the heap *)

(** What a coroutine hands back to whoever drives it. *)
Inductive outcome (A : Type) : Type :=
| Returns (a : A)
| Raises (msg : string)
| Awaits.
Arguments Returns {A} a.
Arguments Raises {A} msg.
Arguments Awaits {A}.

(** The object the getter builds: like the class of the test suite it
    remembers its constructor arguments and counts the calls of its
    entry and exit routines. *)
Record Resource : Type := MkResource {
  r_args : Args;
  enter_called : nat;
  exit_called : nat;
}.

(** A timer handle of the event loop, as [loop.call_later] returns it.
    The callback of every handle made here is the closure [_delete] of
    [_mark_for_deletion], which only remembers [key]. *)
Record TimerHandle (K : Type) : Type := MkTimerHandle {
  th_when : nat;
  th_key : K;
  th_cancelled : bool;
  th_scheduled : bool;
}.
Arguments MkTimerHandle {K}.
Arguments th_when {K}.
Arguments th_key {K}.
Arguments th_cancelled {K}.
Arguments th_scheduled {K}.

(** A [_Holder].  [_value] is the address of the resource it wraps;
    [_cache] is the one pool of the world and is left out. *)
Record Holder (K Val : Type) : Type := MkHolder {
  _value : nat;
  _count : Z;
  _called_aenter : bool;
  _managed_value : option Val;
  _key : K;
}.
Arguments MkHolder {K Val}.
Arguments _value {K Val}.
Arguments _count {K Val}.
Arguments _called_aenter {K Val}.
Arguments _managed_value {K Val}.
Arguments _key {K Val}.

Section Model.
Context {K : Type} `{Countable K}.
Context {Val : Type}.

(** The pool, the objects it has created and the event loop it runs on.
    Objects are identified by their position in [resources], [holders]
    and [handles]; nothing is ever removed from these three lists. *)
Record World : Type := MkWorld {
  time : nat;
  resources : list Resource;
  holders : list (Holder K Val);
  handles : list (TimerHandle K);
  tasks : list K;
  entering : list nat;
  _instances : gmap K nat;
  _timers : gmap K nat;
}.

Definition set_time (f : nat → nat) (w : World) : World :=
  MkWorld (f (time w)) (resources w) (holders w) (handles w) (tasks w)
          (entering w) (_instances w) (_timers w).
Definition set_resources (f : list Resource → list Resource) (w : World) : World :=
  MkWorld (time w) (f (resources w)) (holders w) (handles w) (tasks w)
          (entering w) (_instances w) (_timers w).
Definition set_holders (f : list (Holder K Val) → list (Holder K Val))
    (w : World) : World :=
  MkWorld (time w) (resources w) (f (holders w)) (handles w) (tasks w)
          (entering w) (_instances w) (_timers w).
Definition set_handles (f : list (TimerHandle K) → list (TimerHandle K))
    (w : World) : World :=
  MkWorld (time w) (resources w) (holders w) (f (handles w)) (tasks w)
          (entering w) (_instances w) (_timers w).
Definition set_tasks (f : list K → list K) (w : World) : World :=
  MkWorld (time w) (resources w) (holders w) (handles w) (f (tasks w))
          (entering w) (_instances w) (_timers w).
Definition set_entering (f : list nat → list nat) (w : World) : World :=
  MkWorld (time w) (resources w) (holders w) (handles w) (tasks w)
          (f (entering w)) (_instances w) (_timers w).
Definition set_instances (f : gmap K nat → gmap K nat) (w : World) : World :=
  MkWorld (time w) (resources w) (holders w) (handles w) (tasks w)
          (entering w) (f (_instances w)) (_timers w).
Definition set_timers (f : gmap K nat → gmap K nat) (w : World) : World :=
  MkWorld (time w) (resources w) (holders w) (handles w) (tasks w)
          (entering w) (_instances w) (f (_timers w)).

(** [Pool.__init__]: both dictionaries empty; nothing allocated yet. *)
Definition init : World := MkWorld 0%nat [] [] [] [] [] ∅ ∅.

(** *** Field updates of the heap objects *)

Definition incr_enter (r : Resource) : Resource :=
  MkResource (r_args r) (S (enter_called r)) (exit_called r).
Definition incr_exit (r : Resource) : Resource :=
  MkResource (r_args r) (enter_called r) (S (exit_called r)).

Definition th_cancel (th : TimerHandle K) : TimerHandle K :=
  MkTimerHandle (th_when th) (th_key th) true (th_scheduled th).
Definition th_unschedule (th : TimerHandle K) : TimerHandle K :=
  MkTimerHandle (th_when th) (th_key th) (th_cancelled th) false.

Definition add_count (d : Z) (hd : Holder K Val) : Holder K Val :=
  MkHolder (_value hd) (_count hd + d) (_called_aenter hd)
           (_managed_value hd) (_key hd).
Definition mark_called (hd : Holder K Val) : Holder K Val :=
  MkHolder (_value hd) (_count hd) true (_managed_value hd) (_key hd).
Definition store_managed (r : option Val) (hd : Holder K Val) : Holder K Val :=
  MkHolder (_value hd) (_count hd) (_called_aenter hd) r (_key hd).

(** *** The event loop *)

(** [timer.cancel()] *)
Definition cancel (t : nat) (w : World) : World :=
  set_handles (alter th_cancel t) w.

(** [loop.call_later(delay, callback)] with the callback that deletes
    [key]: a new handle due at [loop.time() + delay]. *)
Definition call_later (delay : nat) (key : K) (w : World) : nat * World :=
  (length (handles w),
   set_handles (λ hs, hs ++ [MkTimerHandle (time w + delay)%nat key false true]) w).

(** Time passes. *)
Definition sleep (d : nat) (w : World) : World := set_time (λ t, (t + d)%nat) w.

(** The loop runs a due handle that was not cancelled.  The callback is
    [asyncio.create_task(self._delete(key))]: the task is created, and
    its coroutine starts at a later turn of the loop. *)
Definition fire (t : nat) (w : World) : option World :=
  th ← handles w !! t;
  if th_scheduled th && negb (th_cancelled th) && bool_decide (th_when th ≤ time w)%nat
  then Some (set_tasks (λ ts, ts ++ [th_key th])
               (set_handles (alter th_unschedule t) w))
  else None.

(** *** [Pool] and [_Holder] *)

Section Methods.
(** The constructor arguments [key] and [ttl] of the pool.  The
    getter is the constructor of [Resource]. *)
Variable key : Args → K.
Variable ttl : nat.

Definition _getter (a : Args) : Resource := MkResource a 0 0.

(** [_Holder.__init__] *)
Definition _Holder__init__ (k : K) (value : nat) : Holder K Val :=
  MkHolder value 0 false None k.

(** [Pool._stop_timer] *)
Definition _stop_timer (k : K) (w : World) : World :=
  match _timers w !! k with
  | Some timer => cancel timer (set_timers (delete k) w)
  | None => w
  end.

(** [Pool._mark_for_deletion] *)
Definition _mark_for_deletion (k : K) (w : World) : World :=
  let w := _stop_timer k w in
  let '(timer, w) := call_later ttl k w in
  set_timers (<[k := timer]>) w.

(** [Pool.get]; the result is the address of the holder. *)
Definition get (a : Args) (w : World) : nat * World :=
  let k := key a in
  let w := _stop_timer k w in
  match _instances w !! k with
  | Some h => (h, w)
  | None =>
      let value := length (resources w) in
      let h := length (holders w) in
      (h, set_instances (<[k := h]>)
            (set_holders (λ hs, hs ++ [_Holder__init__ k value])
               (set_resources (λ rs, rs ++ [_getter a]) w)))
  end.

(** The test [if self._managed_value is None] and what follows it. *)
Definition return_managed (hd : Holder K Val) : outcome Val :=
  match _managed_value hd with
  | None => Raises "Not possible?"
  | Some v => Returns v
  end.

(** [_Holder.__aenter__] up to its [await]: when the entry routine of
    the resource has to be called, it is called and the coroutine
    waits for its result; otherwise the coroutine runs to its end. *)
Definition _Holder__aenter__ (h : nat) (w : World) : option (outcome Val * World) :=
  hd ← holders w !! h;
  let hd := add_count 1 hd in
  if negb (_called_aenter hd) then
    let hd := mark_called hd in
    Some (Awaits,
          set_entering (λ l, h :: l)
            (set_resources (alter incr_enter (_value hd))
               (set_holders (<[h := hd]>) w)))
  else
    Some (return_managed hd, set_holders (<[h := hd]>) w).

(** [_Holder.__aenter__] from its [await] on: the entry routine has
    returned [r] ([None] for Python's [None]). *)
Definition _Holder__aenter__resume (h : nat) (r : option Val) (w : World)
    : option (outcome Val * World) :=
  if decide (h ∈ entering w) then
    hd ← holders w !! h;
    let hd := store_managed r hd in
    Some (return_managed hd,
          set_entering (λ l, list_difference l [h])
            (set_holders (<[h := hd]>) w))
  else None.

(** [_Holder.close]: the exit routine of the resource is called. *)
Definition close (hd : Holder K Val) (w : World) : World :=
  set_resources (alter incr_exit (_value hd)) w.

(** [_Holder.__aexit__] *)
Definition _Holder__aexit__ (h : nat) (w : World) : option (outcome unit * World) :=
  hd ← holders w !! h;
  let hd := add_count (-1) hd in
  let w := set_holders (<[h := hd]>) w in
  if decide (_count hd < 0) then
    Some (Raises "__aexit__ called too many times", w)
  else if decide (_count hd = 0) then
    Some (Returns (), _mark_for_deletion (_key hd) w)
  else
    Some (Returns (), w).

(** [Pool._delete], up to and including the call of the exit routine
    in [close]; nothing follows the [await] in it. *)
Definition _delete (k : K) (w : World) : World :=
  let w := _stop_timer k w in
  match _instances w !! k with
  | Some h =>
      let w := set_instances (delete k) w in
      match holders w !! h with
      | Some instance => close instance w
      | None => w
      end
  | None => w
  end.

(** [Pool.__len__] *)
Definition __len__ (w : World) : nat := size (_instances w).

(** Deletions one after the other, with nothing in between. *)
Definition drain (keys : list K) (w : World) : World :=
  foldl (λ w k, _delete k w) w keys.

(** Every key of the instance dictionary deleted, in one piece: what
    [Pool.__aexit__] below leaves when no exit routine raises and no
    other task runs meanwhile. *)
Definition drain_all (w : World) : World :=
  let keys := (map_to_list (_instances w)).*1 in
  drain keys w.

(** The holder of the entry [x] was made no later than that of [y]. *)
Definition filed_before (x y : K * nat) : Prop := (x.2 ≤ y.2)%nat.

#[local] Instance filed_before_dec : RelDecision filed_before :=
  λ x y, decide (x.2 ≤ y.2)%nat.

(** [list(self._instances)]: the keys in the order of their insertion.
    [get] files a new holder at an address above all earlier ones, and a
    key that is filed again after its deletion goes last, so this is the
    order of the addresses of the holders. *)
Definition dict_keys (m : gmap K nat) : list K :=
  (merge_sort filed_before (map_to_list m)).*1.

(** The loop starts the oldest task it has created. *)
Definition run_task (w : World) : option World :=
  match tasks w with
  | k :: rest => Some (_delete k (set_tasks (λ _, rest) w))
  | [] => None
  end.

(** *** Runs *)

(** What can happen next: a task calls [pool.get] ([Get]), starts
    [__aenter__] of a holder it has a reference to ([Enter]) or calls its
    [__aexit__] ([Exit]); the entry routine of a resource answers the
    coroutine that waits for it ([Entered]); the clock advances ([Tick]);
    the event loop runs the callback of a due timer ([Fire]) or starts a
    deletion task ([RunTask]); [Pool.__aexit__] runs one turn of its loop
    ([Drain]), or all turns in one piece when no exit routine raises and
    no other task runs in between ([Shutdown]). *)
Inductive label : Type :=
| Get (a : Args)
| Enter (h : nat)
| Entered (h : nat) (r : option Val)
| Exit (h : nat)
| Tick (d : nat)
| Fire (t : nat)
| RunTask
| Drain (k : K)
| Shutdown.

Definition exec (l : label) (w : World) : option World :=
  match l with
  | Get a => Some (get a w).2
  | Enter h => snd <$> _Holder__aenter__ h w
  | Entered h r => snd <$> _Holder__aenter__resume h r w
  | Exit h => snd <$> _Holder__aexit__ h w
  | Tick d => Some (sleep d w)
  | Fire t => fire t w
  | RunTask => run_task w
  | Drain k => Some (_delete k w)
  | Shutdown => Some (drain_all w)
  end.

Definition run (tr : list label) (w : World) : option World :=
  foldl (λ ow l, ow ≫= exec l) (Some w) tr.

Definition reachable (w : World) : Prop := ∃ tr, run tr init = Some w.

(** The loop [for k in keys: await self._delete(k)] of [Pool.__aexit__].
    A turn for a key that has no holder any more has nothing to wait
    for.  Otherwise [_delete] calls the exit routine of the resource
    and waits for it; meanwhile the other tasks of the event loop take
    the steps that [between] has for this turn, none when the exit
    routine does not suspend.  The exit routine is the caller's code:
    [exit_raises] tells for which resources it raises, and what; the
    exception leaves [_delete], the loop and the method.  There is no
    result when [between] has a step that cannot be taken. *)
Fixpoint delete_keys (exit_raises : nat → option string) (keys : list K)
    (between : list (list label)) (w : World) : option (outcome unit * World) :=
  match keys with
  | [] => Some (Returns (), w)
  | k :: keys =>
      let w' := _delete k w in
      match _instances w !! k ≫= (λ h, holders w !! h) with
      | Some instance =>
          w'' ← run (default [] (head between)) w';
          match exit_raises (_value instance) with
          | Some msg => Some (Raises msg, w'')
          | None => delete_keys exit_raises keys (tail between) w''
          end
      | None => delete_keys exit_raises keys (tail between) w'
      end
  end.

(** [Pool.__aexit__] *)
Definition Pool__aexit__ (exit_raises : nat → option string)
    (between : list (list label)) (w : World) : option (outcome unit * World) :=
  let keys := dict_keys (_instances w) in
  delete_keys exit_raises keys between w.
End Methods.
End Model.

Arguments World K {_ _} Val.
Arguments label K Val : clear implicits.

(** ** Properties of states and runs *)

Section Predicates.
Context {K : Type} `{Countable K}.
Context {Val : Type}.
Variable key : Args → K.
Variable ttl : nat.

Implicit Types (w : World K Val) (tr : list (label K Val)).

(** Shape of the heap: a holder and the resource it wraps are made
    together and share their address; the instance dictionary files
    every holder under its own key; the counters of a resource tell
    whether its holder has been entered and whether it is still filed. *)
Record heap_ok w : Prop := {
  heap_len : length (resources w) = length (holders w);
  heap_value : ∀ h hd, holders w !! h = Some hd → _value hd = h;
  heap_inst : ∀ k h, _instances w !! k = Some h →
    ∃ hd, holders w !! h = Some hd ∧ _key hd = k;
  heap_enter : ∀ h hd r, holders w !! h = Some hd → resources w !! h = Some r →
    enter_called r = if _called_aenter hd then 1%nat else 0%nat;
  heap_exit : ∀ h hd r, holders w !! h = Some hd → resources w !! h = Some r →
    exit_called r =
      if decide (_instances w !! _key hd = Some h) then 0%nat else 1%nat;
}.

(** The timer dictionary holds exactly the handles that were never
    cancelled, each under the key its callback deletes. *)
Record timers_ok w : Prop := {
  timers_handle : ∀ k t, _timers w !! k = Some t →
    ∃ th, handles w !! t = Some th ∧ th_key th = k ∧ th_cancelled th = false;
  handle_timers : ∀ t th, handles w !! t = Some th → th_cancelled th = false →
    _timers w !! th_key th = Some t;
}.

(** A coroutine waits in [__aenter__] only for a holder whose flag is
    set and whose value is not stored yet; a holder whose flag is not
    set has no value either. *)
Record entering_ok w : Prop := {
  enter_wait : ∀ h, h ∈ entering w →
    ∃ hd, holders w !! h = Some hd ∧ _called_aenter hd = true
          ∧ _managed_value hd = None;
  enter_fresh : ∀ h hd, holders w !! h = Some hd →
    _called_aenter hd = false → _managed_value hd = None;
}.

(** A handle keeps its key and its due time; once cancelled or taken
    off the schedule it stays so. *)
Definition handle_later (th th' : TimerHandle K) : Prop :=
  th_key th' = th_key th ∧ th_when th' = th_when th ∧
  (th_cancelled th = true → th_cancelled th' = true) ∧
  (th_scheduled th = false → th_scheduled th' = false).

Definition handles_later (hs hs' : list (TimerHandle K)) : Prop :=
  ∀ t th, hs !! t = Some th → ∃ th', hs' !! t = Some th' ∧ handle_later th th'.

(** A holder keeps its key and its resource; its flag stays set. *)
Definition holder_later (hd hd' : Holder K Val) : Prop :=
  _key hd' = _key hd ∧ _value hd' = _value hd ∧
  (_called_aenter hd = true → _called_aenter hd' = true).

Definition holders_later (hs hs' : list (Holder K Val)) : Prop :=
  ∀ h hd, hs !! h = Some hd → ∃ hd', hs' !! h = Some hd' ∧ holder_later hd hd'.

(** The entry routine of the holder has been called, no value is
    stored, and no call of it is in flight. *)
Definition entry_failed (h : nat) w : Prop :=
  ∃ hd, holders w !! h = Some hd ∧ _called_aenter hd = true
        ∧ _managed_value hd = None ∧ h ∉ entering w.

Definition is_Enter (h : nat) (l : label K Val) : bool :=
  match l with Enter h' => bool_decide (h' = h) | _ => false end.
Definition is_Exit (h : nat) (l : label K Val) : bool :=
  match l with Exit h' => bool_decide (h' = h) | _ => false end.
Definition is_Get (k : K) (l : label K Val) : bool :=
  match l with Get a => bool_decide (key a = k) | _ => false end.

(** How often [__aenter__] and [__aexit__] of a holder were called. *)
Definition acquisitions (h : nat) tr : Z :=
  Z.of_nat (length (filter (λ l, is_Enter h l) tr)).
Definition releases (h : nat) tr : Z :=
  Z.of_nat (length (filter (λ l, is_Exit h l) tr)).

(** The holder at address [h] is the one the instance dictionary has
    under its key: it has not left the pool. *)
Definition filed (h : nat) w : bool :=
  match holders w !! h with
  | Some hd => bool_decide (_instances w !! _key hd = Some h)
  | None => false
  end.

(** Along the run [tr] from [w], [__aexit__] is only called on holders
    that have not left the pool. *)
Fixpoint releases_filed tr w : bool :=
  match tr with
  | [] => true
  | l :: tr =>
      match l with Exit h => filed h w | _ => true end
      && match exec key ttl l w with
         | Some w' => releases_filed tr w'
         | None => true
         end
  end.

(** The run [tr] ends with the release that took the holder [h] from
    count one to zero, at time [t0], followed by the steps [tr2]. *)
Definition released_at tr (h : nat) (t0 : nat) tr2 : Prop :=
  ∃ tr1 w0 hd0,
    tr = tr1 ++ Exit h :: tr2 ∧
    run key ttl tr1 init = Some w0 ∧
    holders w0 !! h = Some hd0 ∧ _count hd0 = 1 ∧ time w0 = t0.

(** The step is a call of [pool.get]. *)
Definition calls_get (l : label K Val) : bool :=
  match l with Get _ => true | _ => false end.

(** The exit routine of every resource whose holder is filed returns. *)
Definition exits_return (exit_raises : nat → option string) w : Prop :=
  ∀ k h hd, _instances w !! k = Some h → holders w !! h = Some hd →
    exit_raises (_value hd) = None.

(** The steps that take a key out of the timer dictionary. *)
Definition drops_timer (l : label K Val) w (k : K) : Prop :=
  match l with
  | Get a => key a = k
  | RunTask => head (tasks w) = Some k
  | Drain k' => k' = k
  | Shutdown => is_Some (_instances w !! k)
  | _ => False
  end.
End Predicates.

(** ** A pool to run: integer keys from [reduce_args], and resources
    whose entry routine returns a number *)

Definition test_code (v : PyVal) : Z :=
  match v with
  | PyNone => 0
  | PyInt n => n
  | PyStr s => Z.of_nat (String.length s)
  end.

Definition test_hash (vs : list PyVal) : Z :=
  foldl (λ acc v, acc * 31 + test_code v) 7 vs.

Definition test_key : Args → Z := reduce_args test_hash.

Definition hello : Args := MkArgs [PyStr "hello"] [].

Definition test_run (ttl : nat) (tr : list (label Z nat)) : World Z nat :=
  default init (run test_key ttl tr init).

(** The same call with its two named arguments in either order. *)
Definition named_ab : Args :=
  MkArgs [PyStr "x"] [("a", PyInt 1); ("b", PyInt 2)]%string.
Definition named_ba : Args :=
  MkArgs [PyStr "x"] [("b", PyInt 2); ("a", PyInt 1)]%string.

(** Three positional arguments, and one positional with one named. *)
Definition positional_ab1 : Args := MkArgs [PyStr "a"; PyStr "b"; PyInt 1] [].
Definition named_b1 : Args := MkArgs [PyStr "a"] [("b", PyInt 1)]%string.

(** One use of the pool: [async with pool.get("hello")], the resource
    answering 7 on entry. *)
Definition acquire_release : list (label Z nat) :=
  [Get hello; Enter 0%nat; Entered 0%nat (Some 7%nat); Exit 0%nat].

(** The holder of ["hello"] as [get] makes it, and after that use. *)
Definition fresh_holder : Holder Z nat :=
  MkHolder 0 0 false None (test_key hello).
Definition used_holder : Holder Z nat :=
  MkHolder 0 0 true (Some 7%nat) (test_key hello).

(** A [get] alone; a release without acquisition; an entry routine that
    returns [None]. *)
Definition only_get : list (label Z nat) := [Get hello].
Definition release_unacquired : list (label Z nat) := [Get hello; Exit 0%nat].
Definition entry_returns_none : list (label Z nat) :=
  [Get hello; Enter 0%nat; Entered 0%nat None].

(** The holder is acquired again through a kept reference, without a new
    [get]; then the time-to-live of 30 passes and the timer fires. *)
Definition reacquire_without_get : list (label Z nat) :=
  [Enter 0%nat; Tick 30; Fire 0%nat].

(** A first [get] with named arguments, a use of the holder, and a wait
    shorter than the time-to-live. *)
Definition first_get : World Z nat := (get test_key named_ab init).2.
Definition use_then_wait : list (label Z nat) :=
  [Enter 0%nat; Entered 0%nat (Some 7%nat); Exit 0%nat; Tick 10].
Definition before_second_get : World Z nat :=
  default init (run test_key 30 use_then_wait first_get).

(** ** The pool as an object with slots *)

(** Reading or writing an attribute either works or raises
    [AttributeError]. *)
Inductive attr (A : Type) : Type :=
| Found (a : A)
| AttributeError (name : string).
Arguments Found {A} a.
Arguments AttributeError {A} name.

(** [Pool.__slots__]: a pool has these attributes and no others. *)
Definition __slots__ : list string :=
  ["_getter"; "_key"; "_instances"; "_timers"; "_ttl"; "_pickleable"]%string.

(** [d[k] = v] on a dictionary kept in insertion order: an existing key
    keeps its place, a new one goes last. *)
Definition dict_setitem {V : Type} (d : list (string * V)) (k : string) (v : V)
    : list (string * V) :=
  if decide (k ∈ d.*1)
  then (λ kv, if decide (kv.1 = k) then (k, v) else kv) <$> d
  else d ++ [(k, v)].

Section Slots.
Context {K : Type} `{Countable K}.

(** What the slots of a pool hold: the getter, the key function, the two
    dictionaries, the time-to-live, or some other Python value. *)
Inductive SlotVal : Type :=
| VGetter
| VKey (f : Args → K)
| VDict (d : gmap K nat)
| VTtl (n : nat)
| VPy (v : PyVal).

(** [getattr(self, name)]: a slot that was never assigned raises. *)
Definition getattr (self : gmap string SlotVal) (name : string) : attr SlotVal :=
  match self !! name with
  | Some v => Found v
  | None => AttributeError name
  end.

(** [setattr(self, name, v)]: only the slots can be assigned. *)
Definition setattr (self : gmap string SlotVal) (name : string) (v : SlotVal)
    : attr (gmap string SlotVal) :=
  if decide (name ∈ __slots__) then Found (<[name := v]> self)
  else AttributeError name.

(** The slots after [Pool.__init__]: five assignments. *)
Definition Pool__init__ (key : Args → K) (ttl : nat) : gmap string SlotVal :=
  <["_ttl" := VTtl ttl]>
    (<["_timers" := VDict ∅]>
       (<["_instances" := VDict ∅]>
          (<["_key" := VKey key]> (<["_getter" := VGetter]> ∅)))).

(** The pool object of a world: the slots as [__init__] left them, the
    two dictionaries with their present content. *)
Definition pool_object (key : Args → K) (ttl : nat) {Val : Type}
    (w : World K Val) : gmap string SlotVal :=
  <["_timers" := VDict (_timers w)]>
    (<["_instances" := VDict (_instances w)]> (Pool__init__ key ttl)).

(** The dictionary [{slot: getattr(self, slot) for slot in slots}]. *)
Fixpoint slots_state (self : gmap string SlotVal) (slots : list string)
    : attr (list (string * SlotVal)) :=
  match slots with
  | [] => Found []
  | slot :: rest =>
      match getattr self slot with
      | Found v =>
          match slots_state self rest with
          | Found state => Found ((slot, v) :: state)
          | AttributeError name => AttributeError name
          end
      | AttributeError name => AttributeError name
      end
  end.

(** [Pool.__getstate__] *)
Definition __getstate__ (self : gmap string SlotVal)
    : attr (list (string * SlotVal)) :=
  match slots_state self __slots__ with
  | Found state =>
      let blacklist := ["_instances"; "_timers"]%string in
      Found (foldl (λ state k, dict_setitem state k (VDict ∅)) state blacklist)
  | AttributeError name => AttributeError name
  end.

(** [Pool.__setstate__] *)
Definition __setstate__ (self : gmap string SlotVal)
    (state : list (string * SlotVal)) : attr (gmap string SlotVal) :=
  foldl (λ r kv,
           match r with
           | Found self => setattr self kv.1 kv.2
           | AttributeError name => AttributeError name
           end)
        (Found self) state.
End Slots.

Arguments SlotVal K {_ _}.

(** A pool of the test kind on which somebody has assigned the sixth
    slot. *)
Definition pickleable_pool : gmap string (SlotVal Z) :=
  <["_pickleable" := VPy PyNone]>
    (pool_object test_key 30 (test_run 30 acquire_release)).

(** The entry routine has been called and has not answered; the timer
    of the key has fired and its task waits; and what the tasks do in the
    29 time units after the release in [acquire_release]. *)
Definition entry_pending : list (label Z nat) := [Get hello; Enter 0%nat].
Definition timer_fired : list (label Z nat) :=
  acquire_release ++ [Tick 30; Fire 0%nat].
Definition within_ttl : list (label Z nat) :=
  [Tick 10; Get hello; Enter 0%nat; Exit 0%nat; Tick 19].

(** A second resource, and the pool with a holder for each of the two. *)
Definition goodbye : Args := MkArgs [PyStr "goodbye"] [].
Definition two_holders : list (label Z nat) := [Get hello; Get goodbye].

(** Exit routines: all of them return; the one of the first resource
    raises. *)
Definition exits_all_return (i : nat) : option string := None.
Definition first_exit_raises (i : nat) : option string :=
  if decide (i = 0%nat) then Some "exit failed"%string else None.

(** What another task does while [Pool.__aexit__] waits in its first
    turn: it acquires the holder it has, or it asks the pool for
    ["hello"]. *)
Definition acquire_meanwhile : list (list (label Z nat)) := [[Enter 0%nat]].
Definition get_meanwhile : list (list (label Z nat)) := [[Get hello]].

(** The holder is acquired again through the reference the caller kept,
    evicted when the timer fires, and released only then. *)
Definition released_after_eviction : list (label Z nat) :=
  acquire_release ++ [Enter 0%nat; Tick 30; Fire 0%nat; RunTask; Exit 0%nat].

(** The holder of ["hello"] is evicted while its caller still has it
    acquired; then another caller gets a new holder for ["hello"] and
    acquires it. *)
Definition evicted_in_use : list (label Z nat) :=
  acquire_release ++ [Enter 0%nat; Tick 30; Fire 0%nat; RunTask].
Definition second_holder_in_use : list (label Z nat) :=
  evicted_in_use ++ [Get hello; Enter 1%nat; Entered 1%nat (Some 8%nat)].

(** ** Lemmas on the key deriver *)

Lemma dict_getitem_elem_of kwargs k v :
  NoDup kwargs.*1 → (k, v) ∈ kwargs → dict_getitem kwargs k = Some v.
Proof.
  induction kwargs as [|[k' v'] rest IH]; simpl; intros Hnd Hin.
  - by apply elem_of_nil in Hin.
  - apply NoDup_cons in Hnd as [Hk' Hnd].
    apply elem_of_cons in Hin as [Heq|Hin].
    + simplify_eq. by rewrite decide_True.
    + rewrite decide_False; [by apply IH|].
      intros ->. apply Hk'. apply list_elem_of_fmap. by exists (k, v).
Qed.

Lemma dict_getitem_Some kwargs k v :
  dict_getitem kwargs k = Some v → (k, v) ∈ kwargs.
Proof.
  induction kwargs as [|[k' v'] rest IH]; simpl; [done|].
  case_decide; intros Hv.
  - simplify_eq. apply elem_of_cons. by left.
  - apply elem_of_cons. right. by apply IH.
Qed.

Lemma dict_getitem_perm kw1 kw2 k :
  NoDup kw1.*1 → kw1 ≡ₚ kw2 → dict_getitem kw1 k = dict_getitem kw2 k.
Proof.
  intros Hnd Hp.
  assert (NoDup kw2.*1) as Hnd2 by (by rewrite <- Hp).
  destruct (dict_getitem kw1 k) as [v|] eqn:H1.
  - symmetry. apply dict_getitem_elem_of; [done|].
    rewrite <- Hp. by apply dict_getitem_Some.
  - destruct (dict_getitem kw2 k) as [v|] eqn:H2; [|done].
    apply dict_getitem_Some in H2. rewrite <- Hp in H2.
    apply dict_getitem_elem_of in H2; [congruence|done].
Qed.

Lemma sorted_perm keys1 keys2 : keys1 ≡ₚ keys2 → sorted keys1 = sorted keys2.
Proof.
  intros Hp. unfold sorted.
  apply (Sorted_unique String.le).
  - apply Sorted_merge_sort; apply _.
  - apply Sorted_merge_sort; apply _.
  - by rewrite !merge_sort_Permutation.
Qed.

Lemma foldl_append_kwarg_ext kw1 kw2 acc keys :
  (∀ k, dict_getitem kw1 k = dict_getitem kw2 k) →
  foldl (append_kwarg kw1) acc keys = foldl (append_kwarg kw2) acc keys.
Proof.
  intros Hext. revert acc.
  induction keys as [|k keys IH]; intros acc; simpl; [done|].
  unfold append_kwarg at 2 4. rewrite Hext. apply IH.
Qed.

Lemma hash_values_kwargs_perm args kw1 kw2 :
  NoDup kw1.*1 → kw1 ≡ₚ kw2 → hash_values args kw1 = hash_values args kw2.
Proof.
  intros Hnd Hp. unfold hash_values.
  rewrite (sorted_perm kw1.*1 kw2.*1) by (by rewrite Hp).
  apply foldl_append_kwarg_ext. intros k. by apply dict_getitem_perm.
Qed.

(** ** Lemmas on runs and on the methods of the pool *)

Section Proofs.
Context {K : Type} `{Countable K}.
Context {Val : Type}.
Variable key : Args → K.
Variable ttl : nat.

Implicit Types (w : World K Val) (tr : list (label K Val)) (l : label K Val).
Implicit Types (k : K) (h t : nat).

Lemma run_None tr :
  foldl (λ ow l, ow ≫= exec key ttl l) (None : option (World K Val)) tr = None.
Proof. induction tr as [|l tr IH]; simpl; auto. Qed.

Lemma run_snoc tr l w :
  run key ttl (tr ++ [l]) w = run key ttl tr w ≫= exec key ttl l.
Proof. unfold run. by rewrite foldl_app. Qed.

Lemma run_cons l tr w :
  run key ttl (l :: tr) w = exec key ttl l w ≫= run key ttl tr.
Proof.
  unfold run. simpl. destruct (exec key ttl l w) as [w'|]; simpl; [done|].
  apply run_None.
Qed.

Lemma run_app tr1 tr2 w :
  run key ttl (tr1 ++ tr2) w = run key ttl tr1 w ≫= run key ttl tr2.
Proof.
  revert w. induction tr1 as [|l tr1 IH]; intros w; [done|].
  rewrite <- app_comm_cons, !run_cons.
  destruct (exec key ttl l w) as [w'|]; simpl; [apply IH|done].
Qed.

Lemma run_snoc_inv tr l w w' :
  run key ttl (tr ++ [l]) w = Some w' →
  ∃ wm, run key ttl tr w = Some wm ∧ exec key ttl l wm = Some w'.
Proof.
  rewrite run_snoc. destruct (run key ttl tr w) as [wm|]; [|done].
  simpl. eauto.
Qed.

(** Induction on the runs that start in the initial state. *)
Lemma run_ind (P : list (label K Val) → World K Val → Prop) :
  P [] init →
  (∀ tr l w w', run key ttl tr init = Some w → P tr w →
                exec key ttl l w = Some w' → P (tr ++ [l]) w') →
  ∀ tr w, run key ttl tr init = Some w → P tr w.
Proof.
  intros Hinit Hstep tr. induction tr as [|l tr IH] using rev_ind; intros w Hrun.
  - injection Hrun as <-. exact Hinit.
  - apply run_snoc_inv in Hrun as (wm & Hrun & Hex). eauto.
Qed.

Lemma reachable_ind (P : World K Val → Prop) :
  P init →
  (∀ l w w', reachable key ttl w → P w → exec key ttl l w = Some w' → P w') →
  ∀ w, reachable key ttl w → P w.
Proof.
  intros Hinit Hstep w [tr Hrun]. revert w Hrun.
  refine (run_ind (λ _ w, P w) Hinit _ tr).
  intros tr' l w w' Hrun HP Hex. eapply Hstep; eauto. by exists tr'.
Qed.

Lemma reachable_step l w w' :
  reachable key ttl w → exec key ttl l w = Some w' → reachable key ttl w'.
Proof.
  intros [tr Hrun] Hex. exists (tr ++ [l]). by rewrite run_snoc, Hrun.
Qed.

(** *** What each method leaves alone *)

Lemma _stop_timer_timers k w :
  _timers (_stop_timer k w) = delete k (_timers w).
Proof.
  unfold _stop_timer. destruct (_timers w !! k) eqn:Hk; simpl; [done|].
  by rewrite delete_id.
Qed.

Lemma _stop_timer_handles k w :
  handles (_stop_timer k w) =
    match _timers w !! k with
    | Some t => alter th_cancel t (handles w)
    | None => handles w
    end.
Proof. unfold _stop_timer. by destruct (_timers w !! k). Qed.

Lemma _stop_timer_frame k w :
  time (_stop_timer k w) = time w ∧
  resources (_stop_timer k w) = resources w ∧
  holders (_stop_timer k w) = holders w ∧
  tasks (_stop_timer k w) = tasks w ∧
  entering (_stop_timer k w) = entering w ∧
  _instances (_stop_timer k w) = _instances w.
Proof. unfold _stop_timer. by destruct (_timers w !! k). Qed.

Lemma _mark_for_deletion_frame k w :
  time (_mark_for_deletion ttl k w) = time w ∧
  resources (_mark_for_deletion ttl k w) = resources w ∧
  holders (_mark_for_deletion ttl k w) = holders w ∧
  tasks (_mark_for_deletion ttl k w) = tasks w ∧
  entering (_mark_for_deletion ttl k w) = entering w ∧
  _instances (_mark_for_deletion ttl k w) = _instances w.
Proof.
  unfold _mark_for_deletion, call_later. simpl.
  apply _stop_timer_frame.
Qed.

Lemma _mark_for_deletion_timers k w :
  _timers (_mark_for_deletion ttl k w) =
    <[k := length (handles (_stop_timer k w))]> (delete k (_timers w)).
Proof.
  unfold _mark_for_deletion, call_later. simpl. by rewrite _stop_timer_timers.
Qed.

Lemma _mark_for_deletion_handles k w :
  handles (_mark_for_deletion ttl k w) =
    handles (_stop_timer k w)
      ++ [MkTimerHandle (time w + ttl)%nat k false true].
Proof.
  unfold _mark_for_deletion, call_later. simpl.
  by destruct (_stop_timer_frame k w) as (-> & _).
Qed.

Lemma _delete_timers k w : _timers (_delete k w) = delete k (_timers w).
Proof.
  unfold _delete, close.
  destruct (_stop_timer_frame k w) as (_ & _ & Hh & _ & _ & Hi).
  rewrite Hi. destruct (_instances w !! k) as [h|]; simpl.
  - rewrite Hh. destruct (holders w !! h); simpl; apply _stop_timer_timers.
  - apply _stop_timer_timers.
Qed.

Lemma _delete_handles k w : handles (_delete k w) = handles (_stop_timer k w).
Proof.
  unfold _delete, close.
  destruct (_instances (_stop_timer k w) !! k) as [h|]; simpl; [|done].
  by destruct (holders (_stop_timer k w) !! h).
Qed.

Lemma _delete_instances k w : _instances (_delete k w) = delete k (_instances w).
Proof.
  unfold _delete, close.
  destruct (_stop_timer_frame k w) as (_ & _ & Hh & _ & _ & Hi).
  rewrite Hi. destruct (_instances w !! k) as [h|] eqn:Hk; simpl.
  - rewrite Hh. destruct (holders w !! h); simpl; by rewrite Hi.
  - by rewrite Hi, delete_id.
Qed.

Lemma _delete_frame k w :
  time (_delete k w) = time w ∧
  holders (_delete k w) = holders w ∧
  tasks (_delete k w) = tasks w ∧
  entering (_delete k w) = entering w.
Proof.
  unfold _delete, close.
  destruct (_stop_timer_frame k w) as (Ht & _ & Hh & Hta & He & Hi).
  destruct (_instances (_stop_timer k w) !! k) as [h|]; simpl; [|done].
  by destruct (holders (_stop_timer k w) !! h).
Qed.

Lemma _delete_resources k w :
  resources (_delete k w) =
    match _instances w !! k with
    | Some h =>
        match holders w !! h with
        | Some hd => alter incr_exit (_value hd) (resources w)
        | None => resources w
        end
    | None => resources w
    end.
Proof.
  unfold _delete, close.
  destruct (_stop_timer_frame k w) as (_ & Hr & Hh & _ & _ & Hi).
  rewrite Hi. destruct (_instances w !! k) as [h|]; simpl; [|done].
  rewrite Hh. destruct (holders w !! h); simpl; by rewrite Hr.
Qed.
(** *** The timer dictionary and the handles of the loop *)

Lemma timers_ok_frame w w' :
  handles w' = handles w → _timers w' = _timers w → timers_ok w → timers_ok w'.
Proof.
  intros Hh Ht [H1 H2]. split; rewrite Hh, Ht; auto.
Qed.

Lemma timers_ok_stop k w : timers_ok w → timers_ok (_stop_timer k w).
Proof.
  intros [H1 H2]. split.
  - intros k' t'. rewrite _stop_timer_timers, _stop_timer_handles.
    intros [Hne Hk']%lookup_delete_Some.
    destruct (H1 _ _ Hk') as (th' & Hth' & Hkey & Hc).
    exists th'. split_and!; [|done..].
    destruct (_timers w !! k) as [t|] eqn:Hk; [|done].
    rewrite list_lookup_alter_ne; [done|].
    intros ->. destruct (H1 _ _ Hk) as (th & Hth & Hkey2 & _). congruence.
  - intros t' th'. rewrite _stop_timer_timers, _stop_timer_handles.
    destruct (_timers w !! k) as [t|] eqn:Hk.
    + destruct (decide (t = t')) as [->|Hne].
      * rewrite list_lookup_alter_eq.
        destruct (handles w !! t'); simpl; [|done].
        intros [= <-]. done.
      * rewrite list_lookup_alter_ne by done. intros Hth' Hc.
        specialize (H2 _ _ Hth' Hc).
        rewrite lookup_delete_ne; [done|]. intros ->. congruence.
    + intros Hth' Hc. specialize (H2 _ _ Hth' Hc).
      rewrite lookup_delete_ne; [done|]. intros ->. congruence.
Qed.

Lemma timers_ok_mark k w : timers_ok w → timers_ok (_mark_for_deletion ttl k w).
Proof.
  intros Hok%(timers_ok_stop k). destruct Hok as [H1 H2].
  assert (_timers (_stop_timer k w) !! k = None) as Hnone.
  { rewrite _stop_timer_timers. apply lookup_delete_eq. }
  split.
  - intros k' t'.
    rewrite _mark_for_deletion_timers, _mark_for_deletion_handles.
    rewrite <- _stop_timer_timers.
    intros [[<- <-]|[Hne Hk']]%lookup_insert_Some.
    + eexists. split; [apply list_lookup_middle; done|done].
    + destruct (H1 _ _ Hk') as (th' & Hth' & Hkey & Hc).
      exists th'. split_and!; [|done..]. by apply lookup_app_l_Some.
  - intros t' th'.
    rewrite _mark_for_deletion_timers, _mark_for_deletion_handles.
    rewrite <- _stop_timer_timers.
    intros [Hth'|[Hlen Hth']]%lookup_app_Some Hc.
    + specialize (H2 _ _ Hth' Hc).
      rewrite lookup_insert_ne; [done|]. intros Heq. congruence.
    + destruct (t' - length (handles (_stop_timer k w)))%nat eqn:Hd; [|done].
      simpl in Hth'. injection Hth' as <-. simpl.
      rewrite lookup_insert_eq. f_equal. lia.
Qed.

Lemma timers_ok_delete k w : timers_ok w → timers_ok (_delete k w).
Proof.
  intros Hok%(timers_ok_stop k). revert Hok. apply timers_ok_frame.
  - apply _delete_handles.
  - by rewrite _delete_timers, _stop_timer_timers.
Qed.

Lemma timers_ok_drain (ks : list K) w :
  timers_ok w → timers_ok (foldl (λ w k, _delete k w) w ks).
Proof.
  revert w. induction ks as [|k ks IH]; intros w Hok; simpl; [done|].
  by apply IH, timers_ok_delete.
Qed.

Lemma timers_ok_fire t w w' : fire t w = Some w' → timers_ok w → timers_ok w'.
Proof.
  unfold fire. destruct (handles w !! t) as [th|] eqn:Hth; simpl; [|done].
  case_match; [|done]. intros [= <-] [H1 H2]. split; simpl.
  - intros k' t' Hk'. destruct (H1 _ _ Hk') as (th' & Hth' & Hkey & Hc).
    destruct (decide (t = t')) as [->|Hne].
    + exists (th_unschedule th'). by rewrite list_lookup_alter_eq, Hth'.
    + exists th'. by rewrite list_lookup_alter_ne.
  - intros t' th'. destruct (decide (t = t')) as [->|Hne].
    + rewrite list_lookup_alter_eq, Hth. simpl. intros [= <-]. simpl.
      intros Hc. by apply H2.
    + rewrite list_lookup_alter_ne by done. apply H2.
Qed.
Lemma timers_ok_exec l w w' :
  exec key ttl l w = Some w' → timers_ok w → timers_ok w'.
Proof.
  destruct l as [a|h|h r|h|d|t| |k| ]; simpl.
  - intros [= <-] Hok%(timers_ok_stop (key a)). unfold get.
    destruct (_instances (_stop_timer (key a) w) !! key a); simpl; [done|].
    revert Hok. by apply timers_ok_frame.
  - unfold _Holder__aenter__. destruct (holders w !! h) as [hd|]; simpl; [|done].
    destruct (_called_aenter hd); simpl; intros [= <-]; by apply timers_ok_frame.
  - unfold _Holder__aenter__resume. case_decide; [|done].
    destruct (holders w !! h) as [hd|]; simpl; [|done].
    intros [= <-]; by apply timers_ok_frame.
  - unfold _Holder__aexit__. destruct (holders w !! h) as [hd|]; simpl; [|done].
    repeat case_decide; simpl; intros [= <-] Hok.
    + revert Hok. by apply timers_ok_frame.
    + apply timers_ok_mark. revert Hok. by apply timers_ok_frame.
    + revert Hok. by apply timers_ok_frame.
  - intros [= <-]. by apply timers_ok_frame.
  - apply timers_ok_fire.
  - unfold run_task. destruct (tasks w) as [|k rest]; [done|].
    intros [= <-] Hok. apply timers_ok_delete. revert Hok.
    by apply timers_ok_frame.
  - intros [= <-]. apply timers_ok_delete.
  - intros [= <-]. apply timers_ok_drain.
Qed.

Lemma timers_ok_init : timers_ok (init : World K Val).
Proof. split; simpl; intros ??; [by rewrite lookup_empty|done]. Qed.

Lemma reachable_timers_ok w : reachable key ttl w → timers_ok w.
Proof.
  apply reachable_ind; [apply timers_ok_init|].
  intros l w1 w2 _ Hok Hex. by eapply timers_ok_exec.
Qed.
(** *** The heap of holders and resources *)

Lemma heap_ok_frame w w' :
  resources w' = resources w → holders w' = holders w →
  _instances w' = _instances w → heap_ok w → heap_ok w'.
Proof.
  intros Hr Hh Hi [H1 H2 H3 H4 H5].
  split; rewrite ?Hr, ?Hh, ?Hi; auto.
Qed.

Lemma heap_ok_init : heap_ok (init : World K Val).
Proof. split; simpl; done. Qed.

(** A write to the fields of a holder that the heap shape does not
    mention. *)
Lemma heap_ok_set_holder h hd hd' w :
  holders w !! h = Some hd →
  _value hd' = _value hd → _key hd' = _key hd →
  _called_aenter hd' = _called_aenter hd →
  heap_ok w → heap_ok (set_holders (<[h := hd']>) w).
Proof.
  intros Hh Hv Hk Hc [H1 H2 H3 H4 H5]. split; simpl.
  - by rewrite length_insert.
  - intros h' x [(<- & <- & _)|[Hne Hx]]%list_lookup_insert_Some.
    + rewrite Hv. eauto.
    + eauto.
  - intros k h' Hk'. destruct (H3 _ _ Hk') as (x & Hx & Hkx).
    destruct (decide (h = h')) as [<-|Hne].
    + exists hd'. rewrite list_lookup_insert_eq by (by eapply lookup_lt_Some).
      split; [done|]. congruence.
    + exists x. by rewrite list_lookup_insert_ne.
  - intros h' x r [(<- & <- & _)|[Hne Hx]]%list_lookup_insert_Some Hr.
    + rewrite Hc. eauto.
    + eauto.
  - intros h' x r [(<- & <- & _)|[Hne Hx]]%list_lookup_insert_Some Hr.
    + rewrite Hk. eauto.
    + eauto.
Qed.

(** The first [__aenter__]: the flag is set and the entry routine of the
    resource is called. *)
Lemma heap_ok_first_enter h hd w :
  holders w !! h = Some hd → _called_aenter hd = false →
  heap_ok w →
  heap_ok (set_resources (alter incr_enter (_value hd))
             (set_holders (<[h := mark_called (add_count 1 hd)]>) w)).
Proof.
  intros Hh Hc [H1 H2 H3 H4 H5].
  assert (_value hd = h) as Hv by eauto.
  split; simpl.
  - by rewrite length_alter, length_insert.
  - intros h' x [(<- & <- & _)|[Hne Hx]]%list_lookup_insert_Some; simpl; eauto.
  - intros k h' Hk'. destruct (H3 _ _ Hk') as (x & Hx & Hkx).
    destruct (decide (h = h')) as [<-|Hne].
    + eexists. rewrite list_lookup_insert_eq by (by eapply lookup_lt_Some).
      split; [done|]. simpl. congruence.
    + exists x. by rewrite list_lookup_insert_ne.
  - rewrite Hv.
    intros h' x r [(<- & <- & _)|[Hne Hx]]%list_lookup_insert_Some.
    + rewrite list_lookup_alter_eq.
      destruct (resources w !! h) as [r0|] eqn:Hr0; simpl; [|done].
      intros [= <-]. simpl. rewrite (H4 _ _ _ Hh Hr0), Hc. done.
    + rewrite list_lookup_alter_ne by done. eauto.
  - rewrite Hv.
    intros h' x r [(<- & <- & _)|[Hne Hx]]%list_lookup_insert_Some.
    + rewrite list_lookup_alter_eq.
      destruct (resources w !! h) as [r0|] eqn:Hr0; simpl; [|done].
      intros [= <-]. simpl. eauto.
    + rewrite list_lookup_alter_ne by done. eauto.
Qed.

(** [get] for a key that has no holder. *)
Lemma heap_ok_create a k w :
  _instances w !! k = None → heap_ok w →
  heap_ok (set_instances (<[k := length (holders w)]>)
             (set_holders (λ hs, hs ++ [_Holder__init__ k (length (resources w))])
                (set_resources (λ rs, rs ++ [_getter a]) w))).
Proof.
  intros Hk [H1 H2 H3 H4 H5]. split; simpl.
  - rewrite !length_app. simpl. lia.
  - intros h x [Hx|[Hlen Hx]]%lookup_app_Some; [eauto|].
    destruct (h - length (holders w))%nat eqn:Hd; [|done].
    simpl in Hx. injection Hx as <-. simpl. lia.
  - intros k' h [[<- <-]|[Hne Hk']]%lookup_insert_Some.
    + eexists. split; [apply list_lookup_middle; done|done].
    + destruct (H3 _ _ Hk') as (x & Hx & Hkx).
      exists x. split; [by apply lookup_app_l_Some|done].
  - intros h x r [Hx|[Hlen Hx]]%lookup_app_Some.
    + intros [Hr|[Hlen Hr]]%lookup_app_Some; [eauto|].
      apply lookup_lt_Some in Hx. lia.
    + intros [Hr|[_ Hr]]%lookup_app_Some.
      { apply lookup_lt_Some in Hr. lia. }
      rewrite H1 in Hr.
      destruct (h - length (holders w))%nat eqn:Hd; [|done].
      simpl in Hx, Hr. by injection Hx as <-; injection Hr as <-.
  - intros h x r [Hx|[Hlen Hx]]%lookup_app_Some.
    + intros [Hr|[Hlen Hr]]%lookup_app_Some.
      2:{ apply lookup_lt_Some in Hx. lia. }
      rewrite (H5 _ _ _ Hx Hr).
      destruct (decide (_key x = k)) as [Heq|Hne].
      * rewrite Heq, Hk, lookup_insert_eq.
        apply lookup_lt_Some in Hx.
        rewrite decide_False by congruence.
        rewrite decide_False; [done|]. intros [= ?]. lia.
      * by rewrite lookup_insert_ne.
    + intros [Hr|[_ Hr]]%lookup_app_Some.
      { apply lookup_lt_Some in Hr. lia. }
      rewrite H1 in Hr.
      destruct (h - length (holders w))%nat eqn:Hd; [|done].
      simpl in Hx, Hr. injection Hx as <-; injection Hr as <-. simpl.
      rewrite lookup_insert_eq. rewrite decide_True; [done|]. f_equal. lia.
Qed.

Lemma heap_ok_delete k w : heap_ok w → heap_ok (_delete k w).
Proof.
  intros Hok.
  destruct (_delete_frame k w) as (_ & Hh & _ & _).
  pose proof (_delete_resources k w) as Hr.
  pose proof (_delete_instances k w) as Hi.
  destruct (_instances w !! k) as [h|] eqn:Hk.
  2:{ revert Hok. apply heap_ok_frame; [done..|]. by rewrite Hi, delete_id. }
  destruct Hok as [H1 H2 H3 H4 H5].
  destruct (H3 _ _ Hk) as (hd & Hhd & Hkey).
  rewrite Hhd, (H2 _ _ Hhd) in Hr.
  split; rewrite ?Hr, ?Hh, ?Hi.
  - by rewrite length_alter.
  - done.
  - intros k' h' [Hne Hk']%lookup_delete_Some. eauto.
  - intros h' x r Hx. destruct (decide (h = h')) as [<-|Hne].
    + rewrite list_lookup_alter_eq.
      destruct (resources w !! h) as [r0|] eqn:Hr0; simpl; [|done].
      intros [= <-]. simpl. eauto.
    + rewrite list_lookup_alter_ne by done. eauto.
  - intros h' x r Hx. destruct (decide (h = h')) as [<-|Hne].
    + rewrite list_lookup_alter_eq.
      destruct (resources w !! h) as [r0|] eqn:Hr0; simpl; [|done].
      intros [= <-]. simpl. rewrite (H5 _ _ _ Hhd Hr0).
      assert (x = hd) as -> by congruence.
      rewrite Hkey, Hk, lookup_delete_eq.
      rewrite decide_True by done. by rewrite decide_False.
    + rewrite list_lookup_alter_ne by done. intros Hr'.
      rewrite (H5 _ _ _ Hx Hr').
      destruct (decide (_key x = k)) as [Heq|Hnk].
      * rewrite Heq, Hk, lookup_delete_eq.
        rewrite decide_False by congruence. by rewrite decide_False.
      * by rewrite lookup_delete_ne.
Qed.

Lemma heap_ok_drain (ks : list K) w :
  heap_ok w → heap_ok (foldl (λ w k, _delete k w) w ks).
Proof.
  revert w. induction ks as [|k ks IH]; intros w Hok; simpl; [done|].
  by apply IH, heap_ok_delete.
Qed.
Lemma heap_ok_exec l w w' :
  exec key ttl l w = Some w' → heap_ok w → heap_ok w'.
Proof.
  destruct l as [a|h|h r|h|d|t| |k| ]; simpl.
  - intros [= <-] Hok. unfold get.
    destruct (_stop_timer_frame (key a) w) as (_ & Hr & Hh & _ & _ & Hi).
    assert (heap_ok (_stop_timer (key a) w)) as Hok1
      by (revert Hok; by apply heap_ok_frame).
    destruct (_instances (_stop_timer (key a) w) !! key a) eqn:Hk; simpl; [done|].
    by apply heap_ok_create.
  - unfold _Holder__aenter__.
    destruct (holders w !! h) as [hd|] eqn:Hhd; simpl; [|done].
    destruct (_called_aenter hd) eqn:Hc; simpl; intros [= <-] Hok.
    + by eapply heap_ok_set_holder.
    + eapply heap_ok_frame; [..|by apply (heap_ok_first_enter h hd w)]; done.
  - unfold _Holder__aenter__resume. case_decide; [|done].
    destruct (holders w !! h) as [hd|] eqn:Hhd; simpl; [|done].
    intros [= <-] Hok.
    eapply heap_ok_frame;
      [..|by apply (heap_ok_set_holder h hd (store_managed r hd) w)]; done.
  - unfold _Holder__aexit__.
    destruct (holders w !! h) as [hd|] eqn:Hhd; simpl; [|done].
    intros Hex Hok.
    pose proof (heap_ok_set_holder h hd (add_count (-1) hd) w Hhd
                  eq_refl eq_refl eq_refl Hok) as Hok1.
    repeat case_decide; simpl in Hex; injection Hex as <-; try done.
    revert Hok1.
    destruct (_mark_for_deletion_frame (_key hd)
                (set_holders (<[h := add_count (-1) hd]>) w))
      as (_ & Hr & Hh & _ & _ & Hi).
    by apply heap_ok_frame.
  - intros [= <-]. by apply heap_ok_frame.
  - unfold fire. destruct (handles w !! t) as [th|]; simpl; [|done].
    case_match; [|done]. intros [= <-]. by apply heap_ok_frame.
  - unfold run_task. destruct (tasks w) as [|k rest]; [done|].
    intros [= <-] Hok. apply heap_ok_delete. revert Hok.
    by apply heap_ok_frame.
  - intros [= <-]. apply heap_ok_delete.
  - intros [= <-]. apply heap_ok_drain.
Qed.

Lemma reachable_heap_ok w : reachable key ttl w → heap_ok w.
Proof.
  apply reachable_ind; [apply heap_ok_init|].
  intros l w1 w2 _ Hok Hex. by eapply heap_ok_exec.
Qed.

(** *** What never goes back: handles, holders, the clock *)

Lemma handle_later_refl (th : TimerHandle K) : handle_later th th.
Proof. by repeat split. Qed.

Lemma handles_later_refl (hs : list (TimerHandle K)) : handles_later hs hs.
Proof. intros t th Hth. exists th. split; [done|apply handle_later_refl]. Qed.

Lemma handles_later_trans (hs1 hs2 hs3 : list (TimerHandle K)) :
  handles_later hs1 hs2 → handles_later hs2 hs3 → handles_later hs1 hs3.
Proof.
  intros H12 H23 t th Hth.
  destruct (H12 _ _ Hth) as (th2 & Hth2 & Hk2 & Hw2 & Hc2 & Hs2).
  destruct (H23 _ _ Hth2) as (th3 & Hth3 & Hk3 & Hw3 & Hc3 & Hs3).
  exists th3. split; [done|]. repeat split; try congruence; auto.
Qed.

Lemma handles_later_alter (f : TimerHandle K → TimerHandle K) t0
    (hs : list (TimerHandle K)) :
  (∀ th, handle_later th (f th)) → handles_later hs (alter f t0 hs).
Proof.
  intros Hf t th Hth. destruct (decide (t0 = t)) as [->|Hne].
  - exists (f th). by rewrite list_lookup_alter_eq, Hth.
  - exists th. rewrite list_lookup_alter_ne by done.
    split; [done|apply handle_later_refl].
Qed.

Lemma handles_later_app (hs extra : list (TimerHandle K)) :
  handles_later hs (hs ++ extra).
Proof.
  intros t th Hth. exists th.
  split; [by apply lookup_app_l_Some|apply handle_later_refl].
Qed.

Lemma handles_later_stop k w : handles_later (handles w) (handles (_stop_timer k w)).
Proof.
  rewrite _stop_timer_handles. destruct (_timers w !! k) as [t|].
  - apply handles_later_alter. intros th. by repeat split.
  - apply handles_later_refl.
Qed.

Lemma handles_later_mark k w :
  handles_later (handles w) (handles (_mark_for_deletion ttl k w)).
Proof.
  rewrite _mark_for_deletion_handles.
  eapply handles_later_trans; [apply handles_later_stop|apply handles_later_app].
Qed.

Lemma handles_later_delete k w : handles_later (handles w) (handles (_delete k w)).
Proof. rewrite _delete_handles. apply handles_later_stop. Qed.

Lemma handles_later_drain (ks : list K) w :
  handles_later (handles w) (handles (foldl (λ w k, _delete k w) w ks)).
Proof.
  revert w. induction ks as [|k ks IH]; intros w; simpl.
  - apply handles_later_refl.
  - eapply handles_later_trans; [apply handles_later_delete|apply IH].
Qed.

Lemma handles_later_exec l w w' :
  exec key ttl l w = Some w' → handles_later (handles w) (handles w').
Proof.
  destruct l as [a|h|h r|h|d|t| |k| ]; simpl.
  - intros [= <-]. unfold get.
    destruct (_instances (_stop_timer (key a) w) !! key a); simpl;
      apply handles_later_stop.
  - unfold _Holder__aenter__. destruct (holders w !! h) as [hd|]; simpl; [|done].
    destruct (_called_aenter hd); simpl; intros [= <-]; apply handles_later_refl.
  - unfold _Holder__aenter__resume. case_decide; [|done].
    destruct (holders w !! h) as [hd|]; simpl; [|done].
    intros [= <-]; apply handles_later_refl.
  - unfold _Holder__aexit__. destruct (holders w !! h) as [hd|]; simpl; [|done].
    repeat case_decide; simpl; intros [= <-]; try apply handles_later_refl.
    apply (handles_later_mark (_key hd)
             (set_holders (<[h := add_count (-1) hd]>) w)).
  - intros [= <-]. apply handles_later_refl.
  - unfold fire. destruct (handles w !! t) as [th|]; simpl; [|done].
    case_match; [|done]. intros [= <-]. simpl.
    apply handles_later_alter. intros th'. by repeat split.
  - unfold run_task. destruct (tasks w) as [|k rest]; [done|].
    intros [= <-]. apply (handles_later_delete k (set_tasks (λ _, rest) w)).
  - intros [= <-]. apply handles_later_delete.
  - intros [= <-]. apply handles_later_drain.
Qed.

Lemma handles_later_run tr w w' :
  run key ttl tr w = Some w' → handles_later (handles w) (handles w').
Proof.
  revert w'. induction tr as [|l tr IH] using rev_ind; intros w'.
  - intros [= <-]. apply handles_later_refl.
  - intros (wm & Hrun & Hex)%run_snoc_inv.
    eapply handles_later_trans; [by apply IH|by eapply handles_later_exec].
Qed.

Lemma _delete_drain_frame (ks : list K) w :
  time (foldl (λ w k, _delete k w) w ks) = time w ∧
  holders (foldl (λ w k, _delete k w) w ks) = holders w ∧
  tasks (foldl (λ w k, _delete k w) w ks) = tasks w ∧
  entering (foldl (λ w k, _delete k w) w ks) = entering w.
Proof.
  revert w. induction ks as [|k ks IH]; intros w; simpl; [done|].
  destruct (IH (_delete k w)) as (-> & -> & -> & ->). apply _delete_frame.
Qed.

Lemma time_exec l w w' : exec key ttl l w = Some w' → (time w ≤ time w')%nat.
Proof.
  destruct l as [a|h|h r|h|d|t| |k| ]; simpl.
  - intros [= <-]. unfold get.
    destruct (_stop_timer_frame (key a) w) as (Ht & _).
    destruct (_instances (_stop_timer (key a) w) !! key a); simpl; lia.
  - unfold _Holder__aenter__. destruct (holders w !! h) as [hd|]; simpl; [|done].
    destruct (_called_aenter hd); simpl; by intros [= <-].
  - unfold _Holder__aenter__resume. case_decide; [|done].
    destruct (holders w !! h) as [hd|]; simpl; [|done]. by intros [= <-].
  - unfold _Holder__aexit__. destruct (holders w !! h) as [hd|]; simpl; [|done].
    repeat case_decide; simpl; intros [= <-]; try done.
    by destruct (_mark_for_deletion_frame (_key hd)
                (set_holders (<[h := add_count (-1) hd]>) w)) as (-> & _).
  - intros [= <-]. simpl. lia.
  - unfold fire. destruct (handles w !! t) as [th|]; simpl; [|done].
    case_match; [|done]. by intros [= <-].
  - unfold run_task. destruct (tasks w) as [|k rest]; [done|].
    intros [= <-].
    by destruct (_delete_frame k (set_tasks (λ _, rest) w)) as (-> & _).
  - intros [= <-]. by destruct (_delete_frame k w) as (-> & _).
  - intros [= <-]. unfold drain_all, drain.
    by destruct (_delete_drain_frame (map_to_list (_instances w)).*1 w) as (-> & _).
Qed.

Lemma time_run tr w w' : run key ttl tr w = Some w' → (time w ≤ time w')%nat.
Proof.
  revert w'. induction tr as [|l tr IH] using rev_ind; intros w'.
  - by intros [= <-].
  - intros (wm & Hrun & Hex)%run_snoc_inv.
    etrans; [by apply IH|by eapply time_exec].
Qed.

(** *** Holders along a run *)

Lemma holder_later_refl (hd : Holder K Val) : holder_later hd hd.
Proof. by repeat split. Qed.

Lemma holders_later_refl (hs : list (Holder K Val)) : holders_later hs hs.
Proof. intros h hd Hh. exists hd. split; [done|apply holder_later_refl]. Qed.

Lemma holders_later_trans (hs1 hs2 hs3 : list (Holder K Val)) :
  holders_later hs1 hs2 → holders_later hs2 hs3 → holders_later hs1 hs3.
Proof.
  intros H12 H23 h hd Hh.
  destruct (H12 _ _ Hh) as (hd2 & Hh2 & Hk2 & Hv2 & Hc2).
  destruct (H23 _ _ Hh2) as (hd3 & Hh3 & Hk3 & Hv3 & Hc3).
  exists hd3. split; [done|]. repeat split; try congruence; auto.
Qed.

Lemma holders_later_insert h0 hd0 hd0' (hs : list (Holder K Val)) :
  hs !! h0 = Some hd0 → holder_later hd0 hd0' →
  holders_later hs (<[h0 := hd0']> hs).
Proof.
  intros Hh0 Hl h hd Hh. destruct (decide (h0 = h)) as [->|Hne].
  - exists hd0'. rewrite list_lookup_insert_eq by (by eapply lookup_lt_Some).
    split; [done|]. congruence.
  - exists hd. rewrite list_lookup_insert_ne by done.
    split; [done|apply holder_later_refl].
Qed.

Lemma holders_later_exec l w w' :
  exec key ttl l w = Some w' → holders_later (holders w) (holders w').
Proof.
  destruct l as [a|h|h r|h|d|t| |k| ]; simpl.
  - intros [= <-]. unfold get.
    destruct (_stop_timer_frame (key a) w) as (_ & _ & Hh & _).
    destruct (_instances (_stop_timer (key a) w) !! key a); simpl; rewrite Hh.
    + apply holders_later_refl.
    + intros h hd Hhd. exists hd.
      split; [by apply lookup_app_l_Some|apply holder_later_refl].
  - unfold _Holder__aenter__.
    destruct (holders w !! h) as [hd|] eqn:Hhd; simpl; [|done].
    destruct (_called_aenter hd); simpl; intros [= <-]; simpl;
      by eapply holders_later_insert.
  - unfold _Holder__aenter__resume. case_decide; [|done].
    destruct (holders w !! h) as [hd|] eqn:Hhd; simpl; [|done].
    intros [= <-]; simpl. by eapply holders_later_insert.
  - unfold _Holder__aexit__.
    destruct (holders w !! h) as [hd|] eqn:Hhd; simpl; [|done].
    repeat case_decide; simpl; intros [= <-];
      rewrite ?(proj1 (proj2 (proj2 (_mark_for_deletion_frame _ _)))); simpl;
      by eapply holders_later_insert.
  - intros [= <-]. apply holders_later_refl.
  - unfold fire. destruct (handles w !! t) as [th|]; simpl; [|done].
    case_match; [|done]. intros [= <-]. apply holders_later_refl.
  - unfold run_task. destruct (tasks w) as [|k rest]; [done|].
    intros [= <-].
    destruct (_delete_frame k (set_tasks (λ _, rest) w)) as (_ & -> & _).
    apply holders_later_refl.
  - intros [= <-]. destruct (_delete_frame k w) as (_ & -> & _).
    apply holders_later_refl.
  - intros [= <-]. unfold drain_all, drain.
    destruct (_delete_drain_frame (map_to_list (_instances w)).*1 w)
      as (_ & -> & _).
    apply holders_later_refl.
Qed.

Lemma holders_later_run tr w w' :
  run key ttl tr w = Some w' → holders_later (holders w) (holders w').
Proof.
  revert w'. induction tr as [|l tr IH] using rev_ind; intros w'.
  - intros [= <-]. apply holders_later_refl.
  - intros (wm & Hrun & Hex)%run_snoc_inv.
    eapply holders_later_trans; [by apply IH|by eapply holders_later_exec].
Qed.

Lemma holders_later_length (hs hs' : list (Holder K Val)) :
  holders_later hs hs' → (length hs ≤ length hs')%nat.
Proof.
  intros Hl. destruct (decide (length hs ≤ length hs')%nat) as [|Hgt]; [done|].
  destruct (lookup_lt_is_Some_2 hs (length hs')) as [hd Hhd]; [lia|].
  destruct (Hl _ _ Hhd) as (hd' & Hhd' & _).
  apply lookup_lt_Some in Hhd'. lia.
Qed.

(** *** Coroutines waiting in [__aenter__] *)

Lemma entering_ok_frame w w' :
  holders w' = holders w → entering w' = entering w →
  entering_ok w → entering_ok w'.
Proof. intros Hh He [H1 H2]. split; rewrite ?Hh, ?He; auto. Qed.

Lemma entering_ok_set_holder h hd hd' w :
  holders w !! h = Some hd →
  _called_aenter hd' = _called_aenter hd →
  _managed_value hd' = _managed_value hd →
  entering_ok w → entering_ok (set_holders (<[h := hd']>) w).
Proof.
  intros Hh Hc Hm [H1 H2]. split; simpl.
  - intros h' Hin. destruct (H1 _ Hin) as (x & Hx & Hcx & Hmx).
    destruct (decide (h = h')) as [<-|Hne].
    + exists hd'. rewrite list_lookup_insert_eq by (by eapply lookup_lt_Some).
      split; [done|]. split; congruence.
    + exists x. by rewrite list_lookup_insert_ne.
  - intros h' x [(<- & <- & _)|[Hne Hx]]%list_lookup_insert_Some; [|eauto].
    rewrite Hc, Hm. eauto.
Qed.

Lemma entering_ok_exec l w w' :
  exec key ttl l w = Some w' → entering_ok w → entering_ok w'.
Proof.
  destruct l as [a|h|h r|h|d|t| |k| ]; simpl.
  - intros [= <-]. unfold get.
    destruct (_stop_timer_frame (key a) w) as (_ & _ & Hh & _ & He & _).
    destruct (_instances (_stop_timer (key a) w) !! key a); simpl.
    + by apply entering_ok_frame.
    + intros [H1 H2]. split; simpl; rewrite ?Hh, ?He.
      * intros h Hin. destruct (H1 _ Hin) as (x & Hx & Hcx & Hmx).
        exists x. split; [by apply lookup_app_l_Some|done].
      * intros h x [Hx|[Hlen Hx]]%lookup_app_Some; [eauto|].
        destruct (h - length (holders w))%nat; [|done].
        simpl in Hx. by injection Hx as <-.
  - unfold _Holder__aenter__.
    destruct (holders w !! h) as [hd|] eqn:Hhd; simpl; [|done].
    destruct (_called_aenter hd) eqn:Hc; simpl; intros [= <-].
    + by apply entering_ok_set_holder with hd.
    + intros [H1 H2]. split; simpl.
      * intros h' [->|Hin]%elem_of_cons.
        -- eexists. rewrite list_lookup_insert_eq by (by eapply lookup_lt_Some).
           split; [done|]. simpl. eauto.
        -- destruct (H1 _ Hin) as (x & Hx & Hcx & Hmx).
           assert (h ≠ h') as Hne by (intros ->; congruence).
           exists x. by rewrite list_lookup_insert_ne.
      * intros h' x [(<- & <- & _)|[Hne Hx]]%list_lookup_insert_Some; [|eauto].
        done.
  - unfold _Holder__aenter__resume. case_decide as Hin; [|done].
    destruct (holders w !! h) as [hd|] eqn:Hhd; simpl; [|done].
    intros [= <-] [H1 H2]. split; simpl.
    + intros h' [Hin' Hne]%list_elem_of_difference.
      destruct (H1 _ Hin') as (x & Hx & Hcx & Hmx).
      exists x. rewrite list_lookup_insert_ne; [done|].
      intros ->. apply Hne. by apply list_elem_of_singleton.
    + intros h' x [(<- & <- & _)|[Hne Hx]]%list_lookup_insert_Some; [|eauto].
      simpl. destruct (H1 _ Hin) as (x & Hx & Hcx & Hmx). congruence.
  - unfold _Holder__aexit__.
    destruct (holders w !! h) as [hd|] eqn:Hhd; simpl; [|done].
    intros Hex Hok.
    pose proof (entering_ok_set_holder h hd (add_count (-1) hd) w Hhd
                  eq_refl eq_refl Hok) as Hok1.
    repeat case_decide; simpl in Hex; injection Hex as <-; try done.
    revert Hok1.
    destruct (_mark_for_deletion_frame (_key hd)
                (set_holders (<[h := add_count (-1) hd]>) w))
      as (_ & _ & Hh & _ & He & _).
    by apply entering_ok_frame.
  - intros [= <-]. by apply entering_ok_frame.
  - unfold fire. destruct (handles w !! t) as [th|]; simpl; [|done].
    case_match; [|done]. intros [= <-]. by apply entering_ok_frame.
  - unfold run_task. destruct (tasks w) as [|k rest]; [done|].
    intros [= <-].
    destruct (_delete_frame k (set_tasks (λ _, rest) w)) as (_ & Hh & _ & He).
    by apply entering_ok_frame.
  - intros [= <-]. destruct (_delete_frame k w) as (_ & Hh & _ & He).
    by apply entering_ok_frame.
  - intros [= <-]. unfold drain_all, drain.
    destruct (_delete_drain_frame (map_to_list (_instances w)).*1 w)
      as (_ & Hh & _ & He).
    by apply entering_ok_frame.
Qed.

Lemma reachable_entering_ok w : reachable key ttl w → entering_ok w.
Proof.
  apply reachable_ind.
  - split; simpl; [|done]. intros h Hin. by apply elem_of_nil in Hin.
  - intros l w1 w2 _ Hok Hex. by eapply entering_ok_exec.
Qed.

(** *** Counting acquisitions and releases *)

Lemma acquisitions_snoc h tr l :
  acquisitions h (tr ++ [l]) =
    acquisitions h tr + (if is_Enter h l then 1 else 0).
Proof.
  unfold acquisitions. rewrite filter_app, length_app.
  rewrite filter_cons, filter_nil. destruct (is_Enter h l); simpl; lia.
Qed.

Lemma releases_snoc h tr l :
  releases h (tr ++ [l]) = releases h tr + (if is_Exit h l then 1 else 0).
Proof.
  unfold releases. rewrite filter_app, length_app.
  rewrite filter_cons, filter_nil. destruct (is_Exit h l); simpl; lia.
Qed.

Lemma acquisitions_nonneg h tr : 0 ≤ acquisitions h tr.
Proof. unfold acquisitions. lia. Qed.

(** One step, seen from a holder of the new state: either it was there
    before, and the step moved its count and its flag as the label
    says, or [get] has just made it. *)
Lemma exec_holder l w w' h hd' :
  exec key ttl l w = Some w' → holders w' !! h = Some hd' →
  (∃ hd, holders w !! h = Some hd ∧
     _count hd' = _count hd + (if is_Enter h l then 1 else 0)
                            - (if is_Exit h l then 1 else 0) ∧
     _called_aenter hd' = _called_aenter hd || is_Enter h l ∧
     (_managed_value hd' = _managed_value hd
      ∨ h ∈ entering w ∧ ∃ r, l = Entered h r))
  ∨ (holders w !! h = None ∧ _count hd' = 0 ∧ _called_aenter hd' = false
     ∧ is_Enter h l = false ∧ is_Exit h l = false).
Proof.
  assert (∀ hd : Holder K Val, _count hd = _count hd + 0 - 0 ∧
            _called_aenter hd = _called_aenter hd || false ∧
            (_managed_value hd = _managed_value hd
             ∨ h ∈ entering w ∧ ∃ r, l = Entered h r)) as Hsame.
  { intros hd. split; [lia|]. split; [by rewrite orb_false_r|by left]. }
  destruct l as [a|h0 |h0 r|h0 |d|t| |k| ]; simpl.
  - intros [= <-]. unfold get.
    destruct (_stop_timer_frame (key a) w) as (_ & _ & Hh & _).
    destruct (_instances (_stop_timer (key a) w) !! key a); simpl; rewrite Hh.
    + intros Hhd. left. exists hd'. split; [done|apply Hsame].
    + intros [Hhd|[Hlen Hhd]]%lookup_app_Some.
      * left. exists hd'. split; [done|apply Hsame].
      * right. destruct (h - length (holders w))%nat; [|done].
        simpl in Hhd. injection Hhd as <-.
        split; [by apply lookup_ge_None_2|done].
  - unfold _Holder__aenter__.
    destruct (holders w !! h0) as [hd0|] eqn:Hhd0; simpl; [|done].
    destruct (_called_aenter hd0) eqn:Hc; simpl; intros [= <-]; simpl.
    all: intros [(<- & <- & _)|[Hne Hhd]]%list_lookup_insert_Some; left.
    all: try (exists hd0; rewrite bool_decide_eq_true_2 by done; simpl;
              rewrite ?Hc; split; [done|split; [lia|split; [done|by left]]]).
    all: exists hd'; rewrite bool_decide_eq_false_2 by done;
         split; [done|apply Hsame].
  - unfold _Holder__aenter__resume. case_decide as Hin; [|done].
    destruct (holders w !! h0) as [hd0|] eqn:Hhd0; simpl; [|done].
    intros [= <-]; simpl.
    intros [(<- & <- & _)|[Hne Hhd]]%list_lookup_insert_Some; left.
    + exists hd0. split; [done|]. simpl. split; [lia|].
      split; [by rewrite orb_false_r|]. right. eauto.
    + exists hd'. split; [done|apply Hsame].
  - unfold _Holder__aexit__.
    destruct (holders w !! h0) as [hd0|] eqn:Hhd0; simpl; [|done].
    intros Hex Hhd.
    assert (holders w' = <[h0 := add_count (-1) hd0]> (holders w)) as Hw'.
    { repeat case_decide; simpl in Hex; injection Hex as <-; try done.
      by destruct (_mark_for_deletion_frame (_key hd0)
                  (set_holders (<[h0 := add_count (-1) hd0]>) w))
        as (_ & _ & -> & _). }
    rewrite Hw' in Hhd.
    apply list_lookup_insert_Some in Hhd as [(<- & <- & _)|[Hne Hhd]]; left.
    + exists hd0. rewrite bool_decide_eq_true_2 by done. simpl.
      split; [done|]. split; [lia|]. split; [by rewrite orb_false_r|by left].
    + exists hd'. rewrite bool_decide_eq_false_2 by done.
      split; [done|apply Hsame].
  - intros [= <-] Hhd. left. exists hd'. split; [done|apply Hsame].
  - unfold fire. destruct (handles w !! t) as [th|]; simpl; [|done].
    case_match; [|done]. intros [= <-] Hhd. left.
    exists hd'. split; [done|apply Hsame].
  - unfold run_task. destruct (tasks w) as [|k rest]; [done|].
    intros [= <-].
    destruct (_delete_frame k (set_tasks (λ _, rest) w)) as (_ & -> & _).
    intros Hhd. left. exists hd'. split; [done|apply Hsame].
  - intros [= <-]. destruct (_delete_frame k w) as (_ & -> & _).
    intros Hhd. left. exists hd'. split; [done|apply Hsame].
  - intros [= <-]. unfold drain_all, drain.
    destruct (_delete_drain_frame (map_to_list (_instances w)).*1 w)
      as (_ & -> & _).
    intros Hhd. left. exists hd'. split; [done|apply Hsame].
Qed.

(** A label that names a holder only runs when the holder exists. *)
Lemma exec_names_holder l w w' h :
  exec key ttl l w = Some w' → is_Enter h l || is_Exit h l = true →
  is_Some (holders w !! h).
Proof.
  destruct l as [a|h0 |h0 r|h0 |d|t| |k| ]; simpl; try done.
  - unfold _Holder__aenter__. rewrite orb_false_r.
    intros Hex ->%bool_decide_eq_true.
    destruct (holders w !! h); [eauto|done].
  - unfold _Holder__aexit__.
    intros Hex ->%bool_decide_eq_true.
    destruct (holders w !! h); [eauto|done].
Qed.

Lemma count_along_run tr w :
  run key ttl tr init = Some w →
  (∀ h hd, holders w !! h = Some hd →
     _count hd = acquisitions h tr - releases h tr ∧
     _called_aenter hd = bool_decide (0 < acquisitions h tr)) ∧
  (∀ h, holders w !! h = None → acquisitions h tr = 0 ∧ releases h tr = 0).
Proof.
  revert tr w. apply run_ind.
  - split; [done|]. intros h _. done.
  - intros tr l w w' Hrun [IH1 IH2] Hex. split.
    + intros h hd' Hhd'. rewrite acquisitions_snoc, releases_snoc.
      destruct (exec_holder _ _ _ _ _ Hex Hhd')
        as [(hd & Hhd & Hc & Hf & _)|(Hnone & Hc & Hf & He & Hx)].
      * destruct (IH1 _ _ Hhd) as [IHc IHf]. split; [lia|].
        rewrite Hf, IHf. pose proof (acquisitions_nonneg h tr).
        destruct (is_Enter h l); simpl.
        -- rewrite orb_true_r. symmetry. apply bool_decide_eq_true_2. lia.
        -- rewrite orb_false_r. apply bool_decide_ext. lia.
      * destruct (IH2 _ Hnone) as [-> ->]. rewrite He, Hx, Hc, Hf. done.
    + intros h Hnone. rewrite acquisitions_snoc, releases_snoc.
      assert (holders w !! h = None) as Hnone0.
      { destruct (holders w !! h) as [hd|] eqn:Hhd; [|done].
        destruct (holders_later_exec _ _ _ Hex _ _ Hhd) as (? & ? & _).
        congruence. }
      destruct (IH2 _ Hnone0) as [-> ->].
      destruct (is_Enter h l || is_Exit h l) eqn:Hl.
      * destruct (exec_names_holder _ _ _ _ Hex Hl) as [? ?]. congruence.
      * apply orb_false_elim in Hl as [-> ->]. done.
Qed.

(** ** The holder: acquisition and release *)

(** C6: a holder's count is the number of calls of [__aenter__] minus
    the number of calls of [__aexit__] made on it so far, and a call of
    [__aexit__] raises the runtime error exactly when the holder has
    already been released as often as it was acquired, whatever run of
    acquisitions and releases led there; otherwise it returns. *)
Theorem release_beyond_acquisitions_raises tr w h hd :
  run key ttl tr init = Some w → holders w !! h = Some hd →
  _count hd = acquisitions h tr - releases h tr ∧
  (acquisitions h tr ≤ releases h tr →
     ∃ w', _Holder__aexit__ ttl h w
           = Some (Raises "__aexit__ called too many times", w')) ∧
  (releases h tr < acquisitions h tr →
     ∃ w', _Holder__aexit__ ttl h w = Some (Returns (), w')).
Proof.
  intros Hrun Hhd.
  destruct (count_along_run _ _ Hrun) as [Hcount _].
  destruct (Hcount _ _ Hhd) as [Hc _].
  split; [done|]. unfold _Holder__aexit__. rewrite Hhd. simpl.
  split; intros Hle.
  - rewrite decide_True by lia. eauto.
  - rewrite decide_False by lia. case_decide; eauto.
Qed.

Lemma entry_failed_exec l w w' h :
  exec key ttl l w = Some w' → entry_failed h w → entry_failed h w'.
Proof.
  intros Hex (hd & Hhd & Hc & Hm & Hin).
  assert (∃ hd', holders w' !! h = Some hd' ∧ _called_aenter hd' = true
                 ∧ _managed_value hd' = None) as (hd' & Hhd' & Hc' & Hm').
  { destruct l as [a|h0 |h0 r|h0 |d|t| |k| ]; simpl in Hex.
    - injection Hex as <-. unfold get.
      destruct (_stop_timer_frame (key a) w) as (_ & _ & Hh & _).
      destruct (_instances (_stop_timer (key a) w) !! key a); simpl; rewrite Hh.
      + eauto.
      + exists hd. split; [by apply lookup_app_l_Some|done].
    - unfold _Holder__aenter__ in Hex.
      destruct (holders w !! h0) as [hd0|] eqn:Hhd0; simpl in Hex; [|done].
      destruct (decide (h0 = h)) as [->|Hne].
      + assert (hd0 = hd) as -> by congruence. rewrite Hc in Hex.
        simpl in Hex. injection Hex as <-. simpl.
        eexists. rewrite list_lookup_insert_eq by (by eapply lookup_lt_Some).
        split; [done|]. simpl. eauto.
      + exists hd.
        destruct (_called_aenter hd0); simpl in Hex; injection Hex as <-;
          simpl; by rewrite list_lookup_insert_ne.
    - unfold _Holder__aenter__resume in Hex. case_decide as Hin0; [|done].
      destruct (holders w !! h0) as [hd0|] eqn:Hhd0; simpl in Hex; [|done].
      injection Hex as <-. simpl. exists hd.
      rewrite list_lookup_insert_ne; [done|]. by intros ->.
    - unfold _Holder__aexit__ in Hex.
      destruct (holders w !! h0) as [hd0|] eqn:Hhd0; simpl in Hex; [|done].
      assert (holders w' = <[h0 := add_count (-1) hd0]> (holders w)) as ->.
      { repeat case_decide; simpl in Hex; injection Hex as <-; try done.
        by destruct (_mark_for_deletion_frame (_key hd0)
                    (set_holders (<[h0 := add_count (-1) hd0]>) w))
          as (_ & _ & -> & _). }
      destruct (decide (h0 = h)) as [->|Hne].
      + assert (hd0 = hd) as -> by congruence.
        eexists. rewrite list_lookup_insert_eq by (by eapply lookup_lt_Some).
        split; [done|]. simpl. eauto.
      + exists hd. by rewrite list_lookup_insert_ne.
    - injection Hex as <-. eauto.
    - unfold fire in Hex. destruct (handles w !! t) as [th|]; simpl in Hex; [|done].
      case_match; [|done]. injection Hex as <-. eauto.
    - unfold run_task in Hex. destruct (tasks w) as [|k rest]; [done|].
      injection Hex as <-.
      destruct (_delete_frame k (set_tasks (λ _, rest) w)) as (_ & -> & _).
      eauto.
    - injection Hex as <-. destruct (_delete_frame k w) as (_ & -> & _). eauto.
    - injection Hex as <-. unfold drain_all, drain.
      destruct (_delete_drain_frame (map_to_list (_instances w)).*1 w)
        as (_ & -> & _).
      eauto. }
  exists hd'. split_and!; [done..|].
  destruct l as [a|h0 |h0 r|h0 |d|t| |k| ]; simpl in Hex.
  - injection Hex as <-. unfold get.
    destruct (_stop_timer_frame (key a) w) as (_ & _ & _ & _ & He & _).
    destruct (_instances (_stop_timer (key a) w) !! key a); simpl; by rewrite He.
  - unfold _Holder__aenter__ in Hex.
    destruct (holders w !! h0) as [hd0|] eqn:Hhd0; simpl in Hex; [|done].
    destruct (_called_aenter hd0) eqn:Hc0; simpl in Hex; injection Hex as <-;
      simpl; [done|].
    intros [->|?]%elem_of_cons; [congruence|done].
  - unfold _Holder__aenter__resume in Hex. case_decide as Hin0; [|done].
    destruct (holders w !! h0) as [hd0|] eqn:Hhd0; simpl in Hex; [|done].
    injection Hex as <-. simpl. by intros [? _]%list_elem_of_difference.
  - unfold _Holder__aexit__ in Hex.
    destruct (holders w !! h0) as [hd0|] eqn:Hhd0; simpl in Hex; [|done].
    repeat case_decide; simpl in Hex; injection Hex as <-; try done.
    by destruct (_mark_for_deletion_frame (_key hd0)
                (set_holders (<[h0 := add_count (-1) hd0]>) w))
      as (_ & _ & _ & _ & -> & _).
  - by injection Hex as <-.
  - unfold fire in Hex. destruct (handles w !! t) as [th|]; simpl in Hex; [|done].
    case_match; [|done]. by injection Hex as <-.
  - unfold run_task in Hex. destruct (tasks w) as [|k rest]; [done|].
    injection Hex as <-.
    by destruct (_delete_frame k (set_tasks (λ _, rest) w)) as (_ & _ & _ & ->).
  - injection Hex as <-. by destruct (_delete_frame k w) as (_ & _ & _ & ->).
  - injection Hex as <-. unfold drain_all, drain.
    by destruct (_delete_drain_frame (map_to_list (_instances w)).*1 w)
      as (_ & _ & _ & ->).
Qed.

Lemma entry_failed_run tr w w' h :
  run key ttl tr w = Some w' → entry_failed h w → entry_failed h w'.
Proof.
  revert w'. induction tr as [|l tr IH] using rev_ind; intros w'.
  - by intros [= <-].
  - intros (wm & Hrun & Hex)%run_snoc_inv Hf.
    eapply entry_failed_exec; [done|]. by apply IH.
Qed.

(** An acquisition of a holder whose entry left no value. *)
Lemma entry_failed_aenter w h :
  entry_failed h w →
  ∃ hd w' hd', holders w !! h = Some hd ∧
    _Holder__aenter__ h w = Some (Raises "Not possible?", w') ∧
    holders w' !! h = Some hd' ∧ _count hd' = _count hd + 1 ∧
    resources w' = resources w.
Proof.
  intros (hd & Hhd & Hc & Hm & Hin). exists hd.
  unfold _Holder__aenter__. rewrite Hhd. simpl. rewrite Hc. simpl.
  unfold return_managed. simpl. rewrite Hm.
  eexists _, (add_count 1 hd). split; [done|]. split; [done|]. simpl.
  split; [|done].
  by rewrite list_lookup_insert_eq by (by eapply lookup_lt_Some).
Qed.

(** C10: when the entry routine of the resource returns no value, the
    first acquisition raises the runtime error with the flag set and the
    count incremented; after that, in every state the program can reach,
    an acquisition of this holder raises again, increments the count
    again and does not call the entry routine. *)
Theorem absent_entry_value_keeps_raising w h hd :
  holders w !! h = Some hd → _called_aenter hd = false →
  ∃ w1 w2 hd2,
    _Holder__aenter__ h w = Some (Awaits, w1) ∧
    _Holder__aenter__resume h None w1 = Some (Raises "Not possible?", w2) ∧
    holders w2 !! h = Some hd2 ∧
    _called_aenter hd2 = true ∧ _count hd2 = _count hd + 1 ∧
    ∀ tr w3, run key ttl tr w2 = Some w3 →
      ∃ hd3 w4 hd4, holders w3 !! h = Some hd3 ∧
        _Holder__aenter__ h w3 = Some (Raises "Not possible?", w4) ∧
        holders w4 !! h = Some hd4 ∧ _count hd4 = _count hd3 + 1 ∧
        resources w4 = resources w3.
Proof.
  intros Hhd Hc. pose proof (lookup_lt_Some _ _ _ Hhd) as Hlt.
  unfold _Holder__aenter__ at 1. rewrite Hhd. simpl. rewrite Hc. simpl.
  eexists _, _, _. split; [done|].
  unfold _Holder__aenter__resume. simpl.
  rewrite decide_True by (apply elem_of_cons; by left).
  rewrite list_lookup_insert_eq by done. simpl.
  split; [done|]. simpl.
  rewrite list_insert_insert_eq.
  rewrite list_lookup_insert_eq by done.
  split; [done|]. split; [done|]. split; [done|].
  intros tr w3 Hrun. apply entry_failed_aenter.
  eapply entry_failed_run; [done|].
  exists (store_managed None (mark_called (add_count 1 hd))). simpl.
  rewrite list_insert_insert_eq, list_lookup_insert_eq by done.
  split_and!; [done..|].
  change (h ∉ list_difference (h :: entering w) [h]).
  intros [_ Hn]%list_elem_of_difference. by apply Hn, list_elem_of_singleton.
Qed.

Lemma reachable_run tr w w' :
  reachable key ttl w → run key ttl tr w = Some w' → reachable key ttl w'.
Proof.
  intros [tr0 Hrun0] Hrun. exists (tr0 ++ tr). by rewrite run_app, Hrun0.
Qed.

(** The value stored by the first acquisition is never replaced. *)
Lemma managed_stable_run tr w w' h hd v :
  reachable key ttl w → run key ttl tr w = Some w' →
  holders w !! h = Some hd → _managed_value hd = Some v →
  ∃ hd', holders w' !! h = Some hd' ∧ _managed_value hd' = Some v.
Proof.
  intros Hreach. revert w'.
  induction tr as [|l tr IH] using rev_ind; intros w'.
  - intros [= <-]. eauto.
  - intros (wm & Hrun & Hex)%run_snoc_inv Hhd Hm.
    destruct (IH _ Hrun Hhd Hm) as (hdm & Hhdm & Hmm).
    destruct (holders_later_exec _ _ _ Hex _ _ Hhdm) as (hd' & Hhd' & _).
    exists hd'. split; [done|].
    destruct (exec_holder _ _ _ _ _ Hex Hhd')
      as [(hd0 & Hhd0 & _ & _ & Hcase)|(Hnone & _)]; [|congruence].
    assert (hd0 = hdm) as -> by congruence.
    destruct Hcase as [->|[Hin _]]; [done|].
    pose proof (reachable_entering_ok _ (reachable_run _ _ _ Hreach Hrun)) as Hok.
    destruct (enter_wait _ Hok _ Hin) as (x & Hx & _ & Hnone). congruence.
Qed.

(** C2, as the code has it: the entry routine of a holder's resource has
    been called once if the holder was ever acquired and not at all
    otherwise; the first acquisition calls it and stores what it
    returns; no later acquisition calls it; and once a value is stored,
    every acquisition returns that value, which is never replaced. *)
Theorem entry_invoked_on_first_acquisition_only tr w h hd :
  run key ttl tr init = Some w → holders w !! h = Some hd →
  (∃ r, resources w !! _value hd = Some r ∧
        enter_called r =
          if decide (acquisitions h tr = 0) then 0%nat else 1%nat) ∧
  (acquisitions h tr = 0 →
     ∃ w1 r1, _Holder__aenter__ h w = Some (Awaits, w1) ∧
       resources w1 !! _value hd = Some r1 ∧ enter_called r1 = 1%nat ∧
       ∀ v, ∃ w2 hd2,
         _Holder__aenter__resume h (Some v) w1 = Some (Returns v, w2) ∧
         holders w2 !! h = Some hd2 ∧ _managed_value hd2 = Some v) ∧
  (0 < acquisitions h tr →
     ∀ o w', _Holder__aenter__ h w = Some (o, w') → resources w' = resources w) ∧
  (∀ v, _managed_value hd = Some v →
     (∃ w', _Holder__aenter__ h w = Some (Returns v, w') ∧
            resources w' = resources w) ∧
     ∀ tr' w', run key ttl tr' w = Some w' →
       ∃ hd', holders w' !! h = Some hd' ∧ _managed_value hd' = Some v).
Proof.
  intros Hrun Hhd.
  assert (reachable key ttl w) as Hreach by (by exists tr).
  pose proof (reachable_heap_ok _ Hreach) as Hheap.
  pose proof (reachable_entering_ok _ Hreach) as Hent.
  destruct (count_along_run _ _ Hrun) as [Hcount _].
  destruct (Hcount _ _ Hhd) as [_ Hflag].
  pose proof (acquisitions_nonneg h tr) as Hnn.
  pose proof (heap_value _ Hheap _ _ Hhd) as Hv.
  pose proof (lookup_lt_Some _ _ _ Hhd) as Hlt.
  destruct (lookup_lt_is_Some_2 (resources w) h) as [r Hr].
  { by rewrite (heap_len _ Hheap). }
  pose proof (heap_enter _ Hheap _ _ _ Hhd Hr) as Henter.
  rewrite Hv. split_and!.
  - exists r. split; [done|]. rewrite Henter, Hflag.
    destruct (decide (acquisitions h tr = 0)) as [Hz|Hz].
    + by rewrite bool_decide_eq_false_2 by lia.
    + by rewrite bool_decide_eq_true_2 by lia.
  - intros Hzero. rewrite bool_decide_eq_false_2 in Hflag by lia.
    unfold _Holder__aenter__. rewrite Hhd. simpl. rewrite Hflag. simpl.
    eexists _, _. split; [done|]. simpl. rewrite Hv.
    rewrite list_lookup_alter_eq, Hr. simpl. split; [done|].
    split; [simpl; by rewrite Henter, Hflag|].
    intros v. unfold _Holder__aenter__resume. simpl.
    rewrite decide_True by (apply elem_of_cons; by left).
    rewrite list_lookup_insert_eq by done. simpl.
    eexists _, _. split; [done|]. simpl.
    rewrite list_insert_insert_eq, list_lookup_insert_eq by done. done.
  - intros Hpos o w'. rewrite bool_decide_eq_true_2 in Hflag by done.
    unfold _Holder__aenter__. rewrite Hhd. simpl. rewrite Hflag. simpl.
    by intros [= <- <-].
  - intros v Hm. split.
    + assert (_called_aenter hd = true) as Hc.
      { destruct (_called_aenter hd) eqn:Hc; [done|].
        rewrite (enter_fresh _ Hent _ _ Hhd Hc) in Hm. done. }
      unfold _Holder__aenter__. rewrite Hhd. simpl. rewrite Hc. simpl.
      unfold return_managed. simpl. rewrite Hm. eauto.
    + intros tr' w' Hrun'. by eapply managed_stable_run.
Qed.

(** ** The pool: [get] *)

Lemma get_live a w h :
  _instances w !! key a = Some h →
  get key a w = (h, _stop_timer (key a) w).
Proof.
  intros Hk. unfold get.
  destruct (_stop_timer_frame (key a) w) as (_ & _ & _ & _ & _ & ->).
  by rewrite Hk.
Qed.

Lemma get_fresh a w :
  _instances w !! key a = None →
  get key a w =
    (length (holders w),
     set_instances (<[key a := length (holders w)]>)
       (set_holders (λ hs, hs ++ [_Holder__init__ (key a) (length (resources w))])
          (set_resources (λ rs, rs ++ [_getter a]) (_stop_timer (key a) w)))).
Proof.
  intros Hk. unfold get.
  destruct (_stop_timer_frame (key a) w) as (_ & Hr & Hh & _ & _ & Hi).
  by rewrite Hi, Hk, Hr, Hh.
Qed.

Lemma get_instances a w :
  _instances (get key a w).2 !! key a = Some (get key a w).1.
Proof.
  destruct (_instances w !! key a) as [h|] eqn:Hk.
  - rewrite (get_live _ _ _ Hk). simpl.
    by destruct (_stop_timer_frame (key a) w) as (_ & _ & _ & _ & _ & ->).
  - rewrite (get_fresh _ _ Hk). simpl. apply lookup_insert_eq.
Qed.

Lemma drain_instances_back (ks : list K) w k h :
  _instances (foldl (λ w k, _delete k w) w ks) !! k = Some h →
  _instances w !! k = Some h.
Proof.
  revert w. induction ks as [|k0 ks IH]; intros w; simpl; [done|].
  intros Hk%IH. rewrite _delete_instances in Hk.
  by apply lookup_delete_Some in Hk as [_ ?].
Qed.

(** A holder filed after a step was filed before it, unless the step
    is the [get] that made it. *)
Lemma exec_instances l w w' k h :
  exec key ttl l w = Some w' → _instances w' !! k = Some h →
  _instances w !! k = Some h
  ∨ (h = length (holders w) ∧ _instances w !! k = None
     ∧ ∃ a, l = Get a ∧ key a = k).
Proof.
  destruct l as [a|h0 |h0 r|h0 |d|t| |k0| ]; simpl.
  - intros [= <-].
    destruct (_instances w !! key a) as [h'|] eqn:Hk.
    + rewrite (get_live _ _ _ Hk). simpl.
      destruct (_stop_timer_frame (key a) w) as (_ & _ & _ & _ & _ & ->). auto.
    + rewrite (get_fresh _ _ Hk). simpl.
      destruct (_stop_timer_frame (key a) w) as (_ & _ & _ & _ & _ & ->).
      intros [[<- <-]|[Hne Hk']]%lookup_insert_Some; [|auto].
      right. eauto.
  - unfold _Holder__aenter__. destruct (holders w !! h0) as [hd|]; simpl; [|done].
    destruct (_called_aenter hd); simpl; intros [= <-]; auto.
  - unfold _Holder__aenter__resume. case_decide; [|done].
    destruct (holders w !! h0) as [hd|]; simpl; [|done].
    intros [= <-]; auto.
  - unfold _Holder__aexit__. destruct (holders w !! h0) as [hd|]; simpl; [|done].
    repeat case_decide; simpl; intros [= <-]; auto.
    destruct (_mark_for_deletion_frame (_key hd)
                (set_holders (<[h0 := add_count (-1) hd]>) w))
      as (_ & _ & _ & _ & _ & ->).
    auto.
  - intros [= <-]. auto.
  - unfold fire. destruct (handles w !! t) as [th|]; simpl; [|done].
    case_match; [|done]. intros [= <-]. auto.
  - unfold run_task. destruct (tasks w) as [|k1 rest]; [done|].
    intros [= <-]. rewrite _delete_instances. simpl.
    intros [_ ?]%lookup_delete_Some. auto.
  - intros [= <-]. rewrite _delete_instances.
    intros [_ ?]%lookup_delete_Some. auto.
  - intros [= <-] Hk. left. by eapply drain_instances_back.
Qed.

Lemma delete_resources_back k w i r :
  resources (_delete k w) !! i = Some r →
  ∃ r0, resources w !! i = Some r0 ∧ r_args r0 = r_args r.
Proof.
  rewrite _delete_resources.
  destruct (_instances w !! k) as [h|]; [|eauto].
  destruct (holders w !! h) as [hd|]; [|eauto].
  destruct (decide (_value hd = i)) as [<-|Hne].
  - rewrite list_lookup_alter_eq.
    destruct (resources w !! _value hd) as [r0|]; simpl; [|done].
    intros [= <-]. eauto.
  - rewrite list_lookup_alter_ne by done. eauto.
Qed.

Lemma drain_resources_back (ks : list K) w i r :
  resources (foldl (λ w k, _delete k w) w ks) !! i = Some r →
  ∃ r0, resources w !! i = Some r0 ∧ r_args r0 = r_args r.
Proof.
  revert w r. induction ks as [|k0 ks IH]; intros w r; simpl; [eauto|].
  intros (r1 & Hr1 & Ha1)%IH.
  destruct (delete_resources_back _ _ _ _ Hr1) as (r0 & Hr0 & Ha0).
  exists r0. split; [done|congruence].
Qed.

(** A resource present after a step was there before it with the same
    constructor arguments, unless the step is a [get] for a key that
    had no holder: then the getter has just built it. *)
Lemma exec_resources l w w' i r :
  exec key ttl l w = Some w' → resources w' !! i = Some r →
  (∃ r0, resources w !! i = Some r0 ∧ r_args r0 = r_args r)
  ∨ (i = length (resources w) ∧
     ∃ a, l = Get a ∧ r_args r = a ∧ _instances w !! key a = None).
Proof.
  destruct l as [a|h0 |h0 r1|h0 |d|t| |k0| ]; simpl.
  - intros [= <-].
    destruct (_instances w !! key a) as [h'|] eqn:Hk.
    + rewrite (get_live _ _ _ Hk). simpl.
      destruct (_stop_timer_frame (key a) w) as (_ & -> & _). eauto.
    + rewrite (get_fresh _ _ Hk). simpl.
      destruct (_stop_timer_frame (key a) w) as (_ & -> & _).
      intros [Hr|[Hlen Hr]]%lookup_app_Some; [eauto|].
      right. destruct (i - length (resources w))%nat eqn:Hd; [|done].
      simpl in Hr. injection Hr as <-. split; [lia|]. eauto.
  - unfold _Holder__aenter__. destruct (holders w !! h0) as [hd|]; simpl; [|done].
    destruct (_called_aenter hd); simpl; intros [= <-]; simpl; [eauto|].
    destruct (decide (_value hd = i)) as [<-|Hne].
    + rewrite list_lookup_alter_eq.
      destruct (resources w !! _value hd) as [r0|]; simpl; [|done].
      intros [= <-]. eauto.
    + rewrite list_lookup_alter_ne by done. eauto.
  - unfold _Holder__aenter__resume. case_decide; [|done].
    destruct (holders w !! h0) as [hd|]; simpl; [|done].
    intros [= <-]; eauto.
  - unfold _Holder__aexit__. destruct (holders w !! h0) as [hd|]; simpl; [|done].
    repeat case_decide; simpl; intros [= <-]; eauto.
    destruct (_mark_for_deletion_frame (_key hd)
                (set_holders (<[h0 := add_count (-1) hd]>) w))
      as (_ & -> & _).
    eauto.
  - intros [= <-]. eauto.
  - unfold fire. destruct (handles w !! t) as [th|]; simpl; [|done].
    case_match; [|done]. intros [= <-]. eauto.
  - unfold run_task. destruct (tasks w) as [|k1 rest]; [done|].
    intros [= <-] Hr. left.
    by apply (delete_resources_back k1 (set_tasks (λ _, rest) w)).
  - intros [= <-] Hr. left. by eapply delete_resources_back.
  - intros [= <-] Hr. left. by eapply drain_resources_back.
Qed.

(** While a holder stays filed under its key, the getter is not called
    for that key. *)
Lemma live_holder_no_getter tr w1 w2 k h :
  run key ttl tr w1 = Some w2 →
  (h < length (holders w1))%nat → _instances w2 !! k = Some h →
  _instances w1 !! k = Some h ∧
  ∀ i r, (length (resources w1) ≤ i)%nat → resources w2 !! i = Some r →
         key (r_args r) ≠ k.
Proof.
  revert w2. induction tr as [|l tr IH] using rev_ind; intros w2.
  - intros [= <-] Hlt Hk. split; [done|].
    intros i r Hle Hr%lookup_lt_Some. lia.
  - intros (wm & Hrun & Hex)%run_snoc_inv Hlt Hk.
    pose proof (holders_later_length _ _ (holders_later_run _ _ _ Hrun)) as Hlen.
    destruct (exec_instances _ _ _ _ _ Hex Hk) as [Hkm|(-> & _)]; [|lia].
    destruct (IH _ Hrun Hlt Hkm) as [Hk1 IHr]. split; [done|].
    intros i r Hle Hr.
    destruct (exec_resources _ _ _ _ _ Hex Hr)
      as [(r0 & Hr0 & <-)|(_ & a & -> & <- & Hnone)]; [eauto|].
    intros Heq. rewrite Heq in Hnone. congruence.
Qed.

(** C1: a [get] whose arguments derive the key of an earlier [get]
    returns the holder of the earlier call, as long as that holder is
    still filed in the pool.  The getter is called by a [get] only when
    the key has no holder, and then once; it is called neither by the
    second [get] nor, for this key, by anything in between. *)
Theorem get_returns_live_holder a1 a2 w h1 w1 tr w2 :
  reachable key ttl w →
  get key a1 w = (h1, w1) →
  run key ttl tr w1 = Some w2 →
  _instances w2 !! key a1 = Some h1 →
  key a2 = key a1 →
  (∃ w2', get key a2 w2 = (h1, w2') ∧ resources w2' = resources w2 ∧
          holders w2' = holders w2 ∧ _instances w2' = _instances w2) ∧
  resources w1 =
    (if decide (is_Some (_instances w !! key a1)) then resources w
     else resources w ++ [_getter a1]) ∧
  (∀ i r, (length (resources w1) ≤ i)%nat → resources w2 !! i = Some r →
          key (r_args r) ≠ key a1).
Proof.
  intros Hreach Hget Hrun Hk2 Hkey. split_and!.
  - rewrite <- Hkey in Hk2. rewrite (get_live _ _ _ Hk2).
    destruct (_stop_timer_frame (key a2) w2) as (_ & ? & ? & _ & _ & ?). eauto.
  - destruct (_instances w !! key a1) as [h|] eqn:Hk.
    + rewrite (get_live _ _ _ Hk) in Hget. injection Hget as <- <-.
      rewrite decide_True by eauto.
      by destruct (_stop_timer_frame (key a1) w) as (_ & -> & _).
    + rewrite (get_fresh _ _ Hk) in Hget. injection Hget as <- <-.
      rewrite decide_False by (by intros [? ?]). simpl.
      by destruct (_stop_timer_frame (key a1) w) as (_ & -> & _).
  - eapply live_holder_no_getter; [done| |done].
    pose proof (reachable_heap_ok _ Hreach) as Hheap.
    destruct (_instances w !! key a1) as [h|] eqn:Hk.
    + rewrite (get_live _ _ _ Hk) in Hget. injection Hget as <- <-.
      destruct (_stop_timer_frame (key a1) w) as (_ & _ & -> & _).
      destruct (heap_inst _ Hheap _ _ Hk) as (hd & Hhd & _).
      by eapply lookup_lt_Some.
    + rewrite (get_fresh _ _ Hk) in Hget. injection Hget as <- <-. simpl.
      destruct (_stop_timer_frame (key a1) w) as (_ & _ & -> & _).
      rewrite length_app. simpl. lia.
Qed.

(** ** The pool: deletion and shutdown *)

Lemma drain_instances (ks : list K) w k :
  _instances (foldl (λ w k, _delete k w) w ks) !! k =
    if decide (k ∈ ks) then None else _instances w !! k.
Proof.
  revert w. induction ks as [|k0 ks IH]; intros w; cbn [foldl].
  - case_decide as Hin; [by apply elem_of_nil in Hin|done].
  - rewrite IH, _delete_instances.
    destruct (decide (k ∈ ks)) as [Hin|Hnin];
      destruct (decide (k ∈ k0 :: ks)) as [Hin'|Hnin']; try done.
    + exfalso. apply Hnin', elem_of_cons. by right.
    + apply elem_of_cons in Hin' as [->|?]; [apply lookup_delete_eq|done].
    + rewrite lookup_delete_ne; [done|].
      intros ->. apply Hnin', elem_of_cons. by left.
Qed.

Lemma drain_timers (ks : list K) w k :
  _timers (foldl (λ w k, _delete k w) w ks) !! k =
    if decide (k ∈ ks) then None else _timers w !! k.
Proof.
  revert w. induction ks as [|k0 ks IH]; intros w; cbn [foldl].
  - case_decide as Hin; [by apply elem_of_nil in Hin|done].
  - rewrite IH, _delete_timers.
    destruct (decide (k ∈ ks)) as [Hin|Hnin];
      destruct (decide (k ∈ k0 :: ks)) as [Hin'|Hnin']; try done.
    + exfalso. apply Hnin', elem_of_cons. by right.
    + apply elem_of_cons in Hin' as [->|?]; [apply lookup_delete_eq|done].
    + rewrite lookup_delete_ne; [done|].
      intros ->. apply Hnin', elem_of_cons. by left.
Qed.

Lemma elem_of_keys (m : gmap K nat) k :
  k ∈ (map_to_list m).*1 ↔ is_Some (m !! k).
Proof.
  rewrite list_elem_of_fmap. split.
  - intros ([k' h] & -> & Hin). apply elem_of_map_to_list in Hin. eauto.
  - intros [h Hk]. exists (k, h). split; [done|]. by apply elem_of_map_to_list.
Qed.

Lemma drain_covering_instances (ks : list K) w :
  (∀ k, is_Some (_instances w !! k) → k ∈ ks) → _instances (drain ks w) = ∅.
Proof.
  intros Hcover. apply map_empty. intros k. unfold drain.
  rewrite drain_instances.
  case_decide as Hin; [done|].
  destruct (_instances w !! k) as [h|] eqn:Hk; [|done].
  exfalso. apply Hin, Hcover. eauto.
Qed.

Lemma drain_run (ks : list K) w :
  run key ttl (Drain <$> ks) w = Some (drain ks w).
Proof.
  revert w. induction ks as [|k ks IH]; intros w; [done|].
  rewrite fmap_cons, run_cons. simpl. apply IH.
Qed.

(** C7, as the code has it: the holder filed under a key has as count
    the number of acquisitions minus the number of releases made on it,
    which is not negative as long as it was not released more often
    than acquired; the exit routine of its resource has not been called
    while it is filed, and the step that takes it out of the dictionary
    is the step that calls the exit routine, once. *)
Theorem filed_holder_count_and_removal tr w k h :
  run key ttl tr init = Some w → _instances w !! k = Some h →
  ∃ hd r, holders w !! h = Some hd ∧ _key hd = k ∧
    resources w !! _value hd = Some r ∧
    _count hd = acquisitions h tr - releases h tr ∧
    (releases h tr ≤ acquisitions h tr ↔ 0 ≤ _count hd) ∧
    exit_called r = 0%nat ∧
    ∀ l w', exec key ttl l w = Some w' →
      ∃ r', resources w' !! _value hd = Some r' ∧
        exit_called r' =
          if decide (_instances w' !! k = Some h) then 0%nat else 1%nat.
Proof.
  intros Hrun Hk.
  assert (reachable key ttl w) as Hreach by (by exists tr).
  pose proof (reachable_heap_ok _ Hreach) as Hheap.
  destruct (heap_inst _ Hheap _ _ Hk) as (hd & Hhd & Hkey).
  pose proof (heap_value _ Hheap _ _ Hhd) as Hv.
  pose proof (lookup_lt_Some _ _ _ Hhd) as Hlt.
  destruct (lookup_lt_is_Some_2 (resources w) h) as [r Hr].
  { by rewrite (heap_len _ Hheap). }
  destruct (count_along_run _ _ Hrun) as [Hcount _].
  destruct (Hcount _ _ Hhd) as [Hc _].
  exists hd, r. rewrite Hv. split_and!; [done..| | |].
  - lia.
  - rewrite (heap_exit _ Hheap _ _ _ Hhd Hr), Hkey.
    by rewrite decide_True.
  - intros l w' Hex.
    pose proof (reachable_heap_ok _ (reachable_step _ _ _ Hreach Hex)) as Hheap'.
    destruct (holders_later_exec _ _ _ Hex _ _ Hhd) as (hd' & Hhd' & Hk' & _).
    pose proof (lookup_lt_Some _ _ _ Hhd') as Hlt'.
    destruct (lookup_lt_is_Some_2 (resources w') h) as [r' Hr'].
    { by rewrite (heap_len _ Hheap'). }
    exists r'. split; [done|].
    rewrite (heap_exit _ Hheap' _ _ _ Hhd' Hr'), Hk', Hkey. done.
Qed.

(** The keys that [Pool.__aexit__] copies are those of the instance
    dictionary. *)
Lemma dict_keys_elem_of (m : gmap K nat) k :
  k ∈ dict_keys m ↔ is_Some (m !! k).
Proof.
  unfold dict_keys. rewrite merge_sort_Permutation. apply elem_of_keys.
Qed.

Lemma dict_keys_perm (m : gmap K nat) : dict_keys m ≡ₚ (map_to_list m).*1.
Proof. unfold dict_keys. by rewrite merge_sort_Permutation. Qed.

Lemma World_eq w1 w2 :
  time w1 = time w2 → resources w1 = resources w2 →
  holders w1 = holders w2 → handles w1 = handles w2 →
  tasks w1 = tasks w2 → entering w1 = entering w2 →
  _instances w1 = _instances w2 → _timers w1 = _timers w2 → w1 = w2.
Proof. destruct w1, w2; simpl. by intros -> -> -> -> -> -> -> ->. Qed.

(** Deletions of two keys can be made in either order. *)
Lemma _delete_commute k1 k2 w :
  _delete k1 (_delete k2 w) = _delete k2 (_delete k1 w).
Proof.
  destruct (decide (k1 = k2)) as [->|Hne]; [done|].
  destruct (_delete_frame k1 w) as (Ht1 & Hh1 & Hta1 & He1).
  destruct (_delete_frame k2 w) as (Ht2 & Hh2 & Hta2 & He2).
  destruct (_delete_frame k1 (_delete k2 w)) as (Ht12 & Hh12 & Hta12 & He12).
  destruct (_delete_frame k2 (_delete k1 w)) as (Ht21 & Hh21 & Hta21 & He21).
  apply World_eq; [congruence| |congruence| |congruence|congruence| |].
  - rewrite !_delete_resources, !_delete_instances, Hh1, Hh2.
    rewrite !lookup_delete_ne by done.
    destruct (_instances w !! k1) as [h1|]; destruct (_instances w !! k2) as [h2|];
      try done.
    + destruct (holders w !! h1) as [hd1|]; destruct (holders w !! h2) as [hd2|];
        try done.
      destruct (decide (_value hd1 = _value hd2)) as [->|Hv]; [done|].
      by apply list_alter_alter_ne.
  - rewrite !_delete_handles, !_stop_timer_handles, !_delete_timers.
    rewrite !lookup_delete_ne by done.
    rewrite !_delete_handles, !_stop_timer_handles.
    destruct (_timers w !! k1) as [t1|]; destruct (_timers w !! k2) as [t2|];
      try done.
    destruct (decide (t1 = t2)) as [->|Hv]; [done|].
    by apply list_alter_alter_ne.
  - rewrite !_delete_instances. apply delete_delete.
  - rewrite !_delete_timers. apply delete_delete.
Qed.

Lemma drain_perm (ks1 ks2 : list K) w : ks1 ≡ₚ ks2 → drain ks1 w = drain ks2 w.
Proof.
  intros Hperm. revert w. unfold drain.
  induction Hperm as [|k ks1 ks2 _ IH|k1 k2 ks|ks1 ks2 ks3 _ IH1 _ IH2];
    intros w; simpl.
  - done.
  - apply IH.
  - by rewrite _delete_commute.
  - by rewrite IH1.
Qed.

(** Without a [get], no holder is filed that was not filed before. *)
Lemma run_no_get_instances trs w w' k h :
  run key ttl trs w = Some w' → Forall (λ l, calls_get l = false) trs →
  _instances w' !! k = Some h → _instances w !! k = Some h.
Proof.
  revert w'. induction trs as [|l trs IH] using rev_ind; intros w'.
  - by intros [= <-].
  - intros (wm & Hrun & Hex)%run_snoc_inv [Hall Hl%Forall_inv]%Forall_app Hk.
    apply (IH _ Hrun Hall).
    by destruct (exec_instances _ _ _ _ _ Hex Hk) as [?|(_ & _ & a & -> & _)].
Qed.

(** The exit routines that return are still the ones of the filed
    holders after steps without a [get]. *)
Lemma exits_return_run exit_raises trs w w' :
  reachable key ttl w → run key ttl trs w = Some w' →
  Forall (λ l, calls_get l = false) trs →
  exits_return exit_raises w → exits_return exit_raises w'.
Proof.
  intros Hreach Hrun Hall Hret k h hd' Hk' Hhd'.
  pose proof (run_no_get_instances _ _ _ _ _ Hrun Hall Hk') as Hk.
  destruct (heap_inst _ (reachable_heap_ok _ Hreach) _ _ Hk) as (hd & Hhd & _).
  destruct (holders_later_run _ _ _ Hrun _ _ Hhd) as (hd'' & Hhd'' & _ & Hv & _).
  assert (hd'' = hd') as -> by congruence.
  rewrite Hv. by eapply Hret.
Qed.

(** Once the turn of a key has run and no [get] follows, the key stays
    out of the pool and the handles made for it before stay cancelled. *)
Lemma run_drain_no_get trs w w' k :
  reachable key ttl w → run key ttl trs w = Some w' →
  Forall (λ l, calls_get l = false) trs → Drain k ∈ trs →
  _instances w' !! k = None ∧
  ∀ t th, handles w !! t = Some th → th_key th = k →
    ∃ th', handles w' !! t = Some th' ∧ th_cancelled th' = true.
Proof.
  intros Hreach. revert w'.
  induction trs as [|l trs IH] using rev_ind; intros w'.
  - intros _ _ Hin. by apply elem_of_nil in Hin.
  - intros (wm & Hrun & Hex)%run_snoc_inv [Hall Hl%Forall_inv]%Forall_app.
    intros [Hin|Hin]%elem_of_app.
    + destruct (IH _ Hrun Hall Hin) as [Hnone Hcancelled]. split.
      * destruct (_instances w' !! k) as [h|] eqn:Hk; [|done].
        destruct (exec_instances _ _ _ _ _ Hex Hk) as [?|(_ & _ & a & -> & _)];
          [congruence|done].
      * intros t th Hth Hkey.
        destruct (Hcancelled _ _ Hth Hkey) as (thm & Hthm & Hc).
        destruct (handles_later_exec _ _ _ Hex _ _ Hthm)
          as (th' & Hth' & _ & _ & Hc' & _).
        exists th'. auto.
    + apply list_elem_of_singleton in Hin as <-.
      simpl in Hex. injection Hex as <-. split.
      * rewrite _delete_instances. apply lookup_delete_eq.
      * intros t th Hth Hkey.
        assert (run key ttl (trs ++ [Drain k]) w = Some (_delete k wm)) as Hrun'.
        { by rewrite run_snoc, Hrun. }
        destruct (handles_later_run _ _ _ Hrun' _ _ Hth)
          as (th' & Hth' & Hk' & _).
        exists th'. split; [done|].
        destruct (th_cancelled th') eqn:Hc; [done|].
        pose proof (reachable_timers_ok _ (reachable_run _ _ _ Hreach Hrun'))
          as Hok.
        pose proof (handle_timers _ Hok _ _ Hth' Hc) as Ht.
        rewrite Hk', Hkey, _delete_timers, lookup_delete_eq in Ht. done.
Qed.

(** The loop of [Pool.__aexit__] as a run: when the exit routines of the
    filed holders return and the other tasks make no [get], the loop
    runs to its end, and its turns and the steps of the other tasks make
    a run without [get] that has the turn of every key. *)
Lemma delete_keys_run exit_raises (keys : list K) between w o w' :
  reachable key ttl w → exits_return exit_raises w →
  Forall (Forall (λ l, calls_get l = false)) between →
  delete_keys key ttl exit_raises keys between w = Some (o, w') →
  o = Returns () ∧
  ∃ trs, run key ttl trs w = Some w' ∧
    Forall (λ l, calls_get l = false) trs ∧ ∀ k, k ∈ keys → Drain k ∈ trs.
Proof.
  revert between w.
  induction keys as [|k keys IH]; intros between w Hreach Hret Hbetween.
  - intros [= <- <-]. split; [done|]. exists []. split_and!; [done..|].
    intros k Hin. by apply elem_of_nil in Hin.
  - cbn [delete_keys].
    assert (Forall (λ l, calls_get l = false) (default [] (head between)) ∧
            Forall (Forall (λ l, calls_get l = false)) (tail between))
      as [Hhead Htail].
    { destruct Hbetween as [|b bs Hb Hbs]; simpl; split; try done; constructor. }
    assert (exec key ttl (Drain k) w = Some (_delete k w)) as Hex by done.
    pose proof (reachable_step _ _ _ Hreach Hex) as Hreach1.
    assert (exits_return exit_raises (_delete k w)) as Hret1.
    { apply (exits_return_run exit_raises [Drain k] w); [done..| |done].
      by repeat constructor. }
    destruct (_instances w !! k ≫= λ h, holders w !! h) as [instance|] eqn:Hinst.
    + apply bind_Some in Hinst as (h & Hk & Hhd).
      rewrite (Hret _ _ _ Hk Hhd).
      destruct (run key ttl (default [] (head between)) (_delete k w))
        as [w2|] eqn:Hrun2; simpl; [|done].
      intros Hloop.
      destruct (IH (tail between) w2) as (-> & trs & Hrun & Hall & Hdrain);
        [by eapply reachable_run|by eapply exits_return_run|done..|].
      split; [done|].
      exists (Drain k :: default [] (head between) ++ trs). split_and!.
      * rewrite run_cons. simpl. by rewrite run_app, Hrun2.
      * constructor; [done|]. by apply Forall_app.
      * intros k' [->|Hin]%elem_of_cons; [by left|].
        right. apply elem_of_app. right. auto.
    + intros Hloop.
      destruct (IH (tail between) (_delete k w))
        as (-> & trs & Hrun & Hall & Hdrain); [done..|].
      split; [done|]. exists (Drain k :: trs). split_and!.
      * by rewrite run_cons.
      * by constructor.
      * intros k' [->|Hin]%elem_of_cons; [by left|]. right. auto.
Qed.

(** With no other task running between the turns, the loop is the
    sequence of its deletions. *)
Lemma delete_keys_uninterrupted exit_raises (keys : list K) w :
  exits_return exit_raises w →
  delete_keys key ttl exit_raises keys [] w = Some (Returns (), drain keys w).
Proof.
  revert w. induction keys as [|k keys IH]; intros w Hret; [done|].
  cbn [delete_keys]. unfold drain. cbn [foldl head tail default].
  assert (exits_return exit_raises (_delete k w)) as Hret1.
  { intros k' h hd. rewrite _delete_instances.
    destruct (_delete_frame k w) as (_ & -> & _).
    intros [_ Hk]%lookup_delete_Some Hhd. by eapply Hret. }
  destruct (_instances w !! k ≫= λ h, holders w !! h) as [instance|] eqn:Hinst.
  - apply bind_Some in Hinst as (h & Hk & Hhd).
    rewrite (Hret _ _ _ Hk Hhd). simpl. by apply IH.
  - by apply IH.
Qed.

(** [Pool.__aexit__] with no exit routine raising and no other task
    running in between is the step [Shutdown] of the runs. *)
Lemma Pool__aexit___uninterrupted exit_raises w :
  exits_return exit_raises w →
  Pool__aexit__ key ttl exit_raises [] w = Some (Returns (), drain_all w).
Proof.
  intros Hret. unfold Pool__aexit__, drain_all.
  rewrite (delete_keys_uninterrupted _ _ _ Hret).
  by rewrite (drain_perm _ _ w (dict_keys_perm (_instances w))).
Qed.

(** ** Timers along a run *)

Lemma _stop_timer_handles_length k w :
  length (handles (_stop_timer k w)) = length (handles w).
Proof.
  rewrite _stop_timer_handles. destruct (_timers w !! k); [|done].
  apply length_alter.
Qed.

(** A timer filed after a step was filed before it and the step is no
    [get] for its key, or the step is the release that brought a holder
    of that key from count one to zero and made the timer. *)
Lemma exec_timers l w w' k t :
  exec key ttl l w = Some w' → _timers w' !! k = Some t →
  (_timers w !! k = Some t ∧ is_Get key k l = false)
  ∨ (∃ h hd, l = Exit h ∧ holders w !! h = Some hd ∧ _key hd = k ∧
       _count hd = 1 ∧
       handles w' !! t = Some (MkTimerHandle (time w + ttl)%nat k false true)).
Proof.
  destruct l as [a|h0 |h0 r|h0 |d|t0| |k0| ]; simpl.
  - intros [= <-].
    assert (_timers (get key a w).2 = delete (key a) (_timers w)) as ->.
    { unfold get.
      destruct (_instances (_stop_timer (key a) w) !! key a); simpl;
        apply _stop_timer_timers. }
    intros [Hne Hk]%lookup_delete_Some. left.
    split; [done|]. by apply bool_decide_eq_false_2.
  - unfold _Holder__aenter__. destruct (holders w !! h0) as [hd|]; simpl; [|done].
    destruct (_called_aenter hd); simpl; intros [= <-]; auto.
  - unfold _Holder__aenter__resume. case_decide; [|done].
    destruct (holders w !! h0) as [hd|]; simpl; [|done].
    intros [= <-]; auto.
  - unfold _Holder__aexit__.
    destruct (holders w !! h0) as [hd|] eqn:Hhd; simpl; [|done].
    repeat case_decide; simpl; intros [= <-]; auto.
    rewrite _mark_for_deletion_timers, _mark_for_deletion_handles. simpl.
    intros [[<- <-]|[Hne Hk]]%lookup_insert_Some.
    + right. exists h0, hd. split_and!; [done..|lia|].
      by apply list_lookup_middle.
    + apply lookup_delete_Some in Hk as [_ Hk]. auto.
  - intros [= <-]. auto.
  - unfold fire. destruct (handles w !! t0) as [th|]; simpl; [|done].
    case_match; [|done]. intros [= <-]. auto.
  - unfold run_task. destruct (tasks w) as [|k1 rest]; [done|].
    intros [= <-]. rewrite _delete_timers. simpl.
    intros [_ ?]%lookup_delete_Some. auto.
  - intros [= <-]. rewrite _delete_timers.
    intros [_ ?]%lookup_delete_Some. auto.
  - intros [= <-]. unfold drain_all, drain. rewrite drain_timers.
    case_decide; [done|]. auto.
Qed.

(** A task waiting after a step was waiting before it, or the step is
    the firing of a due handle that was not cancelled. *)
Lemma exec_tasks l w w' k :
  exec key ttl l w = Some w' → k ∈ tasks w' →
  k ∈ tasks w
  ∨ (∃ t th, l = Fire t ∧ handles w !! t = Some th ∧ th_key th = k ∧
       th_cancelled th = false ∧ th_scheduled th = true ∧
       (th_when th ≤ time w)%nat).
Proof.
  destruct l as [a|h0 |h0 r|h0 |d|t0| |k0| ]; simpl.
  - intros [= <-]. unfold get.
    destruct (_stop_timer_frame (key a) w) as (_ & _ & _ & Ht & _).
    destruct (_instances (_stop_timer (key a) w) !! key a); simpl;
      rewrite Ht; auto.
  - unfold _Holder__aenter__. destruct (holders w !! h0) as [hd|]; simpl; [|done].
    destruct (_called_aenter hd); simpl; intros [= <-]; auto.
  - unfold _Holder__aenter__resume. case_decide; [|done].
    destruct (holders w !! h0) as [hd|]; simpl; [|done].
    intros [= <-]; auto.
  - unfold _Holder__aexit__.
    destruct (holders w !! h0) as [hd|] eqn:Hhd; simpl; [|done].
    repeat case_decide; simpl; intros [= <-]; auto.
    destruct (_mark_for_deletion_frame (_key hd)
                (set_holders (<[h0 := add_count (-1) hd]>) w))
      as (_ & _ & _ & -> & _).
    auto.
  - intros [= <-]. auto.
  - unfold fire. destruct (handles w !! t0) as [th|] eqn:Hth; simpl; [|done].
    destruct (th_scheduled th) eqn:Hs; simpl; [|done].
    destruct (th_cancelled th) eqn:Hc; simpl; [done|].
    case_bool_decide as Hdue; [|done]. intros [= <-]. simpl.
    intros [Hin|Hin]%elem_of_app; [auto|].
    apply list_elem_of_singleton in Hin as ->. right.
    exists t0, th. done.
  - unfold run_task. destruct (tasks w) as [|k1 rest]; [done|].
    intros [= <-].
    destruct (_delete_frame k1 (set_tasks (λ _, rest) w)) as (_ & _ & -> & _).
    simpl. intros Hin. left. apply elem_of_cons. by right.
  - intros [= <-]. destruct (_delete_frame k0 w) as (_ & _ & -> & _). auto.
  - intros [= <-]. unfold drain_all, drain.
    destruct (_delete_drain_frame (map_to_list (_instances w)).*1 w)
      as (_ & _ & -> & _).
    auto.
Qed.

Lemma exec_timers_drop l w w' k :
  exec key ttl l w = Some w' →
  is_Some (_timers w !! k) → _timers w' !! k = None →
  drops_timer key l w k.
Proof.
  intros Hex [t Ht].
  destruct l as [a|h0 |h0 r|h0 |d|t0| |k0| ]; simpl in *.
  - injection Hex as <-.
    assert (_timers (get key a w).2 = delete (key a) (_timers w)) as ->.
    { unfold get.
      destruct (_instances (_stop_timer (key a) w) !! key a); simpl;
        apply _stop_timer_timers. }
    intros Hnone. destruct (decide (key a = k)) as [|Hne]; [done|].
    rewrite lookup_delete_ne in Hnone by done. congruence.
  - unfold _Holder__aenter__ in Hex.
    destruct (holders w !! h0) as [hd|]; simpl in Hex; [|done].
    destruct (_called_aenter hd); simpl in Hex; injection Hex as <-;
      simpl; congruence.
  - unfold _Holder__aenter__resume in Hex. case_decide; [|done].
    destruct (holders w !! h0) as [hd|]; simpl in Hex; [|done].
    injection Hex as <-. simpl. congruence.
  - unfold _Holder__aexit__ in Hex.
    destruct (holders w !! h0) as [hd|] eqn:Hhd; simpl in Hex; [|done].
    repeat case_decide; simpl in Hex; injection Hex as <-;
      try (simpl; congruence).
    rewrite _mark_for_deletion_timers. simpl.
    destruct (decide (_key hd = k)) as [->|Hne].
    + by rewrite lookup_insert_eq.
    + rewrite lookup_insert_ne, lookup_delete_ne by done. congruence.
  - injection Hex as <-. simpl. congruence.
  - unfold fire in Hex.
    destruct (handles w !! t0) as [th|]; simpl in Hex; [|done].
    case_match; [|done]. injection Hex as <-. simpl. congruence.
  - unfold run_task in Hex. destruct (tasks w) as [|k1 rest]; [done|].
    injection Hex as <-. rewrite _delete_timers. simpl.
    intros Hnone. destruct (decide (k1 = k)) as [->|Hne]; [done|].
    rewrite lookup_delete_ne in Hnone by done. congruence.
  - injection Hex as <-. rewrite _delete_timers.
    intros Hnone. destruct (decide (k0 = k)) as [|Hne]; [done|].
    rewrite lookup_delete_ne in Hnone by done. congruence.
  - injection Hex as <-. unfold drain_all, drain. rewrite drain_timers.
    case_decide as Hin; [|congruence]. intros _. by apply elem_of_keys.
Qed.

Lemma acquisitions_app h tr1 tr2 :
  acquisitions h (tr1 ++ tr2) = acquisitions h tr1 + acquisitions h tr2.
Proof. unfold acquisitions. rewrite filter_app, length_app. lia. Qed.

Lemma releases_app h tr1 tr2 :
  releases h (tr1 ++ tr2) = releases h tr1 + releases h tr2.
Proof. unfold releases. rewrite filter_app, length_app. lia. Qed.

Lemma acquisitions_after_release h tr2 :
  acquisitions h (Exit h :: tr2) = acquisitions h tr2.
Proof. unfold acquisitions. by rewrite filter_cons. Qed.

Lemma releases_after_release h tr2 :
  releases h (Exit h :: tr2) = 1 + releases h tr2.
Proof.
  unfold releases. rewrite filter_cons. simpl.
  rewrite bool_decide_eq_true_2 by done. simpl length. lia.
Qed.

Lemma releases_filed_app tr1 tr2 w :
  releases_filed key ttl (tr1 ++ tr2) w =
    releases_filed key ttl tr1 w
    && match run key ttl tr1 w with
       | Some w' => releases_filed key ttl tr2 w'
       | None => true
       end.
Proof.
  revert w. induction tr1 as [|l tr1 IH]; intros w; [done|].
  rewrite <- app_comm_cons. cbn [releases_filed]. rewrite run_cons.
  destruct (exec key ttl l w) as [w'|]; simpl.
  - by rewrite IH, andb_assoc.
  - by rewrite !andb_true_r.
Qed.

Lemma releases_filed_prefix tr1 tr2 w :
  releases_filed key ttl (tr1 ++ tr2) w = true →
  releases_filed key ttl tr1 w = true.
Proof. rewrite releases_filed_app. by intros [? _]%andb_true_iff. Qed.

(** In a run that releases filed holders only, the holder of every
    release is the one the pool has under its key. *)
Lemma releases_filed_release tr1 h tr2 w0 hd0 :
  releases_filed key ttl (tr1 ++ Exit h :: tr2) init = true →
  run key ttl tr1 init = Some w0 → holders w0 !! h = Some hd0 →
  _instances w0 !! _key hd0 = Some h.
Proof.
  rewrite releases_filed_app. intros [_ Hrest]%andb_true_iff Hrun Hhd.
  rewrite Hrun in Hrest. cbn [releases_filed] in Hrest.
  apply andb_true_iff in Hrest as [Hfiled _].
  unfold filed in Hfiled. rewrite Hhd in Hfiled.
  by apply bool_decide_eq_true in Hfiled.
Qed.

(** A step that leaves a key in the timer dictionary leaves alone what
    the instance dictionary has under that key. *)
Lemma exec_timer_instances l w w' k :
  exec key ttl l w = Some w' → is_Some (_timers w' !! k) →
  _instances w' !! k = _instances w !! k.
Proof.
  destruct l as [a|h0 |h0 r|h0 |d|t0| |k0| ]; simpl.
  - intros [= <-].
    assert (_timers (get key a w).2 = delete (key a) (_timers w)) as ->.
    { unfold get.
      destruct (_instances (_stop_timer (key a) w) !! key a); simpl;
        apply _stop_timer_timers. }
    intros [t [Hne _]%lookup_delete_Some].
    destruct (_instances w !! key a) as [h'|] eqn:Hk.
    + rewrite (get_live _ _ _ Hk). simpl.
      by destruct (_stop_timer_frame (key a) w) as (_ & _ & _ & _ & _ & ->).
    + rewrite (get_fresh _ _ Hk). simpl.
      destruct (_stop_timer_frame (key a) w) as (_ & _ & _ & _ & _ & ->).
      by rewrite lookup_insert_ne.
  - unfold _Holder__aenter__. destruct (holders w !! h0) as [hd|]; simpl; [|done].
    by destruct (_called_aenter hd); simpl; intros [= <-].
  - unfold _Holder__aenter__resume. case_decide; [|done].
    destruct (holders w !! h0) as [hd|]; simpl; [|done].
    by intros [= <-].
  - unfold _Holder__aexit__. destruct (holders w !! h0) as [hd|]; simpl; [|done].
    repeat case_decide; simpl; intros [= <-]; try done.
    by destruct (_mark_for_deletion_frame (_key hd)
                   (set_holders (<[h0 := add_count (-1) hd]>) w))
      as (_ & _ & _ & _ & _ & ->).
  - by intros [= <-].
  - unfold fire. destruct (handles w !! t0) as [th|]; simpl; [|done].
    case_match; [|done]. by intros [= <-].
  - unfold run_task. destruct (tasks w) as [|k1 rest]; [done|].
    intros [= <-]. rewrite _delete_timers, _delete_instances. simpl.
    intros [t [Hne _]%lookup_delete_Some]. by rewrite lookup_delete_ne.
  - intros [= <-]. rewrite _delete_timers, _delete_instances.
    intros [t [Hne _]%lookup_delete_Some]. by rewrite lookup_delete_ne.
  - intros [= <-]. unfold drain_all, drain.
    rewrite drain_timers, drain_instances.
    case_decide; [by intros [? ?]|done].
Qed.

(** Every filed timer was made by the release that took a holder of its
    key from count one to zero, is due one time-to-live later, and since
    then there was no [get] for the key and no change of what the
    instance dictionary has under it. *)
Lemma timers_origin tr w :
  run key ttl tr init = Some w →
  ∀ k t th, _timers w !! k = Some t → handles w !! t = Some th →
    ∃ tr1 h tr2 w0 hd0, tr = tr1 ++ Exit h :: tr2 ∧
      run key ttl tr1 init = Some w0 ∧
      holders w0 !! h = Some hd0 ∧ _key hd0 = k ∧ _count hd0 = 1 ∧
      th_when th = (time w0 + ttl)%nat ∧
      Forall (λ l, is_Get key k l = false) tr2 ∧
      _instances w !! k = _instances w0 !! k.
Proof.
  revert w. induction tr as [|l tr IH] using rev_ind; intros w' Hrun' k t th' Ht' Hth'.
  - injection Hrun' as <-. simpl in Ht'. by rewrite lookup_empty in Ht'.
  - apply run_snoc_inv in Hrun' as (w & Hrun & Hex).
    specialize (IH _ Hrun).
    assert (reachable key ttl w) as Hreach by (by exists tr).
    pose proof (reachable_timers_ok _ Hreach) as Hok.
    destruct (exec_timers _ _ _ _ _ Hex Ht')
      as [[Ht Hl]|(h & hd & -> & Hhd & Hkey & Hc & Hnew)].
    + destruct (timers_handle _ Hok _ _ Ht) as (th & Hth & _).
      destruct (handles_later_exec _ _ _ Hex _ _ Hth)
        as (th'' & Hth'' & _ & Hw & _).
      assert (th'' = th') as -> by congruence.
      destruct (IH _ _ _ Ht Hth)
        as (tr1 & h & tr2 & w0 & hd0 & -> & Hr0 & Hhd0 & Hkey & Hc & Hwhen
            & Hall & Hinst).
      exists tr1, h, (tr2 ++ [l]), w0, hd0.
      split_and!; [by rewrite <- app_assoc|done..|congruence| |].
      * apply Forall_app. split; [done|]. by apply Forall_singleton.
      * rewrite <- Hinst. eapply exec_timer_instances; eauto.
    + rewrite Hnew in Hth'. injection Hth' as <-. simpl.
      exists tr, h, [], w, hd. split_and!; [done..|constructor|].
      eapply exec_timer_instances; eauto.
Qed.

(** In a run that releases filed holders only, the timer of a key was
    made by the release of the holder that the pool has under that key
    now; since that release the holder's count has moved with the
    acquisitions and releases made on it. *)
Lemma timer_of_filed_holder tr w k t th :
  run key ttl tr init = Some w → releases_filed key ttl tr init = true →
  _timers w !! k = Some t → handles w !! t = Some th →
  ∃ h hd t0 tr2, _instances w !! k = Some h ∧ holders w !! h = Some hd ∧
    released_at key ttl tr h t0 tr2 ∧
    Forall (λ l, is_Get key k l = false) tr2 ∧
    th_when th = (t0 + ttl)%nat ∧
    _count hd = acquisitions h tr2 - releases h tr2.
Proof.
  intros Hrun Hfiled Ht Hth.
  destruct (timers_origin _ _ Hrun _ _ _ Ht Hth)
    as (tr1 & h & tr2 & w0 & hd0 & -> & Hr0 & Hhd0 & Hkey & Hc & Hwhen
        & Hall & Hinst).
  pose proof (releases_filed_release _ _ _ _ _ Hfiled Hr0 Hhd0) as Hk0.
  rewrite Hkey in Hk0. rewrite Hk0 in Hinst.
  assert (reachable key ttl w) as Hreach by (by eexists).
  destruct (heap_inst _ (reachable_heap_ok _ Hreach) _ _ Hinst)
    as (hd & Hhd & _).
  exists h, hd, (time w0), tr2. split_and!; [done..| |done|done|].
  - by exists tr1, w0, hd0.
  - destruct (count_along_run _ _ Hrun) as [Hcount _].
    destruct (Hcount _ _ Hhd) as [-> _].
    destruct (count_along_run _ _ Hr0) as [Hcount0 _].
    destruct (Hcount0 _ _ Hhd0) as [Hc0 _].
    rewrite acquisitions_app, releases_app, acquisitions_after_release,
      releases_after_release. lia.
Qed.

(** The other way round: while the holder that was released from count
    one to zero stays filed and no [get] asks for its key, the key has a
    timer. *)
Lemma released_filed_has_timer tr w k h t0 tr2 :
  run key ttl tr init = Some w → _instances w !! k = Some h →
  released_at key ttl tr h t0 tr2 →
  Forall (λ l, is_Get key k l = false) tr2 →
  is_Some (_timers w !! k).
Proof.
  intros Hrun Hk (tr1 & w0 & hd0 & -> & Hr0 & Hhd0 & Hc & _).
  revert w Hrun Hk.
  induction tr2 as [|l tr2 IH] using rev_ind; intros w Hrun Hk Hall.
  - assert (reachable key ttl w) as Hreach by (by eexists).
    destruct (heap_inst _ (reachable_heap_ok _ Hreach) _ _ Hk)
      as (hd & Hhd & Hkey).
    apply run_snoc_inv in Hrun as (wm & Hrm & Hex).
    assert (wm = w0) as -> by congruence.
    destruct (holders_later_exec _ _ _ Hex _ _ Hhd0) as (hd' & Hhd' & Hk' & _).
    assert (_key hd0 = k) as Hkey0 by congruence.
    simpl in Hex. unfold _Holder__aexit__ in Hex. rewrite Hhd0 in Hex.
    simpl in Hex. rewrite decide_False in Hex by lia.
    rewrite decide_True in Hex by lia. simpl in Hex. injection Hex as <-.
    rewrite _mark_for_deletion_timers, Hkey0, lookup_insert_eq. eauto.
  - apply Forall_app in Hall as [Hall Hl%Forall_inv].
    rewrite app_comm_cons, app_assoc in Hrun.
    apply run_snoc_inv in Hrun as (wm & Hrm & Hex).
    destruct (exec_instances _ _ _ _ _ Hex Hk) as [Hkm|(_ & _ & a & -> & Ha)].
    2: { simpl in Hl. by rewrite bool_decide_eq_true_2 in Hl. }
    pose proof (IH _ Hrm Hkm Hall) as Htm.
    destruct (_timers w !! k) as [t|] eqn:Ht; [eauto|]. exfalso.
    pose proof (exec_timers_drop _ _ _ _ Hex Htm Ht) as Hdrop.
    destruct l as [a|h1 |h1 r|h1 |d|t1| |k1| ]; simpl in Hdrop; try done.
    + simpl in Hl. by rewrite bool_decide_eq_true_2 in Hl.
    + simpl in Hex. unfold run_task in Hex.
      destruct (tasks wm) as [|k1 rest]; [done|].
      injection Hdrop as ->. injection Hex as <-.
      rewrite _delete_instances in Hk. simpl in Hk.
      by rewrite lookup_delete_eq in Hk.
    + subst k1. simpl in Hex. injection Hex as <-.
      rewrite _delete_instances in Hk. by rewrite lookup_delete_eq in Hk.
    + simpl in Hex. injection Hex as <-. unfold drain_all, drain in Hk.
      rewrite drain_instances in Hk.
      rewrite decide_True in Hk; [done|]. by apply elem_of_keys.
Qed.

(** In a run that releases filed holders only, every key that has a
    timer has a holder. *)
Lemma timers_of_filed_keys tr w :
  run key ttl tr init = Some w → releases_filed key ttl tr init = true →
  dom (_timers w) ⊆ dom (_instances w).
Proof.
  intros Hrun Hfiled k [t Ht]%elem_of_dom.
  assert (reachable key ttl w) as Hreach by (by eexists).
  destruct (timers_handle _ (reachable_timers_ok _ Hreach) _ _ Ht)
    as (th & Hth & _).
  destruct (timer_of_filed_holder _ _ _ _ _ Hrun Hfiled Ht Hth)
    as (h & _ & _ & _ & Hk & _).
  apply elem_of_dom. eauto.
Qed.

(** Every waiting deletion task was made by the firing of the timer of
    its key, when that timer was due; if no [get] for the key came
    since, the pool has under the key what it had at the firing, or
    nothing. *)
Lemma tasks_origin tr w :
  run key ttl tr init = Some w →
  ∀ k, k ∈ tasks w →
    ∃ tr1 t tr2 wf th, tr = tr1 ++ Fire t :: tr2 ∧
      run key ttl tr1 init = Some wf ∧
      _timers wf !! k = Some t ∧ handles wf !! t = Some th ∧
      (th_when th ≤ time wf)%nat ∧
      (Forall (λ l, is_Get key k l = false) tr2 →
       ∀ h', _instances w !! k = Some h' → _instances wf !! k = Some h').
Proof.
  revert w. induction tr as [|l tr IH] using rev_ind; intros w' Hrun' k Hin.
  - injection Hrun' as <-. simpl in Hin. by apply elem_of_nil in Hin.
  - apply run_snoc_inv in Hrun' as (w & Hrun & Hex).
    specialize (IH _ Hrun).
    assert (reachable key ttl w) as Hreach by (by exists tr).
    pose proof (reachable_timers_ok _ Hreach) as Hok.
    destruct (exec_tasks _ _ _ _ Hex Hin)
      as [Hin0|(t & th & -> & Hth & Hkey & Hc & Hs & Hdue)].
    + destruct (IH _ Hin0)
        as (tr1 & t & tr2 & wf & th & -> & Hrf & Ht & Hth & Hdue & Hsame).
      exists tr1, t, (tr2 ++ [l]), wf, th.
      split_and!; [by rewrite <- app_assoc|done..|].
      intros [Hall Hl%Forall_inv]%Forall_app h' Hk'.
      apply Hsame; [done|].
      destruct (exec_instances _ _ _ _ _ Hex Hk') as [?|(_ & _ & a & -> & Ha)];
        [done|].
      simpl in Hl. by rewrite bool_decide_eq_true_2 in Hl.
    + pose proof (handle_timers _ Hok _ _ Hth Hc) as Ht.
      rewrite Hkey in Ht.
      exists tr, t, [], w, th. split_and!; [done..|].
      intros _ h' Hk'. simpl in Hex. unfold fire in Hex. rewrite Hth in Hex.
      simpl in Hex. case_match; [|done]. by injection Hex as <-.
Qed.

(** C5, as the code has it, in a run in which [__aexit__] is only called
    on holders that have not left the pool: a key is in the timer
    dictionary if and only if the holder that the pool has under the key
    has itself been released from count one to zero and there was no
    [get] for the key since that release (deletion has not taken the
    holder out of the pool: it is still filed).  The count need not be
    zero any more: an acquisition through the holder obtained earlier
    moves the count and leaves the timer alone.  The handle of the timer
    was never cancelled, is due one time-to-live after that release, and
    the holder's count is that of the acquisitions and releases made on
    it since. *)
Theorem timer_dictionary_entries tr w k :
  run key ttl tr init = Some w →
  releases_filed key ttl tr init = true →
  (is_Some (_timers w !! k) ↔
     ∃ h t0 tr2, _instances w !! k = Some h ∧
       released_at key ttl tr h t0 tr2 ∧
       Forall (λ l, is_Get key k l = false) tr2) ∧
  (∀ t, _timers w !! k = Some t →
     ∃ th h hd t0 tr2, handles w !! t = Some th ∧ th_key th = k ∧
       th_cancelled th = false ∧
       _instances w !! k = Some h ∧ holders w !! h = Some hd ∧
       released_at key ttl tr h t0 tr2 ∧
       Forall (λ l, is_Get key k l = false) tr2 ∧
       th_when th = (t0 + ttl)%nat ∧
       _count hd = acquisitions h tr2 - releases h tr2).
Proof.
  intros Hrun Hfiled.
  assert (reachable key ttl w) as Hreach by (by exists tr).
  pose proof (reachable_timers_ok _ Hreach) as Hok.
  assert (∀ t, _timers w !! k = Some t →
     ∃ th h hd t0 tr2, handles w !! t = Some th ∧ th_key th = k ∧
       th_cancelled th = false ∧
       _instances w !! k = Some h ∧ holders w !! h = Some hd ∧
       released_at key ttl tr h t0 tr2 ∧
       Forall (λ l, is_Get key k l = false) tr2 ∧
       th_when th = (t0 + ttl)%nat ∧
       _count hd = acquisitions h tr2 - releases h tr2) as Hentry.
  { intros t Ht.
    destruct (timers_handle _ Hok _ _ Ht) as (th & Hth & Hkey & Hc).
    destruct (timer_of_filed_holder _ _ _ _ _ Hrun Hfiled Ht Hth)
      as (h & hd & t0 & tr2 & Hk & Hhd & Hrel & Hall & Hwhen & Hcount).
    by exists th, h, hd, t0, tr2. }
  split; [|done]. split.
  - intros [t Ht].
    destruct (Hentry _ Ht)
      as (th & h & hd & t0 & tr2 & _ & _ & _ & Hk & _ & Hrel & Hall & _).
    by exists h, t0, tr2.
  - intros (h & t0 & tr2 & Hk & Hrel & Hall).
    by eapply released_filed_has_timer.
Qed.

Lemma cancelled_never_fires tr w w' t th :
  handles w !! t = Some th → th_cancelled th = true →
  run key ttl tr w = Some w' → fire t w' = None.
Proof.
  intros Hth Hc Hrun.
  destruct (handles_later_run _ _ _ Hrun _ _ Hth) as (th' & Hth' & _ & _ & Hc' & _).
  unfold fire. rewrite Hth'. simpl. rewrite (Hc' Hc).
  by rewrite andb_false_r.
Qed.

(** C3, as the code has it: the exit routine of a holder's resource has
    been called once if the holder has left the instance dictionary and
    not at all while it is filed.  In a run in which [__aexit__] is only
    called on holders that have not left the pool, a deletion task waits
    for a key only when the timer of that key has fired, and that timer
    was made by the release that took the very holder the pool had under
    the key from count one to zero; it was due one time-to-live after
    that release, fired no earlier, and there was no [get] for the key
    between the release and the firing (acquisitions through the holder
    obtained earlier do not count: they leave the timer alone).  When no
    [get] for the key comes between the firing and the task, the holder
    the task finds under the key is that one.  A [get] for a key whose
    timer has not fired cancels it: the holder is returned as it is, no
    exit routine is called, no handle of that key is left to fire, and
    the cancelled handle never fires afterwards. *)
Theorem exit_once_and_eviction_after_idle_ttl tr w :
  run key ttl tr init = Some w →
  (∀ h hd, holders w !! h = Some hd →
     ∃ r, resources w !! _value hd = Some r ∧
       exit_called r =
         if decide (_instances w !! _key hd = Some h) then 0%nat else 1%nat) ∧
  (releases_filed key ttl tr init = true →
   ∀ k, k ∈ tasks w →
     ∃ tr1 t tr2 wf h t0 trm, tr = tr1 ++ Fire t :: tr2 ∧
       run key ttl tr1 init = Some wf ∧
       _instances wf !! k = Some h ∧
       released_at key ttl tr1 h t0 trm ∧
       Forall (λ l, is_Get key k l = false) trm ∧
       (t0 + ttl ≤ time wf)%nat ∧ (time wf ≤ time w)%nat ∧
       (Forall (λ l, is_Get key k l = false) tr2 →
        ∀ h', _instances w !! k = Some h' → h' = h)) ∧
  (∀ a h t th, _instances w !! key a = Some h →
     _timers w !! key a = Some t → handles w !! t = Some th →
     th_scheduled th = true →
     ∃ w', get key a w = (h, w') ∧
       resources w' = resources w ∧
       _instances w' !! key a = Some h ∧
       _timers w' !! key a = None ∧
       (∀ t' th', handles w' !! t' = Some th' → th_key th' = key a →
                  th_cancelled th' = true) ∧
       ∀ tr' w'', run key ttl tr' w' = Some w'' → fire t w'' = None).
Proof.
  intros Hrun.
  assert (reachable key ttl w) as Hreach by (by exists tr).
  pose proof (reachable_heap_ok _ Hreach) as Hheap.
  split_and!.
  - intros h hd Hhd.
    pose proof (heap_value _ Hheap _ _ Hhd) as Hv.
    pose proof (lookup_lt_Some _ _ _ Hhd) as Hlt.
    destruct (lookup_lt_is_Some_2 (resources w) h) as [r Hr].
    { by rewrite (heap_len _ Hheap). }
    exists r. rewrite Hv. split; [done|]. by eapply heap_exit.
  - intros Hfiled k Hin.
    destruct (tasks_origin _ _ Hrun _ Hin)
      as (tr1 & t & tr2 & wf & th & -> & Hrf & Ht & Hth & Hdue & Hsame).
    pose proof (releases_filed_prefix _ _ _ Hfiled) as Hfiled1.
    destruct (timer_of_filed_holder _ _ _ _ _ Hrf Hfiled1 Ht Hth)
      as (h & hd & t0 & trm & Hk & Hhd & Hrel & Hall & Hwhen & _).
    exists tr1, t, tr2, wf, h, t0, trm. split_and!; [done..|lia| |].
    + rewrite run_app, Hrf in Hrun. simpl in Hrun. by eapply time_run.
    + intros Hall2 h' Hk'. specialize (Hsame Hall2 _ Hk'). congruence.
  - intros a h t th Hk Ht Hth Hs.
    assert (exec key ttl (Get a) w = Some (get key a w).2) as Hex by done.
    pose proof (reachable_timers_ok _ (reachable_step _ _ _ Hreach Hex)) as Hok'.
    rewrite (get_live _ _ _ Hk) in Hex, Hok'. simpl in Hex, Hok'.
    exists (_stop_timer (key a) w).
    destruct (_stop_timer_frame (key a) w) as (_ & Hr & _ & _ & _ & Hi).
    assert (_timers (_stop_timer (key a) w) !! key a = None) as Hnone.
    { rewrite _stop_timer_timers. apply lookup_delete_eq. }
    split_and!; [by apply get_live|done|by rewrite Hi|done| |].
    + intros t' th' Hth' Hkey.
      destruct (th_cancelled th') eqn:Hc; [done|].
      pose proof (handle_timers _ Hok' _ _ Hth' Hc) as Ht'.
      rewrite Hkey in Ht'. congruence.
    + intros tr' w'' Hrun'.
      eapply (cancelled_never_fires tr' (_stop_timer (key a) w) w'' t
                (th_cancel th)); [|done..].
      rewrite _stop_timer_handles, Ht.
      by rewrite list_lookup_alter_eq, Hth.
Qed.

(** ** Leaving the pool *)

(** C9, as the code has it.  [Pool.__aexit__] deletes the keys that the
    instance dictionary has when it starts, one after the other and
    whatever the clock and the counts say; it waits for the exit routine
    of every holder, and an exception of an exit routine ends it.  When
    the exit routines of the filed holders return and no other task
    runs meanwhile, it returns, and what it leaves is what the step
    [Shutdown] of the runs leaves: the instance dictionary is empty and
    the size is zero, the exit routine of every holder that was filed
    has been called, once, no key has a timer that had a holder, and no
    key at all when every timer belonged to a key with a holder.
    When other tasks take the steps [between] while it waits, and make
    no [get], its result is again a return, and then: the instance
    dictionary is empty and the size is zero; the exit routine of every
    holder that was filed has been called, once; the timer that a key
    with a holder had is cancelled; and every handle made before is
    cancelled when every timer belonged to a key with a holder.  Every
    timer does belong to a key with a holder in a run in which
    [__aexit__] is only called on holders that have not left the pool. *)
Theorem shutdown_deletes_every_key tr w exit_raises between :
  run key ttl tr init = Some w →
  exits_return exit_raises w →
  Forall (Forall (λ l, calls_get l = false)) between →
  (Pool__aexit__ key ttl exit_raises [] w = Some (Returns (), drain_all w) ∧
   _instances (drain_all w) = ∅ ∧
   __len__ (drain_all w) = 0%nat ∧
   (∀ k h, _instances w !! k = Some h →
      ∃ hd r r', holders w !! h = Some hd ∧
        resources w !! _value hd = Some r ∧ exit_called r = 0%nat ∧
        resources (drain_all w) !! _value hd = Some r' ∧
        exit_called r' = 1%nat) ∧
   (∀ k, is_Some (_instances w !! k) → _timers (drain_all w) !! k = None) ∧
   (dom (_timers w) ⊆ dom (_instances w) → _timers (drain_all w) = ∅)) ∧
  (∀ o w', Pool__aexit__ key ttl exit_raises between w = Some (o, w') →
    o = Returns () ∧
    _instances w' = ∅ ∧
    __len__ w' = 0%nat ∧
    (∀ k h, _instances w !! k = Some h →
       ∃ hd r r', holders w !! h = Some hd ∧
         resources w !! _value hd = Some r ∧ exit_called r = 0%nat ∧
         resources w' !! _value hd = Some r' ∧ exit_called r' = 1%nat) ∧
    (∀ k t, is_Some (_instances w !! k) → _timers w !! k = Some t →
       ∃ th', handles w' !! t = Some th' ∧ th_cancelled th' = true) ∧
    (dom (_timers w) ⊆ dom (_instances w) →
     ∀ t th, handles w !! t = Some th →
       ∃ th', handles w' !! t = Some th' ∧ th_cancelled th' = true)) ∧
  (releases_filed key ttl tr init = true →
   dom (_timers w) ⊆ dom (_instances w)).
Proof.
  intros Hrun0 Hret Hbetween.
  assert (reachable key ttl w) as Hreach by (by exists tr).
  pose proof (reachable_heap_ok _ Hreach) as Hheap.
  pose proof (reachable_timers_ok _ Hreach) as Hok.
  pose proof (Pool__aexit___uninterrupted exit_raises w Hret) as Halone.
  assert (∀ between0, Forall (Forall (λ l, calls_get l = false)) between0 →
    ∀ o w', Pool__aexit__ key ttl exit_raises between0 w = Some (o, w') →
    o = Returns () ∧
    _instances w' = ∅ ∧
    __len__ w' = 0%nat ∧
    (∀ k h, _instances w !! k = Some h →
       ∃ hd r r', holders w !! h = Some hd ∧
         resources w !! _value hd = Some r ∧ exit_called r = 0%nat ∧
         resources w' !! _value hd = Some r' ∧ exit_called r' = 1%nat) ∧
    (∀ k t, is_Some (_instances w !! k) → _timers w !! k = Some t →
       ∃ th', handles w' !! t = Some th' ∧ th_cancelled th' = true) ∧
    (dom (_timers w) ⊆ dom (_instances w) →
     ∀ t th, handles w !! t = Some th →
       ∃ th', handles w' !! t = Some th' ∧ th_cancelled th' = true)) as Hgen.
  { intros between0 Hbetween0 o w' Hexit. unfold Pool__aexit__ in Hexit.
    destruct (delete_keys_run _ _ _ _ _ _ Hreach Hret Hbetween0 Hexit)
      as (-> & trs & Hrun & Hall & Hdrain).
    pose proof (reachable_run _ _ _ Hreach Hrun) as Hreach'.
    pose proof (reachable_heap_ok _ Hreach') as Hheap'.
    assert (∀ k, is_Some (_instances w !! k) → Drain k ∈ trs) as Hturn.
    { intros k Hk. by apply Hdrain, dict_keys_elem_of. }
    assert (_instances w' = ∅) as Hempty.
    { apply map_empty. intros k.
      destruct (_instances w' !! k) as [h|] eqn:Hk; [|done].
      pose proof (run_no_get_instances _ _ _ _ _ Hrun Hall Hk) as Hk0.
      destruct (run_drain_no_get _ _ _ k Hreach Hrun Hall) as [Hnone _];
        [eauto|congruence]. }
    split_and!; [done|done| | | |].
    + unfold __len__. rewrite Hempty. apply map_size_empty.
    + intros k h Hk.
      destruct (heap_inst _ Hheap _ _ Hk) as (hd & Hhd & Hkey).
      pose proof (heap_value _ Hheap _ _ Hhd) as Hv.
      pose proof (lookup_lt_Some _ _ _ Hhd) as Hlt.
      destruct (lookup_lt_is_Some_2 (resources w) h) as [r Hr].
      { by rewrite (heap_len _ Hheap). }
      destruct (holders_later_run _ _ _ Hrun _ _ Hhd) as (hd' & Hhd' & Hk' & _).
      pose proof (lookup_lt_Some _ _ _ Hhd') as Hlt'.
      destruct (lookup_lt_is_Some_2 (resources w') h) as [r' Hr'].
      { by rewrite (heap_len _ Hheap'). }
      exists hd, r, r'. rewrite Hv. split_and!; [done..| |done|].
      * rewrite (heap_exit _ Hheap _ _ _ Hhd Hr), Hkey. by rewrite decide_True.
      * rewrite (heap_exit _ Hheap' _ _ _ Hhd' Hr'), Hempty, lookup_empty.
        by rewrite decide_False.
    + intros k t Hk Ht.
      destruct (timers_handle _ Hok _ _ Ht) as (th & Hth & Hkey & _).
      destruct (run_drain_no_get _ _ _ k Hreach Hrun Hall (Hturn _ Hk))
        as [_ Hcancelled].
      by eapply Hcancelled.
    + intros Hsub t th Hth.
      destruct (th_cancelled th) eqn:Hc.
      * destruct (handles_later_run _ _ _ Hrun _ _ Hth)
          as (th' & Hth' & _ & _ & Hc' & _).
        exists th'. auto.
      * pose proof (handle_timers _ Hok _ _ Hth Hc) as Ht.
        assert (is_Some (_instances w !! th_key th)) as Hk.
        { apply elem_of_dom, Hsub, elem_of_dom. eauto. }
        destruct (run_drain_no_get _ _ _ _ Hreach Hrun Hall (Hturn _ Hk))
          as [_ Hcancelled].
        by eapply Hcancelled. }
  destruct (Hgen [] (Forall_nil_2 _) _ _ Halone)
    as (_ & Hempty & Hlen & Hexits & _).
  split; [split_and!; [done..| |]|split; [by apply Hgen|]].
  - intros k Hk. unfold drain_all, drain. rewrite drain_timers.
    rewrite decide_True; [done|]. by apply elem_of_keys.
  - intros Hsub. apply map_empty. intros k.
    unfold drain_all, drain. rewrite drain_timers.
    case_decide as Hin; [done|].
    destruct (_timers w !! k) as [t|] eqn:Ht; [|done].
    exfalso. apply Hin, elem_of_keys, elem_of_dom, Hsub, elem_of_dom. eauto.
  - by apply timers_of_filed_keys.
Qed.

Lemma get_same_key a1 a2 w :
  key a2 = key a1 →
  (get key a2 (get key a1 w).2).1 = (get key a1 w).1.
Proof.
  intros Hkey. pose proof (get_instances a1 w) as Hk.
  rewrite <- Hkey in Hk. by rewrite (get_live _ _ _ Hk).
Qed.

(** Arguments that derive different keys get different holders. *)
Lemma get_distinct_keys a1 a2 w :
  reachable key ttl w → key a2 ≠ key a1 →
  (get key a2 (get key a1 w).2).1 ≠ (get key a1 w).1.
Proof.
  intros Hreach Hne Heq.
  set (w1 := (get key a1 w).2) in *.
  assert (exec key ttl (Get a1) w = Some w1) as Hex1 by done.
  assert (exec key ttl (Get a2) w1 = Some (get key a2 w1).2) as Hex2 by done.
  pose proof (reachable_step _ _ _ Hreach Hex1) as Hreach1.
  pose proof (reachable_step _ _ _ Hreach1 Hex2) as Hreach2.
  pose proof (reachable_heap_ok _ Hreach2) as Hheap.
  pose proof (get_instances a2 w1) as Hk2. rewrite Heq in Hk2.
  pose proof (get_instances a1 w) as Hk1. fold w1 in Hk1.
  destruct (heap_inst _ Hheap _ _ Hk2) as (hd2 & Hhd2 & Hkey2).
  pose proof (reachable_heap_ok _ Hreach1) as Hheap1.
  destruct (heap_inst _ Hheap1 _ _ Hk1) as (hd1 & Hhd1 & Hkey1).
  destruct (holders_later_exec _ _ _ Hex2 _ _ Hhd1) as (hd1' & Hhd1' & Hk' & _).
  congruence.
Qed.

(** ** More on the pool *)

Lemma run_cons_Some l tr w w1 :
  exec key ttl l w = Some w1 → run key ttl (l :: tr) w = run key ttl tr w1.
Proof. intros Hex. by rewrite run_cons, Hex. Qed.

(** The event loop never holds two handles for the same key that could
    both still fire: of the handles made for a key, at most one has not
    been cancelled. *)
Theorem one_pending_timer_per_key w t1 t2 th1 th2 :
  reachable key ttl w →
  handles w !! t1 = Some th1 → handles w !! t2 = Some th2 →
  th_key th1 = th_key th2 →
  th_cancelled th1 = false → th_cancelled th2 = false →
  t1 = t2.
Proof.
  intros Hreach Hth1 Hth2 Hkey Hc1 Hc2.
  pose proof (reachable_timers_ok _ Hreach) as Hok.
  pose proof (handle_timers _ Hok _ _ Hth1 Hc1) as H1.
  pose proof (handle_timers _ Hok _ _ Hth2 Hc2) as H2.
  rewrite Hkey in H1. congruence.
Qed.

(** [get] never hands out a holder that has been closed: the holder it
    returns is filed under the key of the call, and the exit routine of
    its resource has not been called. *)
Theorem get_returns_open_holder a w :
  reachable key ttl w →
  ∃ hd r, holders (get key a w).2 !! (get key a w).1 = Some hd ∧
    _key hd = key a ∧
    resources (get key a w).2 !! _value hd = Some r ∧
    exit_called r = 0%nat.
Proof.
  intros Hreach.
  assert (exec key ttl (Get a) w = Some (get key a w).2) as Hex by done.
  pose proof (reachable_heap_ok _ (reachable_step _ _ _ Hreach Hex)) as Hheap.
  pose proof (get_instances a w) as Hk.
  destruct (heap_inst _ Hheap _ _ Hk) as (hd & Hhd & Hkey).
  pose proof (heap_value _ Hheap _ _ Hhd) as Hv.
  pose proof (lookup_lt_Some _ _ _ Hhd) as Hlt.
  destruct (lookup_lt_is_Some_2 (resources (get key a w).2) (get key a w).1)
    as [r Hr].
  { by rewrite (heap_len _ Hheap). }
  exists hd, r. rewrite Hv. split_and!; [done..|].
  rewrite (heap_exit _ Hheap _ _ _ Hhd Hr), Hkey. by rewrite decide_True.
Qed.

(** While the entry routine of a holder's resource has been called and
    has not answered, another acquisition of the holder does not wait for
    the answer: it raises the runtime error, incrementing the count and
    calling nothing.  The pending call is not disturbed: when the entry
    routine then answers with a value, the first acquisition returns it. *)
Theorem acquisition_during_pending_entry_raises w h :
  reachable key ttl w → h ∈ entering w →
  ∃ hd w' hd', holders w !! h = Some hd ∧
    _Holder__aenter__ h w = Some (Raises "Not possible?", w') ∧
    holders w' !! h = Some hd' ∧ _count hd' = _count hd + 1 ∧
    resources w' = resources w ∧
    ∀ v, ∃ w'' hd'', _Holder__aenter__resume h (Some v) w' = Some (Returns v, w'') ∧
      holders w'' !! h = Some hd'' ∧ _managed_value hd'' = Some v ∧
      h ∉ entering w''.
Proof.
  intros Hreach Hin.
  destruct (enter_wait _ (reachable_entering_ok _ Hreach) _ Hin)
    as (hd & Hhd & Hc & Hm).
  pose proof (lookup_lt_Some _ _ _ Hhd) as Hlt.
  exists hd. unfold _Holder__aenter__. rewrite Hhd. simpl. rewrite Hc. simpl.
  unfold return_managed. simpl. rewrite Hm.
  eexists _, (add_count 1 hd). split; [done|]. split; [done|]. simpl.
  rewrite list_lookup_insert_eq by done.
  split; [done|]. split; [done|]. split; [done|].
  intros v. unfold _Holder__aenter__resume. simpl.
  rewrite decide_True by done.
  rewrite list_lookup_insert_eq by done. simpl.
  eexists _, _. split; [done|]. simpl.
  rewrite list_insert_insert_eq, list_lookup_insert_eq by done.
  split; [done|]. split; [done|].
  intros [_ Hn]%list_elem_of_difference. by apply Hn, list_elem_of_singleton.
Qed.

Lemma _delete_absent k w :
  _instances w !! k = None → _timers w !! k = None → _delete k w = w.
Proof.
  intros Hi Ht. unfold _delete, _stop_timer. rewrite Ht. by rewrite Hi.
Qed.

(** Deleting a key that is not in the pool is no error and changes
    nothing; so deleting a key twice is the same as deleting it once: the
    second deletion finds neither timer nor holder and closes nothing. *)
Theorem _delete_twice k w : _delete k (_delete k w) = _delete k w.
Proof.
  apply _delete_absent.
  - rewrite _delete_instances. apply lookup_delete_eq.
  - rewrite _delete_timers. apply lookup_delete_eq.
Qed.

(** A [get] does not stop a deletion task that the timer callback has
    already created: it cancels the handle, which has run, and returns
    the filed holder; the caller acquires it; and the task, when the loop
    starts it, takes the holder out of the pool and calls the exit
    routine of its resource although the count is not zero. *)
Theorem get_does_not_stop_created_task a w k rest h hd :
  reachable key ttl w →
  tasks w = k :: rest → _instances w !! k = Some h →
  holders w !! h = Some hd → key a = k →
  ∃ w1 o w2 w3 hd3 r3,
    get key a w = (h, w1) ∧
    _Holder__aenter__ h w1 = Some (o, w2) ∧
    run_task w2 = Some w3 ∧
    _instances w3 !! k = None ∧
    holders w3 !! h = Some hd3 ∧ _count hd3 = _count hd + 1 ∧
    resources w3 !! _value hd3 = Some r3 ∧ exit_called r3 = 1%nat.
Proof.
  intros Hreach Htasks Hk Hhd <-.
  pose proof (lookup_lt_Some _ _ _ Hhd) as Hlt.
  destruct (_stop_timer_frame (key a) w) as (_ & _ & Hh1 & Ht1 & _ & _).
  assert (exec key ttl (Get a) w = Some (_stop_timer (key a) w)) as Hex1.
  { simpl. by rewrite (get_live _ _ _ Hk). }
  destruct (_Holder__aenter__ h (_stop_timer (key a) w)) as [[o w2]|] eqn:Henter.
  2:{ unfold _Holder__aenter__ in Henter. rewrite Hh1, Hhd in Henter.
      simpl in Henter. by destruct (_called_aenter hd). }
  assert (exec key ttl (Enter h) (_stop_timer (key a) w) = Some w2) as Hex2.
  { unfold exec. by rewrite Henter. }
  assert (tasks w2 = key a :: rest ∧
          ∃ hd2, holders w2 !! h = Some hd2 ∧ _count hd2 = _count hd + 1)
    as (Ht2 & hd2 & Hhd2 & Hc2).
  { unfold _Holder__aenter__ in Henter. rewrite Hh1, Hhd in Henter.
    simpl in Henter.
    destruct (_called_aenter hd); simpl in Henter; injection Henter as <- <-;
      simpl; rewrite Ht1, Htasks, Hh1;
      (split; [done|]); eexists;
      (rewrite list_lookup_insert_eq by done); done. }
  assert (run_task w2 = Some (_delete (key a) (set_tasks (λ _, rest) w2))) as Hrun.
  { unfold run_task. by rewrite Ht2. }
  assert (exec key ttl RunTask w2
          = Some (_delete (key a) (set_tasks (λ _, rest) w2))) as Hex3 by done.
  set (w3 := _delete (key a) (set_tasks (λ _, rest) w2)) in *.
  pose proof (reachable_step _ _ _
                (reachable_step _ _ _ (reachable_step _ _ _ Hreach Hex1) Hex2)
                Hex3) as Hreach3.
  pose proof (reachable_heap_ok _ Hreach3) as Hheap3.
  assert (_instances w3 !! key a = None) as Hnone.
  { unfold w3. rewrite _delete_instances. apply lookup_delete_eq. }
  assert (holders w3 = holders w2) as Hh3.
  { unfold w3. by destruct (_delete_frame (key a) (set_tasks (λ _, rest) w2))
      as (_ & -> & _). }
  rewrite <- Hh3 in Hhd2.
  pose proof (heap_value _ Hheap3 _ _ Hhd2) as Hv.
  pose proof (lookup_lt_Some _ _ _ Hhd2) as Hlt3.
  destruct (lookup_lt_is_Some_2 (resources w3) h) as [r3 Hr3].
  { by rewrite (heap_len _ Hheap3). }
  exists (_stop_timer (key a) w), o, w2, w3, hd2, r3.
  rewrite Hv. split_and!; [by apply get_live|done..| ].
  rewrite (heap_exit _ Hheap3 _ _ _ Hhd2 Hr3).
  destruct (holders_later_run [Get a; Enter h; RunTask] w w3) with (h := h) (hd := hd)
    as (hd' & Hhd' & Hkey' & _).
  { by rewrite (run_cons_Some _ _ _ _ Hex1), (run_cons_Some _ _ _ _ Hex2),
      (run_cons_Some _ _ _ _ Hex3). }
  { done. }
  assert (hd' = hd2) as -> by congruence.
  pose proof (heap_inst _ (reachable_heap_ok _ Hreach) _ _ Hk) as (hd0 & Hhd0 & Hkey0).
  assert (hd0 = hd) as -> by congruence.
  rewrite Hkey', Hkey0, Hnone. by rewrite decide_False.
Qed.

(** *** Resources made, pooled and closed *)

Lemma sum_exit_alter_enter i (rs : list Resource) :
  sum_list_with exit_called (alter incr_enter i rs) = sum_list_with exit_called rs.
Proof.
  revert i. induction rs as [|r rs IH]; intros [|i]; [done..|].
  change (alter incr_enter (S i) (r :: rs)) with (r :: alter incr_enter i rs).
  simpl. by rewrite IH.
Qed.

Lemma sum_exit_alter_exit i (rs : list Resource) :
  (i < length rs)%nat →
  sum_list_with exit_called (alter incr_exit i rs)
  = S (sum_list_with exit_called rs).
Proof.
  revert i. induction rs as [|r rs IH]; intros [|i] Hlt; simpl in Hlt;
    [lia..|done|].
  change (alter incr_exit (S i) (r :: rs)) with (r :: alter incr_exit i rs).
  simpl. rewrite IH by lia. lia.
Qed.

Lemma conservation_delete k w :
  heap_ok w →
  (size (_instances w) + sum_list_with exit_called (resources w)
   = length (resources w))%nat →
  (size (_instances (_delete k w))
   + sum_list_with exit_called (resources (_delete k w))
   = length (resources (_delete k w)))%nat.
Proof.
  intros Hheap Hsum.
  rewrite _delete_instances, _delete_resources.
  destruct (_instances w !! k) as [h|] eqn:Hk.
  - destruct (heap_inst _ Hheap _ _ Hk) as (hd & Hhd & Hkey).
    rewrite Hhd, (heap_value _ Hheap _ _ Hhd).
    pose proof (lookup_lt_Some _ _ _ Hhd) as Hlt.
    rewrite <- (heap_len _ Hheap) in Hlt.
    rewrite sum_exit_alter_exit, length_alter by done.
    rewrite map_size_delete, Hk.
    assert (size (_instances w) ≠ 0%nat); [|lia].
    intros Hz%map_size_empty_inv. rewrite Hz, lookup_empty in Hk. done.
  - by rewrite delete_id.
Qed.

Lemma conservation_drain (ks : list K) w :
  heap_ok w →
  (size (_instances w) + sum_list_with exit_called (resources w)
   = length (resources w))%nat →
  (size (_instances (foldl (λ w k, _delete k w) w ks))
   + sum_list_with exit_called (resources (foldl (λ w k, _delete k w) w ks))
   = length (resources (foldl (λ w k, _delete k w) w ks)))%nat.
Proof.
  revert w. induction ks as [|k ks IH]; intros w Hheap Hsum; simpl; [done|].
  apply IH; [by apply heap_ok_delete|by apply conservation_delete].
Qed.

(** Every resource the getter has built is either still in the pool or
    has been closed, and no resource is closed twice: the size of the pool
    plus the number of calls of exit routines is the number of resources
    built. *)
Theorem pool_size_is_built_minus_closed w :
  reachable key ttl w →
  (__len__ w + sum_list_with exit_called (resources w)
   = length (resources w))%nat.
Proof.
  unfold __len__. revert w. apply reachable_ind; [done|].
  intros l w w' Hreach IH Hex.
  pose proof (reachable_heap_ok _ Hreach) as Hheap.
  destruct l as [a|h0 |h0 r|h0 |d|t0| |k0| ]; simpl in Hex.
  - injection Hex as <-.
    destruct (_stop_timer_frame (key a) w) as (_ & Hr & _ & _ & _ & Hi).
    destruct (_instances w !! key a) as [h|] eqn:Hk.
    + rewrite (get_live _ _ _ Hk). simpl. by rewrite Hr, Hi.
    + rewrite (get_fresh _ _ Hk). simpl. rewrite Hr, Hi.
      rewrite map_size_insert_None by done.
      rewrite sum_list_with_app, length_app. simpl. lia.
  - unfold _Holder__aenter__ in Hex.
    destruct (holders w !! h0) as [hd|]; simpl in Hex; [|done].
    destruct (_called_aenter hd); simpl in Hex; injection Hex as <-; simpl;
      [done|].
    by rewrite sum_exit_alter_enter, length_alter.
  - unfold _Holder__aenter__resume in Hex. case_decide; [|done].
    destruct (holders w !! h0) as [hd|]; simpl in Hex; [|done].
    by injection Hex as <-.
  - unfold _Holder__aexit__ in Hex.
    destruct (holders w !! h0) as [hd|]; simpl in Hex; [|done].
    repeat case_decide; simpl in Hex; injection Hex as <-; try done.
    by destruct (_mark_for_deletion_frame (_key hd)
                (set_holders (<[h0 := add_count (-1) hd]>) w))
      as (_ & -> & _ & _ & _ & ->).
  - by injection Hex as <-.
  - unfold fire in Hex. destruct (handles w !! t0) as [th|]; simpl in Hex; [|done].
    case_match; [|done]. by injection Hex as <-.
  - unfold run_task in Hex. destruct (tasks w) as [|k1 rest]; [done|].
    injection Hex as <-.
    apply (conservation_delete k1 (set_tasks (λ _, rest) w)); [|done].
    revert Hheap. by apply heap_ok_frame.
  - injection Hex as <-. by apply conservation_delete.
  - injection Hex as <-. by apply conservation_drain.
Qed.

(** *** The time-to-live *)

Lemma exec_instances_kept l w w' k h :
  exec key ttl l w = Some w' → _instances w !! k = Some h →
  l ≠ Shutdown → l ≠ Drain k → head (tasks w) ≠ Some k →
  _instances w' !! k = Some h.
Proof.
  intros Hex Hk Hshut Hdrain Hhead.
  destruct l as [a|h0 |h0 r|h0 |d|t0| |k0| ]; simpl in Hex.
  - injection Hex as <-.
    destruct (_stop_timer_frame (key a) w) as (_ & _ & _ & _ & _ & Hi).
    destruct (_instances w !! key a) as [h'|] eqn:Hka.
    + rewrite (get_live _ _ _ Hka). simpl. by rewrite Hi.
    + rewrite (get_fresh _ _ Hka). simpl. rewrite Hi.
      rewrite lookup_insert_ne; [done|]. intros Heq. congruence.
  - unfold _Holder__aenter__ in Hex.
    destruct (holders w !! h0) as [hd|]; simpl in Hex; [|done].
    destruct (_called_aenter hd); simpl in Hex; by injection Hex as <-.
  - unfold _Holder__aenter__resume in Hex. case_decide; [|done].
    destruct (holders w !! h0) as [hd|]; simpl in Hex; [|done].
    by injection Hex as <-.
  - unfold _Holder__aexit__ in Hex.
    destruct (holders w !! h0) as [hd|]; simpl in Hex; [|done].
    repeat case_decide; simpl in Hex; injection Hex as <-; try done.
    by destruct (_mark_for_deletion_frame (_key hd)
                (set_holders (<[h0 := add_count (-1) hd]>) w))
      as (_ & _ & _ & _ & _ & ->).
  - by injection Hex as <-.
  - unfold fire in Hex. destruct (handles w !! t0) as [th|]; simpl in Hex; [|done].
    case_match; [|done]. by injection Hex as <-.
  - unfold run_task in Hex. destruct (tasks w) as [|k1 rest]; [done|].
    injection Hex as <-. rewrite _delete_instances. simpl.
    rewrite lookup_delete_ne; [done|]. intros ->. by apply Hhead.
  - injection Hex as <-. rewrite _delete_instances.
    rewrite lookup_delete_ne; [done|]. intros ->. by apply Hdrain.
  - done.
Qed.

Lemma kept_until (T : nat) k h tr :
  ∀ w w', reachable key ttl w → run key ttl tr w = Some w' →
    (time w' ≤ T)%nat →
    _instances w !! k = Some h → k ∉ tasks w →
    (∀ t th, _timers w !! k = Some t → handles w !! t = Some th →
             th_scheduled th = true → (T < th_when th)%nat) →
    (T < time w + ttl)%nat →
    Forall (λ l, l ≠ Shutdown ∧ l ≠ Drain k) tr →
    _instances w' !! k = Some h.
Proof.
  induction tr as [|l tr IH]; intros w w' Hreach Hrun HT Hk Htask Htimer Hnow Hall.
  - by injection Hrun as <-.
  - rewrite run_cons in Hrun.
    destruct (exec key ttl l w) as [w1|] eqn:Hex; [|done]. simpl in Hrun.
    apply Forall_cons in Hall as [[Hshut Hdrain] Hall].
    pose proof (time_exec _ _ _ Hex) as Htime1.
    pose proof (time_run _ _ _ Hrun) as Htime2.
    pose proof (reachable_timers_ok _ Hreach) as Hok.
    apply (IH w1 w'); [by eapply reachable_step|done|done| | | |lia|done].
    + eapply exec_instances_kept; [done..|].
      intros Hhead. apply Htask.
      destruct (tasks w) as [|k1 rest]; [done|].
      injection Hhead as ->. apply elem_of_cons. by left.
    + intros Hin.
      destruct (exec_tasks _ _ _ _ Hex Hin)
        as [Hin0|(t & th & -> & Hth & Hkey & Hc & Hs & Hdue)]; [done|].
      pose proof (handle_timers _ Hok _ _ Hth Hc) as Ht. rewrite Hkey in Ht.
      pose proof (Htimer _ _ Ht Hth Hs). lia.
    + intros t th1 Ht1 Hth1 Hs1.
      destruct (exec_timers _ _ _ _ _ Hex Ht1)
        as [[Ht _]|(h0 & hd & -> & Hhd & Hkey & Hc & Hnew)].
      * destruct (timers_handle _ Hok _ _ Ht) as (th & Hth & _).
        destruct (handles_later_exec _ _ _ Hex _ _ Hth)
          as (th' & Hth' & _ & Hw & _ & Hsched).
        assert (th' = th1) as -> by congruence.
        rewrite Hw. apply (Htimer _ _ Ht Hth).
        destruct (th_scheduled th); [done|]. rewrite Hsched in Hs1; done.
      * rewrite Hnew in Hth1. injection Hth1 as <-. simpl. lia.
Qed.

(** A holder stays in the pool, open, for at least the time-to-live
    after its last release.  From a state in which no deletion task waits
    for its key, whatever the tasks and the event loop do short of leaving
    the pool, the holder is still filed and its exit routine not called
    at every moment that is earlier than the due time of the timer
    pending for the key and earlier than one time-to-live from now. *)
Theorem holder_kept_within_ttl tr w w' k h :
  reachable key ttl w → run key ttl tr w = Some w' →
  _instances w !! k = Some h → k ∉ tasks w →
  (∀ t th, _timers w !! k = Some t → handles w !! t = Some th →
           th_scheduled th = true → (time w' < th_when th)%nat) →
  (time w' < time w + ttl)%nat →
  Forall (λ l, l ≠ Shutdown ∧ l ≠ Drain k) tr →
  _instances w' !! k = Some h ∧
  ∃ hd r, holders w' !! h = Some hd ∧ resources w' !! _value hd = Some r ∧
          exit_called r = 0%nat.
Proof.
  intros Hreach Hrun Hk Htask Htimer Hnow Hall.
  assert (_instances w' !! k = Some h) as Hk'.
  { by eapply (kept_until (time w') k h tr w w'). }
  split; [done|].
  pose proof (reachable_heap_ok _ (reachable_run _ _ _ Hreach Hrun)) as Hheap.
  destruct (heap_inst _ Hheap _ _ Hk') as (hd & Hhd & Hkey).
  pose proof (heap_value _ Hheap _ _ Hhd) as Hv.
  pose proof (lookup_lt_Some _ _ _ Hhd) as Hlt.
  destruct (lookup_lt_is_Some_2 (resources w') h) as [r Hr].
  { by rewrite (heap_len _ Hheap). }
  exists hd, r. rewrite Hv. split_and!; [done..|].
  rewrite (heap_exit _ Hheap _ _ _ Hhd Hr), Hkey. by rewrite decide_True.
Qed.

(** When nothing asks for the key in the meantime, the eviction does
    happen: from a state where the key has a timer that has not fired and
    no task waits, the clock reaching the due time lets the timer fire,
    and the task it creates takes the holder out of the pool, closes it
    and makes the pool one smaller; a later [get] for the key builds a new
    holder. *)
Theorem idle_holder_evicted_after_ttl w k h t th :
  reachable key ttl w →
  _instances w !! k = Some h → _timers w !! k = Some t →
  handles w !! t = Some th → th_scheduled th = true → tasks w = [] →
  ∃ w', run key ttl [Tick (th_when th - time w); Fire t; RunTask] w = Some w' ∧
    _instances w' !! k = None ∧ _timers w' !! k = None ∧
    S (__len__ w') = __len__ w ∧
    (∃ hd r, holders w' !! h = Some hd ∧ resources w' !! _value hd = Some r ∧
             exit_called r = 1%nat) ∧
    ∀ a, key a = k →
      (get key a w').1 = length (holders w') ∧ (get key a w').1 ≠ h.
Proof.
  intros Hreach Hk Ht Hth Hs Htasks.
  destruct (timers_handle _ (reachable_timers_ok _ Hreach) _ _ Ht)
    as (th0 & Hth0 & Hkey & Hc).
  assert (th0 = th) as -> by congruence.
  set (w1 := sleep (th_when th - time w) w).
  assert (exec key ttl (Tick (th_when th - time w)) w = Some w1) as Hex1 by done.
  set (w2 := set_tasks (λ ts, ts ++ [th_key th])
               (set_handles (alter th_unschedule t) w1)).
  assert (exec key ttl (Fire t) w1 = Some w2) as Hex2.
  { simpl. unfold fire. simpl. rewrite Hth. simpl. rewrite Hs, Hc. simpl.
    rewrite bool_decide_eq_true_2 by lia. done. }
  set (w3 := _delete k (set_tasks (λ _, []) w2)).
  assert (exec key ttl RunTask w2 = Some w3) as Hex3.
  { simpl. unfold run_task. simpl. by rewrite Htasks, Hkey. }
  pose proof (reachable_step _ _ _
                (reachable_step _ _ _ (reachable_step _ _ _ Hreach Hex1) Hex2)
                Hex3) as Hreach3.
  pose proof (reachable_heap_ok _ Hreach) as Hheap.
  pose proof (reachable_heap_ok _ Hreach3) as Hheap3.
  assert (_instances w3 !! k = None) as Hnone.
  { unfold w3. rewrite _delete_instances. apply lookup_delete_eq. }
  assert (holders w3 = holders w) as Hh3.
  { unfold w3. by destruct (_delete_frame k (set_tasks (λ _, []) w2))
      as (_ & -> & _). }
  destruct (heap_inst _ Hheap _ _ Hk) as (hd & Hhd & Hkeyh).
  pose proof (lookup_lt_Some _ _ _ Hhd) as Hlt.
  exists w3. split_and!.
  - by rewrite (run_cons_Some _ _ _ _ Hex1), (run_cons_Some _ _ _ _ Hex2),
      (run_cons_Some _ _ _ _ Hex3).
  - done.
  - unfold w3. rewrite _delete_timers. apply lookup_delete_eq.
  - unfold __len__, w3. rewrite _delete_instances. simpl.
    rewrite map_size_delete, Hk.
    assert (size (_instances w) ≠ 0%nat); [|simpl; lia].
    intros Hz%map_size_empty_inv. rewrite Hz, lookup_empty in Hk. done.
  - rewrite <- Hh3 in Hhd.
    pose proof (heap_value _ Hheap3 _ _ Hhd) as Hv.
    destruct (lookup_lt_is_Some_2 (resources w3) h) as [r Hr].
    { by rewrite (heap_len _ Hheap3), Hh3. }
    exists hd, r. rewrite Hv. split_and!; [done..|].
    rewrite (heap_exit _ Hheap3 _ _ _ Hhd Hr), Hkeyh, Hnone.
    by rewrite decide_False.
  - intros a <-. rewrite (get_fresh _ _ Hnone). simpl.
    split; [done|]. rewrite Hh3. lia.
Qed.

(** *** A release marks the key, not the holder *)

(** [_Holder.__aexit__] hands the key of the holder to
    [_mark_for_deletion]: the release that takes a holder from count one
    to zero files a timer under the holder's key, whether the pool still
    has this holder under the key, another one, or none. *)
Theorem release_files_timer_under_key w h hd :
  holders w !! h = Some hd → _count hd = 1 →
  ∃ w', _Holder__aexit__ ttl h w = Some (Returns (), w') ∧
    _instances w' = _instances w ∧
    _timers w' !! _key hd = Some (length (handles w)) ∧
    handles w' !! length (handles w)
    = Some (MkTimerHandle (time w + ttl)%nat (_key hd) false true).
Proof.
  intros Hhd Hc. unfold _Holder__aexit__. rewrite Hhd. simpl.
  rewrite decide_False by lia. rewrite decide_True by lia.
  eexists. split; [done|].
  destruct (_mark_for_deletion_frame (_key hd)
              (set_holders (<[h := add_count (-1) hd]>) w))
    as (_ & _ & _ & _ & _ & ->).
  rewrite _mark_for_deletion_timers, _mark_for_deletion_handles.
  rewrite lookup_insert_eq.
  pose proof (_stop_timer_handles_length (_key hd)
                (set_holders (<[h := add_count (-1) hd]>) w)) as Hlen.
  simpl in Hlen. rewrite Hlen. split_and!; [done..|].
  rewrite <- Hlen. by apply list_lookup_middle.
Qed.

(** *** Pickling *)

(** [__getstate__] reads all six slots, and [__init__] assigns five of
    them: on the pool of every world, whatever it holds, reading the slot
    [_pickleable] raises [AttributeError] and no state is returned. *)
Theorem getstate_raises_on_every_pool w :
  __getstate__ (pool_object key ttl w) = AttributeError "_pickleable".
Proof.
  unfold __getstate__, pool_object, Pool__init__. simpl.
  unfold getattr. by simplify_map_eq.
Qed.

Lemma slots_state_all (self : gmap string (SlotVal K)) state :
  slots_state self __slots__ = Found state →
  ∃ vg vk vi vt vl vp : SlotVal K,
    self !! "_getter" = Some vg ∧ self !! "_key" = Some vk ∧
    self !! "_instances" = Some vi ∧ self !! "_timers" = Some vt ∧
    self !! "_ttl" = Some vl ∧ self !! "_pickleable" = Some vp ∧
    state = [("_getter", vg); ("_key", vk); ("_instances", vi);
             ("_timers", vt); ("_ttl", vl); ("_pickleable", vp)]%string.
Proof.
  unfold __slots__, slots_state, getattr.
  destruct (self !! "_getter") as [vg|]; [|done].
  destruct (self !! "_key") as [vk|]; [|done].
  destruct (self !! "_instances") as [vi|]; [|done].
  destruct (self !! "_timers") as [vt|]; [|done].
  destruct (self !! "_ttl") as [vl|]; [|done].
  destruct (self !! "_pickleable") as [vp|]; [|done].
  intros [= <-]. by exists vg, vk, vi, vt, vl, vp.
Qed.

(** When all six slots have been assigned, the state that
    [__getstate__] returns, given to [__setstate__] on a new object,
    rebuilds the pool with every slot as it was except the two
    dictionaries, which are empty: the copy starts with no instance and
    no timer. *)
Theorem setstate_getstate_resets_dictionaries
    (self : gmap string (SlotVal K)) state :
  (∀ name, is_Some (self !! name) → name ∈ __slots__) →
  __getstate__ self = Found state →
  __setstate__ ∅ state
  = Found (<["_timers" := VDict ∅]> (<["_instances" := VDict ∅]> self)).
Proof.
  intros Hslots. unfold __getstate__.
  destruct (slots_state self __slots__) as [st|] eqn:Hst; [|done].
  destruct (slots_state_all _ _ Hst)
    as (vg & vk & vi & vt & vl & vp & Hg & Hky & Hi & Ht & Hl & Hp & ->).
  intros [= <-]. vm_compute foldl. unfold __setstate__. simpl.
  unfold setattr. simpl. f_equal. apply map_eq. intros name.
  destruct (decide (name = "_timers")) as [->|?]; [by simplify_map_eq|].
  destruct (decide (name = "_instances")) as [->|?]; [by simplify_map_eq|].
  destruct (decide (name = "_getter")) as [->|?]; [by simplify_map_eq|].
  destruct (decide (name = "_key")) as [->|?]; [by simplify_map_eq|].
  destruct (decide (name = "_ttl")) as [->|?]; [by simplify_map_eq|].
  destruct (decide (name = "_pickleable")) as [->|?]; [by simplify_map_eq|].
  simplify_map_eq.
  destruct (self !! name) as [v|] eqn:Hname; [|done].
  exfalso. assert (name ∈ __slots__) as Hin by (apply Hslots; eauto).
  unfold __slots__ in Hin.
  repeat (apply elem_of_cons in Hin as [->|Hin]; [done|]).
  by apply elem_of_nil in Hin.
Qed.
End Proofs.

(** ** The default key deriver *)

(** C8: the key is a function of the arguments, and two calls with the
    same positional arguments and the same named arguments, supplied in
    any order, derive the same key. *)
Theorem reduce_args_named_order (hash : list PyVal → Z) (args : list PyVal)
    (kw1 kw2 : list (string * PyVal)) :
  NoDup kw1.*1 → kw1 ≡ₚ kw2 →
  reduce_args hash (MkArgs args kw1) = reduce_args hash (MkArgs args kw2).
Proof.
  intros Hnd Hp. unfold reduce_args. simpl. f_equal.
  by apply hash_values_kwargs_perm.
Qed.

Lemma reduce_args_named_order_witness :
  NoDup (a_kwargs named_ab).*1 ∧ a_kwargs named_ab ≡ₚ a_kwargs named_ba ∧
  reduce_args test_hash named_ab = reduce_args test_hash named_ba.
Proof.
  assert (NoDup (a_kwargs named_ab).*1) as Hnd.
  { apply (bool_decide_unpack _). vm_compute. exact I. }
  assert (a_kwargs named_ab ≡ₚ a_kwargs named_ba) as Hp.
  { apply perm_swap. }
  split; [exact Hnd|]. split; [exact Hp|].
  exact (reduce_args_named_order test_hash [PyStr "x"] _ _ Hnd Hp).
Defined.

(** The names are hashed in increasing order, each before its value. *)
Lemma hash_values_named_ba :
  hash_values (a_args named_ba) (a_kwargs named_ba)
  = [PyStr "x"; PyStr "a"; PyInt 1; PyStr "b"; PyInt 2].
Proof. reflexivity. Qed.

(** C4 on the code: the call with positional arguments ["a"], ["b"], [1]
    and the call with positional ["a"] and named [b=1] are different
    calls, yet whatever the hash function they derive the same key, and a
    pool with the default deriver hands both the same holder. *)
Theorem get_confuses_named_with_positional (hash : list PyVal → Z)
    (w : World Z nat) :
  positional_ab1 ≠ named_b1 ∧
  reduce_args hash positional_ab1 = reduce_args hash named_b1 ∧
  (get (reduce_args hash) named_b1 (get (reduce_args hash) positional_ab1 w).2).1
  = (get (reduce_args hash) positional_ab1 w).1.
Proof.
  assert (reduce_args hash named_b1 = reduce_args hash positional_ab1) as Hkey
    by reflexivity.
  split; [done|]. split; [done|]. by apply get_same_key.
Qed.

(** ** The theorems at work on a pool with time-to-live 30 *)

Lemma get_returns_live_holder_witness :
  reachable test_key 30 (init : World Z nat) ∧
  get test_key named_ab init = (0%nat, first_get) ∧
  run test_key 30 use_then_wait first_get = Some before_second_get ∧
  _instances before_second_get !! test_key named_ab = Some 0%nat ∧
  test_key named_ba = test_key named_ab ∧
  ∃ w', get test_key named_ba before_second_get = (0%nat, w') ∧
        resources w' = resources before_second_get.
Proof.
  assert (reachable test_key 30 (init : World Z nat)) as H1 by (by exists []).
  assert (get test_key named_ab init = (0%nat, first_get)) as H2
    by (vm_compute; reflexivity).
  assert (run test_key 30 use_then_wait first_get = Some before_second_get) as H3
    by (vm_compute; reflexivity).
  assert (_instances before_second_get !! test_key named_ab = Some 0%nat) as H4
    by (vm_compute; reflexivity).
  assert (test_key named_ba = test_key named_ab) as H5
    by (vm_compute; reflexivity).
  split; [exact H1|]. split; [exact H2|]. split; [exact H3|].
  split; [exact H4|]. split; [exact H5|].
  destruct (get_returns_live_holder test_key 30 named_ab named_ba init 0%nat
              first_get use_then_wait before_second_get H1 H2 H3 H4 H5)
    as ((w' & Hget & Hres & _) & _).
  exists w'. split; [exact Hget|exact Hres].
Defined.

Lemma entry_invoked_on_first_acquisition_only_witness :
  run test_key 30 acquire_release init = Some (test_run 30 acquire_release) ∧
  holders (test_run 30 acquire_release) !! 0%nat = Some used_holder ∧
  ∃ r, resources (test_run 30 acquire_release) !! 0%nat = Some r ∧
       enter_called r = 1%nat.
Proof.
  assert (run test_key 30 acquire_release init
          = Some (test_run 30 acquire_release)) as H1 by (vm_compute; reflexivity).
  assert (holders (test_run 30 acquire_release) !! 0%nat = Some used_holder) as H2
    by (vm_compute; reflexivity).
  split; [exact H1|]. split; [exact H2|].
  destruct (entry_invoked_on_first_acquisition_only test_key 30 acquire_release
              (test_run 30 acquire_release) 0%nat used_holder H1 H2)
    as ((r & Hr & Hcalled) & _).
  exists r. split; [exact Hr|exact Hcalled].
Defined.

Lemma exit_once_and_eviction_after_idle_ttl_witness :
  run test_key 30 timer_fired init = Some (test_run 30 timer_fired) ∧
  releases_filed test_key 30 timer_fired init = true ∧
  test_key hello ∈ tasks (test_run 30 timer_fired) ∧
  ∃ tr1 t tr2 wf h t0 trm,
    timer_fired = tr1 ++ Fire t :: tr2 ∧
    run test_key 30 tr1 init = Some wf ∧
    _instances wf !! test_key hello = Some h ∧
    released_at test_key 30 tr1 h t0 trm ∧
    Forall (λ l, is_Get test_key (test_key hello) l = false) trm ∧
    (t0 + 30 ≤ time wf)%nat ∧
    (time wf ≤ time (test_run 30 timer_fired))%nat ∧
    (Forall (λ l, is_Get test_key (test_key hello) l = false) tr2 →
     ∀ h', _instances (test_run 30 timer_fired) !! test_key hello = Some h' →
           h' = h).
Proof.
  assert (run test_key 30 timer_fired init = Some (test_run 30 timer_fired))
    as H1 by (vm_compute; reflexivity).
  assert (releases_filed test_key 30 timer_fired init = true) as H2
    by (vm_compute; reflexivity).
  assert (test_key hello ∈ tasks (test_run 30 timer_fired)) as H3.
  { replace (tasks (test_run 30 timer_fired)) with [test_key hello]
      by (vm_compute; reflexivity).
    apply elem_of_cons. left. reflexivity. }
  split; [exact H1|]. split; [exact H2|]. split; [exact H3|].
  exact (proj1 (proj2 (exit_once_and_eviction_after_idle_ttl test_key 30 _ _ H1))
           H2 _ H3).
Defined.

Lemma timer_dictionary_entries_witness :
  run test_key 30 acquire_release init = Some (test_run 30 acquire_release) ∧
  releases_filed test_key 30 acquire_release init = true ∧
  (is_Some (_timers (test_run 30 acquire_release) !! test_key hello) ↔
     ∃ h t0 tr2,
       _instances (test_run 30 acquire_release) !! test_key hello = Some h ∧
       released_at test_key 30 acquire_release h t0 tr2 ∧
       Forall (λ l, is_Get test_key (test_key hello) l = false) tr2) ∧
  ∀ t, _timers (test_run 30 acquire_release) !! test_key hello = Some t →
    ∃ th h hd t0 tr2,
      handles (test_run 30 acquire_release) !! t = Some th ∧
      th_key th = test_key hello ∧ th_cancelled th = false ∧
      _instances (test_run 30 acquire_release) !! test_key hello = Some h ∧
      holders (test_run 30 acquire_release) !! h = Some hd ∧
      released_at test_key 30 acquire_release h t0 tr2 ∧
      Forall (λ l, is_Get test_key (test_key hello) l = false) tr2 ∧
      th_when th = (t0 + 30)%nat ∧
      _count hd = acquisitions h tr2 - releases h tr2.
Proof.
  assert (run test_key 30 acquire_release init
          = Some (test_run 30 acquire_release)) as H1 by (vm_compute; reflexivity).
  assert (releases_filed test_key 30 acquire_release init = true) as H2
    by (vm_compute; reflexivity).
  split; [exact H1|]. split; [exact H2|].
  exact (timer_dictionary_entries test_key 30 _ _ (test_key hello) H1 H2).
Defined.

Lemma release_beyond_acquisitions_raises_witness :
  run test_key 30 only_get init = Some (test_run 30 only_get) ∧
  holders (test_run 30 only_get) !! 0%nat = Some fresh_holder ∧
  ∃ w', _Holder__aexit__ 30 0 (test_run 30 only_get)
        = Some (Raises "__aexit__ called too many times", w').
Proof.
  assert (run test_key 30 only_get init = Some (test_run 30 only_get)) as H1
    by (vm_compute; reflexivity).
  assert (holders (test_run 30 only_get) !! 0%nat = Some fresh_holder) as H2
    by (vm_compute; reflexivity).
  split; [exact H1|]. split; [exact H2|].
  destruct (release_beyond_acquisitions_raises test_key 30 only_get
              (test_run 30 only_get) 0%nat fresh_holder H1 H2)
    as (_ & Hraise & _).
  apply Hraise. vm_compute. discriminate.
Defined.

Lemma filed_holder_count_and_removal_witness :
  run test_key 30 acquire_release init = Some (test_run 30 acquire_release) ∧
  _instances (test_run 30 acquire_release) !! test_key hello = Some 0%nat ∧
  ∃ hd r, holders (test_run 30 acquire_release) !! 0%nat = Some hd ∧
    resources (test_run 30 acquire_release) !! _value hd = Some r ∧
    _count hd = acquisitions 0 acquire_release - releases 0 acquire_release ∧
    exit_called r = 0%nat.
Proof.
  assert (run test_key 30 acquire_release init
          = Some (test_run 30 acquire_release)) as H1 by (vm_compute; reflexivity).
  assert (_instances (test_run 30 acquire_release) !! test_key hello
          = Some 0%nat) as H2 by (vm_compute; reflexivity).
  split; [exact H1|]. split; [exact H2|].
  destruct (filed_holder_count_and_removal test_key 30 acquire_release
              (test_run 30 acquire_release) (test_key hello) 0%nat H1 H2)
    as (hd & r & Hhd & _ & Hr & Hc & _ & Hexit & _).
  exists hd, r. repeat split; assumption.
Defined.

Lemma shutdown_deletes_every_key_witness :
  run test_key 30 acquire_release init = Some (test_run 30 acquire_release) ∧
  exits_return exits_all_return (test_run 30 acquire_release) ∧
  Forall (Forall (λ l, calls_get l = false)) acquire_meanwhile ∧
  releases_filed test_key 30 acquire_release init = true ∧
  __len__ (test_run 30 acquire_release) = 1%nat ∧
  Pool__aexit__ test_key 30 exits_all_return [] (test_run 30 acquire_release)
  = Some (Returns (), drain_all (test_run 30 acquire_release)) ∧
  __len__ (drain_all (test_run 30 acquire_release)) = 0%nat ∧
  _timers (drain_all (test_run 30 acquire_release)) = ∅ ∧
  ∀ o w', Pool__aexit__ test_key 30 exits_all_return acquire_meanwhile
            (test_run 30 acquire_release) = Some (o, w') →
    o = Returns () ∧ __len__ w' = 0%nat.
Proof.
  assert (run test_key 30 acquire_release init
          = Some (test_run 30 acquire_release)) as H1 by (vm_compute; reflexivity).
  assert (exits_return exits_all_return (test_run 30 acquire_release)) as H2.
  { intros k h hd _ _. reflexivity. }
  assert (Forall (Forall (λ l : label Z nat, calls_get l = false))
            acquire_meanwhile) as H3.
  { repeat constructor. }
  assert (releases_filed test_key 30 acquire_release init = true) as H4
    by (vm_compute; reflexivity).
  split; [exact H1|]. split; [exact H2|]. split; [exact H3|].
  split; [exact H4|]. split; [vm_compute; reflexivity|].
  destruct (shutdown_deletes_every_key test_key 30 acquire_release
              (test_run 30 acquire_release) exits_all_return acquire_meanwhile
              H1 H2 H3)
    as ((Hexit & _ & Hsize & _ & _ & Hnone) & Hleft & Hfiled).
  split; [exact Hexit|]. split; [exact Hsize|].
  split; [exact (Hnone (Hfiled H4))|].
  intros o w' Hmeanwhile.
  destruct (Hleft o w' Hmeanwhile) as (Ho & _ & Hlen & _).
  split; [exact Ho|exact Hlen].
Defined.

Lemma absent_entry_value_keeps_raising_witness :
  holders (test_run 30 only_get) !! 0%nat = Some fresh_holder ∧
  _called_aenter fresh_holder = false ∧
  ∃ w1 w2,
    _Holder__aenter__ 0 (test_run 30 only_get) = Some (Awaits, w1) ∧
    _Holder__aenter__resume 0 None w1 = Some (Raises "Not possible?", w2) ∧
    ∀ tr w3, run test_key 30 tr w2 = Some w3 →
      ∃ w4, _Holder__aenter__ 0 w3 = Some (Raises "Not possible?", w4) ∧
            resources w4 = resources w3.
Proof.
  assert (holders (test_run 30 only_get) !! 0%nat = Some fresh_holder) as H1
    by (vm_compute; reflexivity).
  assert (_called_aenter fresh_holder = false) as H2 by reflexivity.
  split; [exact H1|]. split; [exact H2|].
  destruct (absent_entry_value_keeps_raising test_key 30
              (test_run 30 only_get) 0%nat fresh_holder H1 H2)
    as (w1 & w2 & hd2 & Henter & Hresume & _ & _ & _ & Hlater).
  exists w1, w2. split; [exact Henter|]. split; [exact Hresume|].
  intros tr w3 Hrun.
  destruct (Hlater tr w3 Hrun) as (hd3 & w4 & hd4 & _ & Hraise & _ & _ & Hres).
  exists w4. split; [exact Hraise|exact Hres].
Defined.

(** ** Where the code departs from the specification *)

(** An acquisition that follows the first one does not always return a
    value: when the entry routine returned [None] it raises. *)
Lemma later_acquisition_raises_after_absent_entry :
  ¬ (∀ (tr : list (label Z nat)) (w : World Z nat) h hd,
       run test_key 30 tr init = Some w → holders w !! h = Some hd →
       0 < acquisitions h tr →
       ∃ v w', _Holder__aenter__ h w = Some (Returns v, w')).
Proof.
  intros Hall.
  destruct (Hall entry_returns_none (test_run 30 entry_returns_none) 0%nat
              (MkHolder 0 1 true None (test_key hello)))
    as (v & w' & Hret).
  - vm_compute. reflexivity.
  - vm_compute. reflexivity.
  - vm_compute. reflexivity.
  - vm_compute in Hret. discriminate.
Qed.

(** The holder is released to count zero, which files a timer, and is
    acquired again through the reference the caller kept, without a new
    [get]; the timer is not cancelled, fires when the time-to-live has
    passed, and the deletion calls the exit routine of a holder whose
    count is one. *)
Lemma eviction_after_intervening_acquisition :
  ∃ w1 w2 w3 hd r2 r3,
    run test_key 30 acquire_release init = Some w1 ∧
    _timers w1 !! test_key hello = Some 0%nat ∧
    run test_key 30 reacquire_without_get w1 = Some w2 ∧
    tasks w2 = [test_key hello] ∧
    _instances w2 !! test_key hello = Some 0%nat ∧
    holders w2 !! 0%nat = Some hd ∧ _count hd = 1 ∧
    resources w2 !! 0%nat = Some r2 ∧ exit_called r2 = 0%nat ∧
    run_task w2 = Some w3 ∧
    _instances w3 !! test_key hello = None ∧
    resources w3 !! 0%nat = Some r3 ∧ exit_called r3 = 1%nat.
Proof.
  exists (test_run 30 acquire_release),
    (test_run 30 (acquire_release ++ reacquire_without_get)),
    (test_run 30 (acquire_release ++ reacquire_without_get ++ [RunTask])),
    (MkHolder 0 1 true (Some 7%nat) (test_key hello)),
    (MkResource hello 1 0), (MkResource hello 1 1).
  split_and!; vm_compute; reflexivity.
Qed.

(** Neither direction of the equivalence holds.  Right after [get] the
    holder has count zero and nothing was ever scheduled or deleted, yet
    the key has no timer; and after a release to zero followed by an
    acquisition through a kept reference the key has a timer while the
    count is one. *)
Lemma timer_dictionary_not_iff_count_zero :
  ¬ (∀ (tr : list (label Z nat)) (w : World Z nat) k h hd,
       run test_key 30 tr init = Some w →
       _instances w !! k = Some h → holders w !! h = Some hd →
       _count hd = 0 → is_Some (_timers w !! k)) ∧
  ¬ (∀ (tr : list (label Z nat)) (w : World Z nat) k h hd,
       run test_key 30 tr init = Some w →
       _instances w !! k = Some h → holders w !! h = Some hd →
       is_Some (_timers w !! k) → _count hd = 0).
Proof.
  split; intros Hall.
  - destruct (Hall only_get (test_run 30 only_get) (test_key hello) 0%nat
                fresh_holder) as [t Ht].
    + vm_compute. reflexivity.
    + vm_compute. reflexivity.
    + vm_compute. reflexivity.
    + reflexivity.
    + vm_compute in Ht. discriminate.
  - assert (_count (MkHolder 0 1 true (Some 7%nat) (test_key hello)
                    : Holder Z nat) = 0) as Hc; [|discriminate Hc].
    apply (Hall (acquire_release ++ [Enter 0%nat])
             (test_run 30 (acquire_release ++ [Enter 0%nat]))
             (test_key hello) 0%nat).
    + vm_compute. reflexivity.
    + vm_compute. reflexivity.
    + vm_compute. reflexivity.
    + exists 0%nat. vm_compute. reflexivity.
Qed.

(** A release without acquisition raises, but only after it has taken
    the count of the filed holder below zero. *)
Lemma filed_holder_count_negative :
  ¬ (∀ (tr : list (label Z nat)) (w : World Z nat) k h hd,
       run test_key 30 tr init = Some w →
       _instances w !! k = Some h → holders w !! h = Some hd →
       0 ≤ _count hd).
Proof.
  intros Hall.
  assert (0 ≤ _count (MkHolder 0 (-1) false None (test_key hello)
                      : Holder Z nat)) as Hc; [|vm_compute in Hc; by apply Hc].
  apply (Hall release_unacquired (test_run 30 release_unacquired)
           (test_key hello) 0%nat).
  - vm_compute. reflexivity.
  - vm_compute. reflexivity.
  - vm_compute. reflexivity.
Qed.

(** Leaving the pool does not always empty it, and does not cancel every
    timer.  With a holder for each of two keys, the exit routine of the
    first raising: [Pool.__aexit__] raises after its first turn, and the
    second holder stays filed with its exit routine not called.  With
    every exit routine returning and another task asking for ["hello"]
    while the first turn waits: [Pool.__aexit__] returns, and the pool has
    a holder.  And after a holder was released once it had left the
    pool, the key has a timer but no holder: [Pool.__aexit__] has no turn
    to run, the timer stays as it is and fires when it is due. *)
Lemma shutdown_leaves_keys_and_timers :
  run test_key 30 two_holders init = Some (test_run 30 two_holders) ∧
  (∃ w' r, Pool__aexit__ test_key 30 first_exit_raises []
             (test_run 30 two_holders) = Some (Raises "exit failed", w') ∧
      __len__ w' = 1%nat ∧ _instances w' !! test_key goodbye = Some 1%nat ∧
      resources w' !! 1%nat = Some r ∧ exit_called r = 0%nat) ∧
  (∃ w', Pool__aexit__ test_key 30 exits_all_return get_meanwhile
           (test_run 30 two_holders) = Some (Returns (), w') ∧
      __len__ w' = 1%nat) ∧
  run test_key 30 released_after_eviction init
  = Some (test_run 30 released_after_eviction) ∧
  (∃ w' th w'', Pool__aexit__ test_key 30 exits_all_return []
                  (test_run 30 released_after_eviction)
                = Some (Returns (), w') ∧
      _timers w' !! test_key hello = Some 1%nat ∧
      handles w' !! 1%nat = Some th ∧ th_cancelled th = false ∧
      fire 1 (sleep 30 w') = Some w'').
Proof.
  split_and!.
  - vm_compute. reflexivity.
  - eexists _, (MkResource goodbye 0 0). split_and!; vm_compute; reflexivity.
  - eexists. split_and!; vm_compute; reflexivity.
  - vm_compute. reflexivity.
  - eexists _, (MkTimerHandle 60 (test_key hello) false true), _.
    split_and!; vm_compute; reflexivity.
Qed.

(** ** The tuple that is hashed *)

Lemma foldl_append_kwarg_bind kw acc ks :
  foldl (append_kwarg kw) acc ks
  = acc ++ (ks ≫= λ k, match dict_getitem kw k with
                        | Some v => [PyStr k; v]
                        | None => [PyStr k]
                        end).
Proof.
  revert acc. induction ks as [|k ks IH]; intros acc; simpl.
  - by rewrite app_nil_r.
  - rewrite IH. unfold append_kwarg.
    destruct (dict_getitem kw k); by rewrite <- app_assoc.
Qed.

Lemma kwarg_chunks_inj kw1 kw2 (ks1 ks2 : list string) :
  (∀ k, k ∈ ks1 → is_Some (dict_getitem kw1 k)) →
  (∀ k, k ∈ ks2 → is_Some (dict_getitem kw2 k)) →
  (ks1 ≫= λ k, match dict_getitem kw1 k with
               | Some v => [PyStr k; v]
               | None => [PyStr k]
               end)
  = (ks2 ≫= λ k, match dict_getitem kw2 k with
                 | Some v => [PyStr k; v]
                 | None => [PyStr k]
                 end) →
  ks1 = ks2 ∧ ∀ k, k ∈ ks1 → dict_getitem kw1 k = dict_getitem kw2 k.
Proof.
  revert ks2. induction ks1 as [|k1 ks1 IH]; intros [|k2 ks2] H1 H2.
  - intros _. split; [done|]. intros k Hin. by apply elem_of_nil in Hin.
  - rewrite bind_cons. simpl.
    destruct (H2 k2) as [v2 ->]; [apply elem_of_cons; by left|]. done.
  - rewrite bind_cons. simpl.
    destruct (H1 k1) as [v1 ->]; [apply elem_of_cons; by left|]. done.
  - rewrite !bind_cons.
    destruct (H1 k1) as [v1 Hv1]; [apply elem_of_cons; by left|].
    destruct (H2 k2) as [v2 Hv2]; [apply elem_of_cons; by left|].
    rewrite Hv1, Hv2. simpl. intros [= -> -> Hrest].
    destruct (IH ks2) as [-> Hsame]; [| |done|].
    + intros k Hin. apply H1, elem_of_cons. by right.
    + intros k Hin. apply H2, elem_of_cons. by right.
    + split; [done|]. intros k [->|Hin]%elem_of_cons; [congruence|auto].
Qed.

Lemma sorted_key_found kw k :
  NoDup kw.*1 → k ∈ sorted kw.*1 → is_Some (dict_getitem kw k).
Proof.
  intros Hnd Hin. unfold sorted in Hin. rewrite merge_sort_Permutation in Hin.
  apply list_elem_of_fmap in Hin as ([k' v] & -> & Hin).
  exists v. by apply dict_getitem_elem_of.
Qed.

(** Among calls with the same number of positional arguments, the tuple
    that [reduce_args] hashes tells the calls apart: two such calls get
    the same tuple only when their positional arguments are equal and
    their named arguments are the same names with the same values. *)
Theorem hash_values_separates_calls (a1 a2 : Args) :
  NoDup (a_kwargs a1).*1 → NoDup (a_kwargs a2).*1 →
  length (a_args a1) = length (a_args a2) →
  hash_values (a_args a1) (a_kwargs a1) = hash_values (a_args a2) (a_kwargs a2) →
  a_args a1 = a_args a2 ∧ a_kwargs a1 ≡ₚ a_kwargs a2.
Proof.
  intros Hnd1 Hnd2 Hlen. unfold hash_values.
  rewrite !foldl_append_kwarg_bind.
  intros [Hargs Hchunks]%app_inj_1; [|done]. split; [done|].
  apply kwarg_chunks_inj in Hchunks as [Hkeys Hsame];
    [|intros k; by apply sorted_key_found..].
  apply NoDup_Permutation; [by eapply NoDup_fmap_1..|].
  intros [k v]. split; intros Hin.
  - apply dict_getitem_Some. rewrite <- Hsame.
    + by apply dict_getitem_elem_of.
    + unfold sorted. rewrite merge_sort_Permutation.
      apply list_elem_of_fmap. by exists (k, v).
  - apply dict_getitem_Some. rewrite Hsame.
    + by apply dict_getitem_elem_of.
    + rewrite Hkeys. unfold sorted. rewrite merge_sort_Permutation.
      apply list_elem_of_fmap. by exists (k, v).
Qed.

Lemma hash_values_separates_calls_witness :
  NoDup (a_kwargs named_ab).*1 ∧ NoDup (a_kwargs named_ba).*1 ∧
  length (a_args named_ab) = length (a_args named_ba) ∧
  hash_values (a_args named_ab) (a_kwargs named_ab)
  = hash_values (a_args named_ba) (a_kwargs named_ba) ∧
  a_args named_ab = a_args named_ba ∧ a_kwargs named_ab ≡ₚ a_kwargs named_ba.
Proof.
  assert (NoDup (a_kwargs named_ab).*1) as H1.
  { apply (bool_decide_unpack _). vm_compute. exact I. }
  assert (NoDup (a_kwargs named_ba).*1) as H2.
  { apply (bool_decide_unpack _). vm_compute. exact I. }
  assert (length (a_args named_ab) = length (a_args named_ba)) as H3
    by reflexivity.
  assert (hash_values (a_args named_ab) (a_kwargs named_ab)
          = hash_values (a_args named_ba) (a_kwargs named_ba)) as H4
    by reflexivity.
  split; [exact H1|]. split; [exact H2|]. split; [exact H3|]. split; [exact H4|].
  exact (hash_values_separates_calls named_ab named_ba H1 H2 H3 H4).
Defined.

(** ** The further theorems at work on the same pool *)

Lemma one_pending_timer_per_key_witness :
  reachable test_key 30 (test_run 30 acquire_release) ∧
  handles (test_run 30 acquire_release) !! 0%nat
  = Some (MkTimerHandle 30 (test_key hello) false true) ∧
  0%nat = 0%nat.
Proof.
  assert (reachable test_key 30 (test_run 30 acquire_release)) as H1.
  { exists acquire_release. vm_compute. reflexivity. }
  assert (handles (test_run 30 acquire_release) !! 0%nat
          = Some (MkTimerHandle 30 (test_key hello) false true)) as H2
    by (vm_compute; reflexivity).
  split; [exact H1|]. split; [exact H2|].
  exact (one_pending_timer_per_key test_key 30 _ 0%nat 0%nat _ _
           H1 H2 H2 eq_refl eq_refl eq_refl).
Defined.

Lemma get_returns_open_holder_witness :
  reachable test_key 30 (test_run 30 acquire_release) ∧
  ∃ hd r,
    holders (get test_key hello (test_run 30 acquire_release)).2
      !! (get test_key hello (test_run 30 acquire_release)).1 = Some hd ∧
    _key hd = test_key hello ∧
    resources (get test_key hello (test_run 30 acquire_release)).2
      !! _value hd = Some r ∧
    exit_called r = 0%nat.
Proof.
  assert (reachable test_key 30 (test_run 30 acquire_release)) as H1.
  { exists acquire_release. vm_compute. reflexivity. }
  split; [exact H1|].
  exact (get_returns_open_holder test_key 30 hello _ H1).
Defined.

Lemma acquisition_during_pending_entry_raises_witness :
  reachable test_key 30 (test_run 30 entry_pending) ∧
  0%nat ∈ entering (test_run 30 entry_pending) ∧
  ∃ w', _Holder__aenter__ 0 (test_run 30 entry_pending)
        = Some (Raises "Not possible?", w') ∧
        resources w' = resources (test_run 30 entry_pending).
Proof.
  assert (reachable test_key 30 (test_run 30 entry_pending)) as H1.
  { exists entry_pending. vm_compute. reflexivity. }
  assert (0%nat ∈ entering (test_run 30 entry_pending)) as H2.
  { replace (entering (test_run 30 entry_pending)) with [0%nat]
      by (vm_compute; reflexivity).
    apply elem_of_cons. left. reflexivity. }
  split; [exact H1|]. split; [exact H2|].
  destruct (acquisition_during_pending_entry_raises test_key 30 _ 0%nat H1 H2)
    as (hd & w' & hd' & _ & Hraise & _ & _ & Hres & _).
  exists w'. split; [exact Hraise|exact Hres].
Defined.

Lemma get_does_not_stop_created_task_witness :
  reachable test_key 30 (test_run 30 timer_fired) ∧
  tasks (test_run 30 timer_fired) = [test_key hello] ∧
  _instances (test_run 30 timer_fired) !! test_key hello = Some 0%nat ∧
  holders (test_run 30 timer_fired) !! 0%nat = Some used_holder ∧
  ∃ w1 o w2 w3 hd3 r3,
    get test_key hello (test_run 30 timer_fired) = (0%nat, w1) ∧
    _Holder__aenter__ 0 w1 = Some (o, w2) ∧
    run_task w2 = Some w3 ∧
    _instances w3 !! test_key hello = None ∧
    holders w3 !! 0%nat = Some hd3 ∧ _count hd3 = _count used_holder + 1 ∧
    resources w3 !! _value hd3 = Some r3 ∧ exit_called r3 = 1%nat.
Proof.
  assert (reachable test_key 30 (test_run 30 timer_fired)) as H1.
  { exists timer_fired. vm_compute. reflexivity. }
  assert (tasks (test_run 30 timer_fired) = [test_key hello]) as H2
    by (vm_compute; reflexivity).
  assert (_instances (test_run 30 timer_fired) !! test_key hello = Some 0%nat)
    as H3 by (vm_compute; reflexivity).
  assert (holders (test_run 30 timer_fired) !! 0%nat = Some used_holder) as H4
    by (vm_compute; reflexivity).
  split; [exact H1|]. split; [exact H2|]. split; [exact H3|]. split; [exact H4|].
  exact (get_does_not_stop_created_task test_key 30 hello _ _ [] 0%nat
           used_holder H1 H2 H3 H4 eq_refl).
Defined.

Lemma pool_size_is_built_minus_closed_witness :
  reachable test_key 30 (test_run 30 (timer_fired ++ [RunTask; Get hello])) ∧
  length (resources (test_run 30 (timer_fired ++ [RunTask; Get hello]))) = 2%nat ∧
  (__len__ (test_run 30 (timer_fired ++ [RunTask; Get hello]))
   + sum_list_with exit_called
       (resources (test_run 30 (timer_fired ++ [RunTask; Get hello])))
   = length (resources (test_run 30 (timer_fired ++ [RunTask; Get hello]))))%nat.
Proof.
  assert (reachable test_key 30
            (test_run 30 (timer_fired ++ [RunTask; Get hello]))) as H1.
  { exists (timer_fired ++ [RunTask; Get hello]). vm_compute. reflexivity. }
  split; [exact H1|]. split; [vm_compute; reflexivity|].
  exact (pool_size_is_built_minus_closed test_key 30 _ H1).
Defined.

Lemma holder_kept_within_ttl_witness :
  reachable test_key 30 (test_run 30 acquire_release) ∧
  run test_key 30 within_ttl (test_run 30 acquire_release)
  = Some (test_run 30 (acquire_release ++ within_ttl)) ∧
  time (test_run 30 (acquire_release ++ within_ttl)) = 29%nat ∧
  _instances (test_run 30 (acquire_release ++ within_ttl)) !! test_key hello
  = Some 0%nat.
Proof.
  assert (reachable test_key 30 (test_run 30 acquire_release)) as H1.
  { exists acquire_release. vm_compute. reflexivity. }
  assert (run test_key 30 within_ttl (test_run 30 acquire_release)
          = Some (test_run 30 (acquire_release ++ within_ttl))) as H2
    by (vm_compute; reflexivity).
  assert (time (test_run 30 (acquire_release ++ within_ttl)) = 29%nat) as H3
    by (vm_compute; reflexivity).
  split; [exact H1|]. split; [exact H2|]. split; [exact H3|].
  refine (proj1 (holder_kept_within_ttl test_key 30 within_ttl _ _
                   (test_key hello) 0%nat H1 H2 _ _ _ _ _)).
  - vm_compute. reflexivity.
  - replace (tasks (test_run 30 acquire_release)) with (@nil Z)
      by (vm_compute; reflexivity).
    apply not_elem_of_nil.
  - intros t th Ht Hth _. rewrite H3.
    replace (_timers (test_run 30 acquire_release) !! test_key hello)
      with (Some 0%nat) in Ht by (vm_compute; reflexivity).
    injection Ht as <-.
    replace (handles (test_run 30 acquire_release) !! 0%nat)
      with (Some (MkTimerHandle 30 (test_key hello) false true)) in Hth
      by (vm_compute; reflexivity).
    injection Hth as <-. simpl. lia.
  - rewrite H3.
    replace (time (test_run 30 acquire_release)) with 0%nat
      by (vm_compute; reflexivity).
    lia.
  - unfold within_ttl.
    repeat (apply Forall_cons; split; [split; discriminate|]).
    constructor.
Defined.

Lemma idle_holder_evicted_after_ttl_witness :
  reachable test_key 30 (test_run 30 acquire_release) ∧
  _instances (test_run 30 acquire_release) !! test_key hello = Some 0%nat ∧
  _timers (test_run 30 acquire_release) !! test_key hello = Some 0%nat ∧
  handles (test_run 30 acquire_release) !! 0%nat
  = Some (MkTimerHandle 30 (test_key hello) false true) ∧
  tasks (test_run 30 acquire_release) = [] ∧
  ∃ w', run test_key 30
          [Tick (30 - time (test_run 30 acquire_release)); Fire 0%nat; RunTask]
          (test_run 30 acquire_release) = Some w' ∧
        _instances w' !! test_key hello = None ∧
        S (__len__ w') = __len__ (test_run 30 acquire_release).
Proof.
  assert (reachable test_key 30 (test_run 30 acquire_release)) as H1.
  { exists acquire_release. vm_compute. reflexivity. }
  assert (_instances (test_run 30 acquire_release) !! test_key hello
          = Some 0%nat) as H2 by (vm_compute; reflexivity).
  assert (_timers (test_run 30 acquire_release) !! test_key hello
          = Some 0%nat) as H3 by (vm_compute; reflexivity).
  assert (handles (test_run 30 acquire_release) !! 0%nat
          = Some (MkTimerHandle 30 (test_key hello) false true)) as H4
    by (vm_compute; reflexivity).
  assert (tasks (test_run 30 acquire_release) = []) as H5
    by (vm_compute; reflexivity).
  split; [exact H1|]. split; [exact H2|]. split; [exact H3|].
  split; [exact H4|]. split; [exact H5|].
  destruct (idle_holder_evicted_after_ttl test_key 30 _ _ _ _ _
              H1 H2 H3 H4 eq_refl H5)
    as (w' & Hrun & Hnone & _ & Hlen & _).
  exists w'. split; [exact Hrun|]. split; [exact Hnone|exact Hlen].
Defined.

Lemma setstate_getstate_resets_dictionaries_witness :
  (∀ name, is_Some (pickleable_pool !! name) → name ∈ __slots__) ∧
  ∃ state, __getstate__ pickleable_pool = Found state ∧
    __setstate__ ∅ state
    = Found (<["_timers" := VDict ∅]>
               (<["_instances" := VDict ∅]> pickleable_pool)).
Proof.
  assert (∀ name, is_Some (pickleable_pool !! name) → name ∈ __slots__) as H1.
  { intros name [v Hv]. unfold pickleable_pool, pool_object, Pool__init__ in Hv.
    unfold __slots__.
    repeat (apply lookup_insert_Some in Hv as [[<- _]|[_ Hv]];
            [apply (bool_decide_unpack _); vm_compute; exact I|]).
    rewrite lookup_empty in Hv. discriminate. }
  split; [exact H1|].
  destruct (__getstate__ pickleable_pool) as [state|name] eqn:Hget.
  - exists state. split; [reflexivity|].
    exact (setstate_getstate_resets_dictionaries pickleable_pool state H1 Hget).
  - exfalso. vm_compute in Hget. discriminate.
Defined.

Lemma release_files_timer_under_key_witness :
  holders (test_run 30 second_holder_in_use) !! 0%nat
  = Some (MkHolder 0 1 true (Some 7%nat) (test_key hello)) ∧
  _instances (test_run 30 second_holder_in_use) !! test_key hello = Some 1%nat ∧
  ∃ w', _Holder__aexit__ 30 0 (test_run 30 second_holder_in_use)
        = Some (Returns (), w') ∧
    _instances w' !! test_key hello = Some 1%nat ∧
    _timers w' !! test_key hello = Some 1%nat.
Proof.
  assert (holders (test_run 30 second_holder_in_use) !! 0%nat
          = Some (MkHolder 0 1 true (Some 7%nat) (test_key hello))) as H1
    by (vm_compute; reflexivity).
  assert (_instances (test_run 30 second_holder_in_use) !! test_key hello
          = Some 1%nat) as H2 by (vm_compute; reflexivity).
  split; [exact H1|]. split; [exact H2|].
  destruct (release_files_timer_under_key 30
              (test_run 30 second_holder_in_use) 0%nat _ H1 eq_refl)
    as (w' & Hexit & Hinst & Htimer & _).
  exists w'. split; [exact Hexit|]. split.
  - rewrite Hinst. exact H2.
  - exact Htimer.
Defined.

(** What that timer does: the second holder, acquired once and never
    released, is taken out of the pool and closed when the timer of the
    first holder's late release fires. *)
Lemma late_release_evicts_holder_in_use :
  ∃ w hd r,
    run test_key 30
      (second_holder_in_use ++ [Exit 0%nat; Tick 30; Fire 1%nat; RunTask]) init
    = Some w ∧
    releases 1 (second_holder_in_use ++ [Exit 0%nat; Tick 30; Fire 1%nat; RunTask])
    = 0 ∧
    holders w !! 1%nat = Some hd ∧ _count hd = 1 ∧
    _instances w !! test_key hello = None ∧
    resources w !! 1%nat = Some r ∧ exit_called r = 1%nat.
Proof.
  exists (test_run 30
            (second_holder_in_use ++ [Exit 0%nat; Tick 30; Fire 1%nat; RunTask])),
    (MkHolder 1 1 true (Some 8%nat) (test_key hello)), (MkResource hello 1 1).
  split_and!; vm_compute; reflexivity.
Qed.
